(** * Foodgram backend: recipes, relations and the shopping list

    A shallow embedding of the validation and persistence logic of
    [backend/api/validators.py], [backend/api/serializers.py],
    [backend/api/utils.py] and the field validators declared in
    [backend/recipes/models.py].

    Conventions of the embedding.
    - Python [int] is [Z]; primary keys are [Z] as well.
    - Python [str] is [string], a sequence of bytes holding the UTF-8
      encoding of the text (the Cyrillic literals and the em-dash of the
      source are therefore several bytes long).
    - A [dict] whose keys may be missing is a record of [option] fields;
      subscripting a missing key raises [KeyError].
    - A database table is the list of its rows, in insertion order.
    - Code that reads or writes the database is a function from the store to
      a result and a store; [raise] keeps the store it was given, and
      [atomic] (the [@transaction.atomic] decorator) restores the store the
      block started from when the block raises. *)

From Stdlib Require Import ZArith String Ascii List.
From stdpp Require Import gmap strings list pretty.

Local Open Scope string_scope.
Local Open Scope list_scope.
Local Open Scope Z_scope.
Local Set Warnings "-clear-no-such-hyp".

(** ** Results *)

Inductive result (E A : Type) : Type :=
| Ok (a : A)
| Raise (e : E).
Arguments Ok {E A} a.
Arguments Raise {E A} e.

(** ** [api/validators.py] *)

Module validators.
Section validate_unique_for_list.
Context {A : Type} `{Countable A}.

(** [serializers.ValidationError(f'Поле {name} содержит повторяющийся
  элемент {elem}.')]: the exception carries the field label and the
  repeated element. *)
Inductive ValidationError : Type :=
| RepeatedElement (name : string) (elem : A).

(** The [for elem in data] loop, with the local set [temp] as accumulator. *)
Fixpoint for_elem_in (name : string) (data : list A) (temp : gset A)
: result ValidationError unit :=
match data with
| [] => Ok tt
| elem :: data' =>
    if decide (elem ∈ temp)
    then Raise (RepeatedElement name elem)
    else for_elem_in name data' ({[elem]} ∪ temp)
end.

Definition validate_unique_for_list (name : string) (data : list A)
: result ValidationError unit :=
for_elem_in name data ∅.

(** The first repeated element of a sequence: [elem] occurs in [pre], which
  itself has no repetition, and [post] is what the scan never reaches. *)
Definition first_repeated (data : list A) (elem : A) : Prop :=
∃ pre post, data = pre ++ elem :: post ∧ NoDup pre ∧ elem ∈ pre.

End validate_unique_for_list.
Arguments ValidationError A : clear implicits.
End validators.

(** ** [recipes/models.py] *)

Definition pk : Type := Z.

Module models.

(** Modelled from the spec: [recipes/constants.py] is not part of the
    sources at hand. The spec bounds [cooking_time] to [1, 1000], and the
    message of the validator in [models.py] is "Минимальное время - 1
    минута". *)
Definition MIN_COOKING_TIME : Z := 1.

(** Modelled from the spec: the upper bound of [cooking_time] in the spec;
    the message of the validator is "Максимальное время - 1000 минут". *)
Definition MAX_COOKING_TIME : Z := 1000.

(** Modelled from the spec: the spec bounds [amount] to [1, 3000]; the
    message of the validator is "Минимальное количество - 1". *)
Definition MIN_AMOUNT_INGREDIENT : Z := 1.

(** Modelled from the spec: the upper bound of [amount] in the spec; the
    message of the validator is "Максимальноe количество - 3000". *)
Definition MAX_AMOUNT_INGREDIENT : Z := 3000.

(** [django.core.validators]: a validator is called on the value and
    either passes or raises its message. [MaxValueValidator] rejects
    [value > limit], [MinValueValidator] rejects [value < limit]. *)
Definition Validator : Type := Z → option string.

Definition MaxValueValidator (limit_value : Z) (message : string) : Validator :=
  λ value, if decide (value > limit_value)%Z then Some message else None.

Definition MinValueValidator (limit_value : Z) (message : string) : Validator :=
  λ value, if decide (value < limit_value)%Z then Some message else None.

(** [Field.run_validators]: every validator runs, the messages of those
    that fail are collected, and the field is valid when none is. *)
Definition run_validators (validators : list Validator) (value : Z) : list string :=
  omap (λ v, v value) validators.

(** [Ingredient]: [(name, measurement_unit)] is unique. *)
Record Ingredient : Type := {
  ingredient_id : pk;
  ingredient_name : string;
  measurement_unit : string;
}.

(** [Tag]: [name] and [slug] are unique each. *)
Record Tag : Type := {
  tag_id : pk;
  tag_name : string;
  color : string;
  slug : string;
}.

(** [Recipe]; [pub_date] (set by the clock on insertion) is left out, the
    many-to-many [tag] lives in the table [Recipe_tag] of the store and
    [ingredient] goes through [IngredientRecipe]. *)
Record Recipe : Type := {
  recipe_id : pk;
  author : pk;
  name : string;
  text : string;
  cooking_time : Z;
  image : string;
}.

Definition cooking_time_validators : list Validator :=
  [ MaxValueValidator MAX_COOKING_TIME "Максимальное время - 1000 минут";
    MinValueValidator MIN_COOKING_TIME "Минимальное время - 1 минута" ].

(** [IngredientRecipe]: one ingredient line of a recipe;
    [(recipe, ingredient)] is unique ([unique_recipe_ingredient]). *)
Record IngredientRecipe : Type := {
  ingredient : pk;
  recipe : pk;
  amount : Z;
}.

Definition amount_validators : list Validator :=
  [ MaxValueValidator MAX_AMOUNT_INGREDIENT "Максимальноe количество - 3000";
    MinValueValidator MIN_AMOUNT_INGREDIENT "Минимальное количество - 1" ].

(** [BaseUserRecipeRelation]: the abstract base of [Favorite] and
    [BuyList]; [(user, recipe)] is unique in each of the two tables. *)
Record BaseUserRecipeRelation : Type := {
  rel_user : pk;
  rel_recipe : pk;
}.

(** The two concrete relation models, as the value of [Meta.model]. *)
Inductive RelationModel : Type := Favorite | BuyList.

Definition verbose_name (model : RelationModel) : string :=
  match model with
  | Favorite => "Избранное"
  | BuyList => "Корзина"
  end.

Definition unique_constraint_name (model : RelationModel) : string :=
  match model with
  | Favorite => "unique_user_and_favorite_recipe"
  | BuyList => "unique_user_and_buylist_recipe"
  end.

(** Modelled from the spec: [users/models.py] is not part of the sources
    at hand; a [Subscription] is a [(user, author)] pair. *)
Record Subscription : Type := {
  sub_user : pk;
  sub_author : pk;
}.

#[export] Instance Ingredient_eq_dec : EqDecision Ingredient.
Proof. solve_decision. Defined.
#[export] Instance Tag_eq_dec : EqDecision Tag.
Proof. solve_decision. Defined.
#[export] Instance Recipe_eq_dec : EqDecision Recipe.
Proof. solve_decision. Defined.
#[export] Instance IngredientRecipe_eq_dec : EqDecision IngredientRecipe.
Proof. solve_decision. Defined.
#[export] Instance BaseUserRecipeRelation_eq_dec : EqDecision BaseUserRecipeRelation.
Proof. solve_decision. Defined.
#[export] Instance RelationModel_eq_dec : EqDecision RelationModel.
Proof. solve_decision. Defined.
#[export] Instance Subscription_eq_dec : EqDecision Subscription.
Proof. solve_decision. Defined.

End models.
Export models.

(** ** The database *)

Record Store : Type := {
  Ingredient_objects : list Ingredient;
  Tag_objects : list Tag;
  Recipe_objects : list Recipe;
  (** rows [(recipe, tag)] of the table behind [Recipe.tag] *)
  Recipe_tag : list (pk * pk);
  IngredientRecipe_objects : list IngredientRecipe;
  Favorite_objects : list BaseUserRecipeRelation;
  BuyList_objects : list BaseUserRecipeRelation;
  Subscription_objects : list Subscription;
}.

Definition empty_store : Store :=
  {| Ingredient_objects := []; Tag_objects := []; Recipe_objects := [];
     Recipe_tag := []; IngredientRecipe_objects := []; Favorite_objects := [];
     BuyList_objects := []; Subscription_objects := [] |}.

(** Two tags for the sample stores. *)
Definition breakfast : Tag :=
  {| tag_id := 1; tag_name := "Breakfast"; color := "#E26C2D";
     slug := "breakfast" |}.

Definition lunch : Tag :=
  {| tag_id := 2; tag_name := "Lunch"; color := "#49B64E"; slug := "lunch" |}.

(** [model.objects] for the two relation models. *)
Definition relation_objects (model : RelationModel) (db : Store)
  : list BaseUserRecipeRelation :=
  match model with
  | Favorite => Favorite_objects db
  | BuyList => BuyList_objects db
  end.

Definition set_relation_objects (model : RelationModel)
    (rows : list BaseUserRecipeRelation) (db : Store) : Store :=
  match model with
  | Favorite =>
      {| Ingredient_objects := Ingredient_objects db;
         Tag_objects := Tag_objects db;
         Recipe_objects := Recipe_objects db;
         Recipe_tag := Recipe_tag db;
         IngredientRecipe_objects := IngredientRecipe_objects db;
         Favorite_objects := rows;
         BuyList_objects := BuyList_objects db;
         Subscription_objects := Subscription_objects db |}
  | BuyList =>
      {| Ingredient_objects := Ingredient_objects db;
         Tag_objects := Tag_objects db;
         Recipe_objects := Recipe_objects db;
         Recipe_tag := Recipe_tag db;
         IngredientRecipe_objects := IngredientRecipe_objects db;
         Favorite_objects := Favorite_objects db;
         BuyList_objects := rows;
         Subscription_objects := Subscription_objects db |}
  end.

Definition set_Recipe_objects (rows : list Recipe) (db : Store) : Store :=
  {| Ingredient_objects := Ingredient_objects db;
     Tag_objects := Tag_objects db;
     Recipe_objects := rows;
     Recipe_tag := Recipe_tag db;
     IngredientRecipe_objects := IngredientRecipe_objects db;
     Favorite_objects := Favorite_objects db;
     BuyList_objects := BuyList_objects db;
     Subscription_objects := Subscription_objects db |}.

Definition set_Recipe_tag (rows : list (pk * pk)) (db : Store) : Store :=
  {| Ingredient_objects := Ingredient_objects db;
     Tag_objects := Tag_objects db;
     Recipe_objects := Recipe_objects db;
     Recipe_tag := rows;
     IngredientRecipe_objects := IngredientRecipe_objects db;
     Favorite_objects := Favorite_objects db;
     BuyList_objects := BuyList_objects db;
     Subscription_objects := Subscription_objects db |}.

Definition set_IngredientRecipe_objects (rows : list IngredientRecipe)
    (db : Store) : Store :=
  {| Ingredient_objects := Ingredient_objects db;
     Tag_objects := Tag_objects db;
     Recipe_objects := Recipe_objects db;
     Recipe_tag := Recipe_tag db;
     IngredientRecipe_objects := rows;
     Favorite_objects := Favorite_objects db;
     BuyList_objects := BuyList_objects db;
     Subscription_objects := Subscription_objects db |}.

Definition set_Subscription_objects (rows : list Subscription)
    (db : Store) : Store :=
  {| Ingredient_objects := Ingredient_objects db;
     Tag_objects := Tag_objects db;
     Recipe_objects := Recipe_objects db;
     Recipe_tag := Recipe_tag db;
     IngredientRecipe_objects := IngredientRecipe_objects db;
     Favorite_objects := Favorite_objects db;
     BuyList_objects := BuyList_objects db;
     Subscription_objects := rows |}.

Definition set_Ingredient_objects (rows : list Ingredient) (db : Store) : Store :=
  {| Ingredient_objects := rows;
     Tag_objects := Tag_objects db;
     Recipe_objects := Recipe_objects db;
     Recipe_tag := Recipe_tag db;
     IngredientRecipe_objects := IngredientRecipe_objects db;
     Favorite_objects := Favorite_objects db;
     BuyList_objects := BuyList_objects db;
     Subscription_objects := Subscription_objects db |}.

(** ** The user of a request *)

Module users.

(** Modelled from the spec: [users/models.py] is not part of the sources at
    hand. The user a request carries is Django's [AnonymousUser] or a stored
    user, known by its primary key and its [is_superuser] flag. *)
Inductive RequestUser : Type :=
| AnonymousUser
| User (id : pk) (superuser : bool).

Definition is_authenticated (u : RequestUser) : bool :=
  match u with
  | AnonymousUser => false
  | User _ _ => true
  end.

Definition is_superuser (u : RequestUser) : bool :=
  match u with
  | AnonymousUser => false
  | User _ superuser => superuser
  end.

(** [request.user == other] for a stored user [other]: models are equal when
    their primary keys are, and [AnonymousUser] equals no stored user. *)
Definition user_eq (u : RequestUser) (other : pk) : bool :=
  match u with
  | AnonymousUser => false
  | User id _ => bool_decide (id = other)
  end.

End users.
Export users.

(** ** [api/utils.py] *)

Module utils.

(** The line feed of ['\n'.join]. *)
Definition LF : string := String (ascii_of_nat 10) EmptyString.

(** A row of [.values('ingredient__name', 'ingredient__measurement_unit')]
    together with the amount it carries. *)
Definition Row : Type := string * string * Z.

(** [IngredientRecipe.objects.filter(recipe__buylist__user=user)]: the
    ingredient lines joined with the [BuyList] rows of [user] on the
    recipe; a line comes out once per matching cart row. *)
Definition filter_recipe__buylist__user (db : Store) (u : pk)
  : list IngredientRecipe :=
  IngredientRecipe_objects db ≫= λ line,
    (λ _, line) <$>
      filter (λ b, rel_user b = u ∧ rel_recipe b = recipe line) (BuyList_objects db).

(** [.values('ingredient__name', 'ingredient__measurement_unit')]: each
    line joined with its ingredient row. *)
Definition values (db : Store) (lines : list IngredientRecipe) : list Row :=
  lines ≫= λ line,
    (λ i, (ingredient_name i, measurement_unit i, amount line)) <$>
      filter (λ i, ingredient_id i = ingredient line) (Ingredient_objects db).

(** One step of [GROUP BY name, unit] with [SUM(amount)]: the amount joins
    the group of its key, or opens a new group after the existing ones. *)
Fixpoint add_to_group (key : string * string) (a : Z) (groups : list Row)
  : list Row :=
  match groups with
  | [] => [(key, a)]
  | (k, total) :: groups' =>
      if decide (k = key) then (k, (total + a)%Z) :: groups'
      else (k, total) :: add_to_group key a groups'
  end.

(** [.annotate(amount=Sum('amount'))] over the rows of [values]. The query
    has no [order_by], so the database lists the groups in an order of its
    choice; here they come in the order in which their first row is met,
    and the properties below are about the groups, not about their
    order. *)
Definition annotate_Sum (rows : list Row) : list Row :=
  foldl (λ groups row, add_to_group row.1 row.2 groups) [] rows.

(** The f-string of the loop body. *)
Definition format_line (ingredient : Row) : string :=
  (ingredient.1.1 +:+ " ") +:+
  ("(" +:+ ingredient.1.2 +:+ ")") +:+
  (" — " +:+ pretty ingredient.2).

Definition get_ingredients_for_download (db : Store) (u : pk) : string :=
  let ingredients :=
    annotate_Sum (values db (filter_recipe__buylist__user db u)) in
  let ingredient_list := ["Список покупок:"] ++ (format_line <$> ingredients) in
  let response_content := String.concat LF ingredient_list in
  response_content.

(** The rows the list is computed from. *)
Definition cart_rows (db : Store) (u : pk) : list Row :=
  values db (filter_recipe__buylist__user db u).

(** The recipe of the line is in the cart of [u]. *)
Definition in_cart (db : Store) (u : pk) (line : IngredientRecipe) : Prop :=
  Exists (λ b, rel_user b = u ∧ rel_recipe b = recipe line) (BuyList_objects db).

#[export] Instance in_cart_dec db u line : Decision (in_cart db u line).
Proof. unfold in_cart. apply _. Defined.

(** The cart of [u] holds no recipe. *)
Definition cart_empty (db : Store) (u : pk) : Prop :=
  Forall (λ b, rel_user b ≠ u) (BuyList_objects db).

(** The sum of the amounts of the rows whose key is [key]. *)
Definition Sum_amount (key : string * string) (rows : list Row) : Z :=
  foldr Z.add 0%Z ((filter (λ row, row.1 = key) rows).*2).

(** The cart of the spec's example: recipes 1 and 2, each with one line of
    ingredient 1 (Salt, g), amounts 10 and 5, both in the cart of user 7. *)
Definition salt_store : Store :=
  {| Ingredient_objects :=
       [ {| ingredient_id := 1; ingredient_name := "Salt"; measurement_unit := "g" |} ];
     Tag_objects := [ breakfast ];
     Recipe_objects :=
       [ {| recipe_id := 1; author := 3; name := "R1"; text := "Mix.";
            cooking_time := 10; image := "recipes/images/r1.png" |};
         {| recipe_id := 2; author := 3; name := "R2"; text := "Stir.";
            cooking_time := 20; image := "recipes/images/r2.png" |} ];
     Recipe_tag := [ (1, 1); (2, 1) ]%Z;
     IngredientRecipe_objects :=
       [ {| ingredient := 1; recipe := 1; amount := 10 |};
         {| ingredient := 1; recipe := 2; amount := 5 |} ];
     Favorite_objects := [];
     BuyList_objects :=
       [ {| rel_user := 7; rel_recipe := 1 |}; {| rel_user := 7; rel_recipe := 2 |} ];
     Subscription_objects := [] |}.

End utils.

(** ** [api/serializers.py] *)

Module serializers.

(** The exceptions the serializers can raise, one constructor per [raise]
    of the source (all of them are DRF [ValidationError]s there, told apart
    by their message) and one per failure of a call they make. *)
Inductive Error : Type :=
| KeyError (key : string)
    (** subscripting a [dict] at a missing key *)
| FieldErrors (errors : list (string * list string))
    (** the messages of the serializer fields, per field *)
| TagsRequired
    (** 'Поле "tags" должно содержать хотя бы один элемент.' *)
| IngredientsRequired
    (** 'Поле "ingredients" не должно быть пустым списком.' *)
| RecipeAlreadyExists
    (** 'У вас уже есть рецепт с таким названием и тегами.' *)
| RepeatedElement (name : string) (elem : pk)
    (** 'Поле {name} содержит повторяющийся элемент {elem}.' *)
| AlreadyAdded (verbose_name : string)
    (** 'Вы уже добавили этот рецепт в {verbose_name}.' *)
| AlreadySubscribed (author : pk)
    (** 'Вы уже подписывались на пользователя {author.username}.' *)
| SelfSubscription
    (** 'Вы не можете подписываться на себя.' *)
| Http404
    (** [get_object_or_404] found no row *)
| IntegrityError (constraint : string)
    (** the database refused a row *).

(** *** Store-passing computations *)

Definition M (A : Type) : Type := Store → result Error A * Store.

Definition ret {A} (a : A) : M A := λ db, (Ok a, db).

Definition raise {A} (e : Error) : M A := λ db, (Raise e, db).

(** When [m] raises, the exception propagates with the store as [m] left
    it: what was written before the [raise] stays written. *)
Definition bind {A B} (m : M A) (f : A → M B) : M B :=
  λ db, match m db with
        | (Ok a, db') => f a db'
        | (Raise e, db') => (Raise e, db')
        end.

Definition query {A} (q : Store → A) : M A := λ db, (Ok (q db), db).

Definition write (f : Store → Store) : M unit := λ db, (Ok tt, f db).

(** [@transaction.atomic]: the block commits when it returns and is rolled
    back to the store it started from when it raises. *)
Definition atomic {A} (block : M A) : M A :=
  λ db, match block db with
        | (Ok a, db') => (Ok a, db')
        | (Raise e, _) => (Raise e, db)
        end.

(** [x ← m; k] and [m ;; k] are stdpp's notations for [bind]. *)
#[export] Instance M_bind : MBind M := λ A B f m, bind m f.

(** [d[key]] *)
Definition getitem {A} (key : string) (value : option A) : M A :=
  match value with
  | Some v => ret v
  | None => raise (KeyError key)
  end.

(** [[f(x) for x in l]] *)
Fixpoint comprehension {A B} (f : A → M B) (l : list A) : M (list B) :=
  match l with
  | [] => ret []
  | x :: l' => y ← f x; ys ← comprehension f l'; ret (y :: ys)
  end.

(** A call of [validate_unique_for_list] from a serializer. *)
Definition call_validator
    (r : result (validators.ValidationError pk) unit) : M unit :=
  match r with
  | Ok _ => ret tt
  | Raise (validators.RepeatedElement name elem) =>
      raise (RepeatedElement name elem)
  end.

(** *** The validated data of [RecipeSerializer] *)

(** One entry of [recipe_ingredients]. *)
Record IngredientData : Type := {
  data_ingredient : option pk;
  data_amount : option Z;
}.

(** [attrs] / [validated_data]: the keys are the [source]s of the
    serializer fields; a key the request did not carry is missing (the
    update is a [PATCH], [permissions.py] refuses [PUT]). The image is known
    by the name under which the storage keeps the uploaded file; the storage
    picks that name when the recipe is saved. *)
Record Attrs : Type := {
  attrs_name : option string;
  attrs_text : option string;
  attrs_cooking_time : option Z;
  attrs_image : option string;
  attrs_tag : option (list pk);
  attrs_recipe_ingredients : option (list IngredientData);
}.

(** *** [RecipeSerializer] *)

(** [Recipe.objects.filter(name=name, author=author, tag__in=tags).exists()] *)
Definition Recipe_filter_exists (db : Store) (name : string) (author : pk)
    (tags : list pk) : Prop :=
  Exists (λ r, models.name r = name ∧ models.author r = author ∧
               Exists (λ row, row.1 = recipe_id r ∧ row.2 ∈ tags) (Recipe_tag db))
         (Recipe_objects db).

#[export] Instance Recipe_filter_exists_dec db name author tags :
  Decision (Recipe_filter_exists db name author tags).
Proof. unfold Recipe_filter_exists. apply _. Defined.

(** [not tags] *)
Definition not_ {A} (x : option (list A)) : bool :=
  match x with
  | None | Some [] => true
  | Some (_ :: _) => false
  end.

Definition validate (author : pk) (method : string) (attrs : Attrs) : M Attrs :=
  let tags := attrs_tag attrs in
  name ← getitem "name" (attrs_name attrs);
  ingredients ← getitem "recipe_ingredients" (attrs_recipe_ingredients attrs);
  ingredients_obj ←
    comprehension (λ ingred, getitem "ingredient" (data_ingredient ingred))
                  ingredients;
  if not_ tags then raise TagsRequired else
  if not_ (Some ingredients) then raise IngredientsRequired else
  exists_ ← query (λ db, bool_decide
               (method = "POST" ∧
                Recipe_filter_exists db name author (default [] tags)));
  if (exists_ : bool) then raise RecipeAlreadyExists else
  call_validator
         (validators.validate_unique_for_list "Теги" (default [] tags)) ;;
  call_validator
         (validators.validate_unique_for_list "Ингредиенты" ingredients_obj) ;;
  ret attrs.

(** *** The fields of [RecipeSerializer]

    The checks that run before [validate]: those of the declared fields
    ([tags] and the [id] of an ingredient entry are
    [PrimaryKeyRelatedField]s over [Tag.objects.all()] and
    [Ingredient.objects.all()]) and those the other fields inherit from the
    model fields ([cooking_time] of [Recipe], [amount] of
    [IngredientRecipe]: the framework gives the serializer field the limits
    of the two validators of the model field). Every field reports its own
    messages, and the messages of all the fields are raised together; the
    messages below are the framework's English ones and those of
    [models.py]. *)

(** The double quote of the framework's messages. *)
Definition quote : string := String (ascii_of_nat 34) EmptyString.

(** [Field.validate_empty_values] on a key the request does not carry: no
    field of the serializer is optional, and a partial update skips the
    field. *)
Definition required (partial : bool) : list string :=
  if partial then [] else ["This field is required."].

(** [PrimaryKeyRelatedField.to_internal_value]: [queryset.get(pk=data)],
    which fails when no row has that primary key. *)
Definition does_not_exist (pks : list pk) (pk_value : pk) : list string :=
  if decide (pk_value ∈ pks) then []
  else ["Invalid pk " +:+ quote +:+ pretty pk_value +:+ quote +:+
        " - object does not exist."].

(** One entry of [ingredients], through [RecipeIngredientSerializer]. *)
Definition ingredient_errors (partial : bool) (db : Store) (d : IngredientData)
  : list string :=
  match data_ingredient d with
  | None => required partial
  | Some pk_value =>
      does_not_exist (ingredient_id <$> Ingredient_objects db) pk_value
  end ++
  match data_amount d with
  | None => required partial
  | Some amount => run_validators amount_validators amount
  end.

(** The entry of a field in the dictionary of errors. *)
Definition errors_of (field : string) (messages : list string)
  : list (string * list string) :=
  if messages is [] then [] else [(field, messages)].

(** The errors of the fields, in the order of [Meta.fields]. The list of
    tags is converted by a comprehension, which the first tag that is not
    stored leaves with its message; the entries of [ingredients] report
    each for itself. *)
Definition field_errors (partial : bool) (db : Store) (attrs : Attrs)
  : list (string * list string) :=
  let tags :=
    match attrs_tag attrs with
    | None => required partial
    | Some tags => take 1 (tags ≫= does_not_exist (tag_id <$> Tag_objects db))
    end in
  let ingredients :=
    match attrs_recipe_ingredients attrs with
    | None => required partial
    | Some data => data ≫= ingredient_errors partial db
    end in
  let name := if attrs_name attrs is None then required partial else [] in
  let image := if attrs_image attrs is None then required partial else [] in
  let text := if attrs_text attrs is None then required partial else [] in
  let cooking_time :=
    match attrs_cooking_time attrs with
    | None => required partial
    | Some value => run_validators cooking_time_validators value
    end in
  errors_of "tags" tags ++ errors_of "ingredients" ingredients ++
  errors_of "name" name ++ errors_of "image" image ++ errors_of "text" text ++
  errors_of "cooking_time" cooking_time.

(** The serializer of a [PATCH] is built with [partial=True]
    ([UpdateModelMixin.partial_update] of the framework). *)
Definition partial (method : string) : bool := bool_decide (method = "PATCH").

(** [serializer.is_valid(raise_exception=True)] *)
Definition run_validation (author : pk) (method : string) (attrs : Attrs)
  : M Attrs :=
  errors ← query (λ db, field_errors (partial method) db attrs);
  if decide (errors = []) then validate author method attrs
  else raise (FieldErrors errors).

(** [Recipe.objects.create] on [validated_data], once [tag] and
    [recipe_ingredients] are popped and the author is supplied by the
    caller. A character or file column whose key is missing gets the
    field's empty default; the integer column [cooking_time] has none and
    the insertion is refused. The new primary key is above every key of
    the table. *)
Definition next_pk (rows : list Recipe) : pk :=
  1 + foldr Z.max 0 (recipe_id <$> rows).

Definition Recipe_objects_create (author : pk) (validated_data : Attrs)
  : M Recipe :=
  match attrs_cooking_time validated_data with
  | None => raise (IntegrityError "recipes_recipe.cooking_time")
  | Some cooking_time =>
      rows ← query Recipe_objects;
      let recipe :=
        {| recipe_id := next_pk rows;
           author := author;
           name := default EmptyString (attrs_name validated_data);
           text := default EmptyString (attrs_text validated_data);
           cooking_time := cooking_time;
           image := default EmptyString (attrs_image validated_data) |} in
      write (set_Recipe_objects (rows ++ [recipe])) ;;
      ret recipe
  end.

(** [IngredientRecipe.objects.bulk_create(ingredients)]: the constraint
    [unique_recipe_ingredient] refuses the batch when one of its
    [(recipe, ingredient)] pairs is already stored or occurs twice in it. *)
Definition recipe_ingredient (line : IngredientRecipe) : pk * pk :=
  (recipe line, ingredient line).

Definition bulk_create (objs : list IngredientRecipe) : M unit :=
  rows ← query IngredientRecipe_objects;
  if decide (NoDup (recipe_ingredient <$> objs) ∧
             Forall (λ o, recipe_ingredient o ∉ recipe_ingredient <$> rows) objs)
  then write (set_IngredientRecipe_objects (rows ++ objs))
  else raise (IntegrityError "unique_recipe_ingredient").

Definition _create_ingredients (recipe : Recipe)
    (ingredients_data : list IngredientData) : M unit :=
  ingredients ←
    comprehension
      (λ ingredient_data,
         ingredient ← getitem "ingredient" (data_ingredient ingredient_data);
         amount ← getitem "amount" (data_amount ingredient_data);
         ret {| ingredient := ingredient;
                recipe := recipe_id recipe;
                amount := amount |})
      ingredients_data;
  bulk_create ingredients.

(** [recipe.tag.set(tags)]: the rows of the recipe whose tag is not in
    [tags] are removed, and one row is added for each tag of [tags] the
    recipe did not have. *)
Definition tag_set (recipe : Recipe) (tags : list pk) : M unit :=
  write (λ db,
    let old_ids := (filter (λ row, row.1 = recipe_id recipe) (Recipe_tag db)).*2 in
    let new_objs := remove_dups (filter (λ t, t ∉ old_ids) tags) in
    set_Recipe_tag
      (filter (λ row, row.1 ≠ recipe_id recipe ∨ row.2 ∈ tags) (Recipe_tag db)
       ++ ((λ t, (recipe_id recipe, t)) <$> new_objs))
      db).

Definition create (author : pk) (validated_data : Attrs) : M Recipe :=
  atomic (
    ingredients_data ←
      getitem "recipe_ingredients" (attrs_recipe_ingredients validated_data);
    tags ← getitem "tag" (attrs_tag validated_data);
    recipe ← Recipe_objects_create author validated_data;
    _create_ingredients recipe ingredients_data ;;
    tag_set recipe tags ;;
    ret recipe).

(** [instance.save()]: the row with the instance's primary key is
    overwritten; were there none, the instance would be inserted. *)
Definition save (instance : Recipe) : M unit :=
  write (λ db,
    if decide (Exists (λ r, recipe_id r = recipe_id instance) (Recipe_objects db))
    then set_Recipe_objects
           ((λ r, if decide (recipe_id r = recipe_id instance) then instance else r)
              <$> Recipe_objects db) db
    else set_Recipe_objects (Recipe_objects db ++ [instance]) db).

(** [instance.recipe_ingredients.all().delete()] *)
Definition recipe_ingredients_delete (instance : Recipe) : M unit :=
  write (λ db,
    set_IngredientRecipe_objects
      (filter (λ line, recipe line ≠ recipe_id instance)
              (IngredientRecipe_objects db)) db).

Definition update (instance : Recipe) (validated_data : Attrs) : M Recipe :=
  atomic (
    let tags := default [] (attrs_tag validated_data) in
    let ingredients_data :=
      default [] (attrs_recipe_ingredients validated_data) in
    let instance :=
      {| recipe_id := recipe_id instance;
         author := author instance;
         name := default (name instance) (attrs_name validated_data);
         text := default (text instance) (attrs_text validated_data);
         cooking_time :=
           default (cooking_time instance) (attrs_cooking_time validated_data);
         image := default (image instance) (attrs_image validated_data) |} in
    save instance ;;
    tag_set instance tags ;;
    recipe_ingredients_delete instance ;;
    _create_ingredients instance ingredients_data ;;
    ret instance).

(** The two operations on recipes, as a view runs them:
    [serializer.is_valid(raise_exception=True)] and then
    [serializer.save()], a [POST] for a creation and a [PATCH] for an
    update. *)
Definition create_recipe (author : pk) (attrs : Attrs) : M Recipe :=
  validated_data ← run_validation author "POST" attrs;
  create author validated_data.

Definition update_recipe (request_user : pk) (instance : Recipe)
    (attrs : Attrs) : M Recipe :=
  validated_data ← run_validation request_user "PATCH" attrs;
  update instance validated_data.

(** *** [BaseAddRecipeSerializer], for [Favorite] and [BuyList] *)

Definition same_user_recipe (u recipe_id : pk) (row : BaseUserRecipeRelation)
  : Prop :=
  rel_user row = u ∧ rel_recipe row = recipe_id.

#[export] Instance same_user_recipe_dec u recipe_id row :
  Decision (same_user_recipe u recipe_id row).
Proof. unfold same_user_recipe. apply _. Defined.

Definition BaseAddRecipeSerializer_validate (model : RelationModel)
    (u recipe_id : pk) : M unit :=
  exists_ ← query (λ db, bool_decide
               (Exists (same_user_recipe u recipe_id) (relation_objects model db)));
  if (exists_ : bool) then raise (AlreadyAdded (verbose_name model))
  else ret tt.

(** [get_object_or_404(Recipe, id=recipe_id)] *)
Definition get_object_or_404 (id : pk) : M Recipe :=
  rows ← query Recipe_objects;
  match head (filter (λ r, recipe_id r = id) rows) with
  | Some r => ret r
  | None => raise Http404
  end.

(** [model.objects.create(user=user, recipe=recipe)], under the unique
    constraint on [(user, recipe)] of the model. *)
Definition relation_objects_create (model : RelationModel) (u : pk)
    (recipe : Recipe) : M BaseUserRecipeRelation :=
  rows ← query (relation_objects model);
  if decide (Exists (same_user_recipe u (recipe_id recipe)) rows)
  then raise (IntegrityError (unique_constraint_name model))
  else
    let instanse := {| rel_user := u; rel_recipe := recipe_id recipe |} in
    write (set_relation_objects model (rows ++ [instanse])) ;;
    ret instanse.

Definition BaseAddRecipeSerializer_create (model : RelationModel)
    (u recipe_id : pk) : M BaseUserRecipeRelation :=
  recipe ← get_object_or_404 recipe_id;
  instanse ← relation_objects_create model u recipe;
  ret instanse.

(** Adding a recipe to the favorites or to the cart: [is_valid], then
    [save]. *)
Definition add_recipe (model : RelationModel) (u recipe_id : pk)
  : M BaseUserRecipeRelation :=
  BaseAddRecipeSerializer_validate model u recipe_id ;;
  BaseAddRecipeSerializer_create model u recipe_id.

(** *** [SubscriptionSerializer] *)

Definition SubscriptionSerializer_validate (u author : pk) : M unit :=
  exists_ ← query (λ db, bool_decide
               (Exists (λ row, sub_user row = u ∧ sub_author row = author)
                       (Subscription_objects db)));
  if (exists_ : bool) then raise (AlreadySubscribed author) else
  if decide (u = author) then raise SelfSubscription else
  ret tt.

Definition SubscriptionSerializer_create (u author : pk) : M pk :=
  rows ← query Subscription_objects;
  write (set_Subscription_objects
           (rows ++ [ {| sub_user := u; sub_author := author |} ])) ;;
  ret author.

Definition subscribe (u author : pk) : M pk :=
  SubscriptionSerializer_validate u author ;;
  SubscriptionSerializer_create u author.

(** *** Vocabulary of the properties *)

(** A computation that leaves the store as it found it, whatever it
    returns or raises. *)
Definition readonly {A} (m : M A) : Prop := ∀ db, (m db).2 = db.

(** A computation that leaves the store as it found it when it raises. *)
Definition all_or_nothing {A} (m : M A) : Prop :=
  ∀ db e db', m db = (Raise e, db') → db' = db.

(** The exceptions that come from the database or from a missing key,
    the only ones [create] and [update] raise themselves. *)
Definition from_save (e : Error) : Prop :=
  match e with
  | KeyError _ | IntegrityError _ => True
  | _ => False
  end.

(** The stored line that an entry of [recipe_ingredients] becomes. *)
Definition line_of_data (id : pk) (d : IngredientData) (line : IngredientRecipe)
  : Prop :=
  data_ingredient d = Some (ingredient line) ∧
  data_amount d = Some (amount line) ∧
  recipe line = id.

(** The instance [update] saves: the scalar fields of the validated data,
    each defaulting to the value the instance had. *)
Definition updated_instance (instance : Recipe) (validated_data : Attrs)
  : Recipe :=
  {| recipe_id := recipe_id instance;
     author := author instance;
     name := default (name instance) (attrs_name validated_data);
     text := default (text instance) (attrs_text validated_data);
     cooking_time :=
       default (cooking_time instance) (attrs_cooking_time validated_data);
     image := default (image instance) (attrs_image validated_data) |}.

(** The submission repeats a tag or an ingredient. *)
Definition repeats (attrs : Attrs) : Prop :=
  (∃ tags, attrs_tag attrs = Some tags ∧ ¬ NoDup tags) ∨
  (∃ ingredients, attrs_recipe_ingredients attrs = Some ingredients ∧
                  ¬ NoDup (omap data_ingredient ingredients)).

(** The attributes get as far as the query of [validate] for a recipe of the
    same name: the keys [validate] subscripts are there, and neither the tags
    nor the ingredients are empty. *)
Definition reaches_conflict_check (attrs : Attrs) (name : string)
    (tags : list pk) : Prop :=
  attrs_name attrs = Some name ∧
  attrs_tag attrs = Some tags ∧ tags ≠ [] ∧
  ∃ ingredients,
    attrs_recipe_ingredients attrs = Some ingredients ∧ ingredients ≠ [] ∧
    is_Some (mapM data_ingredient ingredients).

(** The tags and the ingredient lines stored for a recipe. *)
Definition tags_of (db : Store) (id : pk) : list pk :=
  (filter (λ row, row.1 = id) (Recipe_tag db)).*2.

Definition lines_of (db : Store) (id : pk) : list IngredientRecipe :=
  filter (λ line, recipe line = id) (IngredientRecipe_objects db).

(** Invariant 1 of the data model, for one recipe and for the table. *)
Definition complete (db : Store) (id : pk) : Prop :=
  tags_of db id ≠ [] ∧ lines_of db id ≠ [].

Definition all_complete (db : Store) : Prop :=
  ∀ r, r ∈ Recipe_objects db → complete db (recipe_id r).

(** The number of rows of a relation table for one (user, recipe) pair. *)
Definition count_rows (model : RelationModel) (u recipe_id : pk) (db : Store)
  : nat :=
  length (filter (same_user_recipe u recipe_id) (relation_objects model db)).

(** A well-formed submission with the given cooking time and one line with
    the given amount. *)
Definition boundary_attrs (cooking_time amount : Z) : Attrs :=
  {| attrs_name := Some "Borscht";
     attrs_text := Some "Boil.";
     attrs_cooking_time := Some cooking_time;
     attrs_image := Some "recipes/images/borscht.png";
     attrs_tag := Some [1];
     attrs_recipe_ingredients :=
       Some [ {| data_ingredient := Some 1; data_amount := Some amount |} ] |}.

(** Two submissions that differ at most in their cooking times and in the
    amounts of their ingredient entries. *)
Definition same_but_numbers (attrs attrs' : Attrs) : Prop :=
  attrs_name attrs' = attrs_name attrs ∧
  attrs_text attrs' = attrs_text attrs ∧
  attrs_image attrs' = attrs_image attrs ∧
  attrs_tag attrs' = attrs_tag attrs ∧
  ∃ ingredients ingredients',
    attrs_recipe_ingredients attrs = Some ingredients ∧
    attrs_recipe_ingredients attrs' = Some ingredients' ∧
    Forall2 (λ d d', data_ingredient d' = data_ingredient d)
            ingredients ingredients'.

(** The submission carries a cooking time and, in every ingredient entry, an
    amount, all within the bounds of the model validators. *)
Definition numbers_in_bounds (attrs : Attrs) : Prop :=
  (∃ value, attrs_cooking_time attrs = Some value ∧
            MIN_COOKING_TIME ≤ value ≤ MAX_COOKING_TIME) ∧
  ∃ ingredients,
    attrs_recipe_ingredients attrs = Some ingredients ∧
    Forall (λ d, ∃ value, data_amount d = Some value ∧
                          MIN_AMOUNT_INGREDIENT ≤ value ≤ MAX_AMOUNT_INGREDIENT)
           ingredients.

(** The pair (user, author) is stored as a subscription. *)
Definition subscribed (db : Store) (u author : pk) : Prop :=
  Exists (λ row, sub_user row = u ∧ sub_author row = author)
         (Subscription_objects db).

(** *** Sample data *)

(** A store in which user 1 is subscribed to user 2. *)
Definition subscribed_store : Store :=
  {| Ingredient_objects := []; Tag_objects := []; Recipe_objects := [];
     Recipe_tag := []; IngredientRecipe_objects := []; Favorite_objects := [];
     BuyList_objects := [];
     Subscription_objects := [ {| sub_user := 1; sub_author := 2 |} ] |}.

(** A store with two ingredients, two tags and one recipe, "Soup" by user 3,
    tagged 1, with one line. *)
Definition soup : Recipe :=
  {| recipe_id := 1; author := 3; name := "Soup"; text := "Boil.";
     cooking_time := 30; image := "recipes/images/soup.png" |}.

Definition soup_store : Store :=
  {| Ingredient_objects :=
       [ {| ingredient_id := 1; ingredient_name := "Salt"; measurement_unit := "g" |};
         {| ingredient_id := 2; ingredient_name := "Water"; measurement_unit := "ml" |} ];
     Tag_objects := [ breakfast; lunch ];
     Recipe_objects := [ soup ];
     Recipe_tag := [ (1, 1) ];
     IngredientRecipe_objects :=
       [ {| ingredient := 1; recipe := 1; amount := 10 |} ];
     Favorite_objects := [];
     BuyList_objects := [];
     Subscription_objects := [] |}.

(** A submission named "Soup", tagged 1, whose ingredient list is empty. *)
Definition soup_without_ingredients : Attrs :=
  {| attrs_name := Some "Soup";
     attrs_text := Some "Boil.";
     attrs_cooking_time := Some 30;
     attrs_image := Some "recipes/images/soup.png";
     attrs_tag := Some [1];
     attrs_recipe_ingredients := Some [] |}.

(** A submission named "Soup", tagged 1 and 2, with one line of water. *)
Definition soup_again : Attrs :=
  {| attrs_name := Some "Soup";
     attrs_text := Some "Simmer.";
     attrs_cooking_time := Some 45;
     attrs_image := Some "recipes/images/soup2.png";
     attrs_tag := Some [1; 2];
     attrs_recipe_ingredients :=
       Some [ {| data_ingredient := Some 2; data_amount := Some 500 |} ] |}.

(** A submission that lists ingredient 1 twice. *)
Definition salt_twice : Attrs :=
  {| attrs_name := Some "Brine";
     attrs_text := Some "Stir.";
     attrs_cooking_time := Some 5;
     attrs_image := Some "recipes/images/brine.png";
     attrs_tag := Some [1; 2];
     attrs_recipe_ingredients :=
       Some [ {| data_ingredient := Some 1; data_amount := Some 10 |};
              {| data_ingredient := Some 1; data_amount := Some 5 |} ] |}.

(** A [PATCH] that carries a new name, the tags and the ingredients, and no
    other scalar field. *)
Definition rename_to_broth : Attrs :=
  {| attrs_name := Some "Broth";
     attrs_text := None;
     attrs_cooking_time := None;
     attrs_image := None;
     attrs_tag := Some [2];
     attrs_recipe_ingredients :=
       Some [ {| data_ingredient := Some 2; data_amount := Some 500 |} ] |}.

(** *** The read-only fields of the user serializers *)

(** [CustomUserSerializer.get_is_subscribed]:
    [user.is_authenticated and obj.subscribed.filter(user=user).exists()],
    where [obj.subscribed] are the subscriptions whose author is [obj]. *)
Definition CustomUserSerializer_get_is_subscribed (request_user : RequestUser)
    (obj : pk) (db : Store) : bool :=
  match request_user with
  | AnonymousUser => false
  | User id _ => bool_decide (subscribed db id obj)
  end.

(** [SubscriptionSerializer.get_is_subscribed], for the stored user of the
    request. *)
Definition SubscriptionSerializer_get_is_subscribed (u obj : pk) (db : Store)
  : bool :=
  bool_decide (subscribed db u obj).

(** [obj.recipes.all()]: the recipes of the author, newest first (the
    ordering of [Recipe] is [-pub_date], the date is set on insertion and the
    table is in insertion order). *)
Definition recipes_all (obj : pk) (db : Store) : list Recipe :=
  reverse (filter (λ r, author r = obj) (Recipe_objects db)).

Section get_recipes.

(** Python's [int] on the text of the query parameter: the integer, or
    [None] where [int] raises [ValueError]. *)
Variable int : string → option Z.

(** The [recipes_limit] of the context after the [try] block: [None] when
    the parameter is missing, is not an integer or is negative. *)
Definition recipes_limit_of (recipes_limit : option string) : option Z :=
  match recipes_limit with
  | None => None
  | Some text =>
      match int text with
      | Some limit => if decide (limit < 0) then None else Some limit
      | None => None
      end
  end.

(** The database refuses a [LIMIT] that is not a 64-bit signed integer, and
    the exception leaves [get_recipes], whose [try] block is over by then
    and catches [ValueError] alone. *)
Inductive DatabaseError : Type :=
| LimitOutOfRange (limit : Z).

(** [SubscriptionSerializer.get_recipes]: the slice [[:recipes_limit]] of
    the author's recipes ([RecipeRepresentateForSubcribe] then keeps the
    fields id, name, image and cooking_time of each). *)
Definition get_recipes (recipes_limit : option string) (obj : pk) (db : Store)
  : result DatabaseError (list Recipe) :=
  match recipes_limit_of recipes_limit with
  | None => Ok (recipes_all obj db)
  | Some limit =>
      if decide (limit < 2 ^ 63)
      then Ok (take (Z.to_nat limit) (recipes_all obj db))
      else Raise (LimitOutOfRange limit)
  end.

End get_recipes.

(** [SubscriptionSerializer.get_recipes_count]: [obj.recipes.count()]. *)
Definition get_recipes_count (obj : pk) (db : Store) : nat :=
  length (recipes_all obj db).

(** *** Invariants of the tables *)

(** The unique constraint [unique_recipe_ingredient]. *)
Definition unique_recipe_ingredient (db : Store) : Prop :=
  NoDup (recipe_ingredient <$> IngredientRecipe_objects db).

(** The primary key of [Recipe]. *)
Definition unique_recipe_pk (db : Store) : Prop :=
  NoDup (recipe_id <$> Recipe_objects db).

(** The unique constraint on [(user, recipe)] of a relation model. *)
Definition unique_relation (model : RelationModel) (db : Store) : Prop :=
  NoDup (relation_objects model db).

(** Invariant 6 of the data model: no pair is stored twice and nobody is
    subscribed to themselves. *)
Definition subscriptions_consistent (db : Store) : Prop :=
  NoDup (Subscription_objects db) ∧
  Forall (λ row, sub_user row ≠ sub_author row) (Subscription_objects db).

(** The tables a recipe submission has no business with are the same in
    both stores. *)
Definition same_other_tables (db db' : Store) : Prop :=
  Ingredient_objects db' = Ingredient_objects db ∧
  Favorite_objects db' = Favorite_objects db ∧
  BuyList_objects db' = BuyList_objects db ∧
  Subscription_objects db' = Subscription_objects db ∧
  Tag_objects db' = Tag_objects db.

(** Every stored line and every stored tag row belongs to a stored recipe
    (the foreign keys of the two tables). *)
Definition recipe_foreign_keys (db : Store) : Prop :=
  Forall (λ line, recipe line ∈ recipe_id <$> Recipe_objects db)
         (IngredientRecipe_objects db) ∧
  Forall (λ row, row.1 ∈ recipe_id <$> Recipe_objects db) (Recipe_tag db).

(** Every stored line refers to a stored ingredient and every stored tag row
    to a stored tag (the foreign keys to [Ingredient] and to [Tag]). *)
Definition references_stored (db : Store) : Prop :=
  Forall (λ line, ingredient line ∈ ingredient_id <$> Ingredient_objects db)
         (IngredientRecipe_objects db) ∧
  Forall (λ row, row.2 ∈ tag_id <$> Tag_objects db) (Recipe_tag db).

End serializers.

(** ** [api/permissions.py] *)

Module permissions.

(** [rest_framework.permissions.SAFE_METHODS] *)
Definition SAFE_METHODS : list string := ["GET"; "HEAD"; "OPTIONS"].

(** [rest_framework.exceptions.MethodNotAllowed] *)
Inductive Exception : Type :=
| MethodNotAllowed (method : string).

Record Request : Type := {
  method : string;
  user : RequestUser;
}.

(** [IsAuthenticatedOrReadOnly.has_permission] of the framework, the [super]
    of [IsAuthorOrReadOnly]: a safe method, or an authenticated user. *)
Definition IsAuthenticatedOrReadOnly_has_permission (request : Request) : bool :=
  bool_decide (method request ∈ SAFE_METHODS) || is_authenticated (user request).

Definition IsAuthorOrReadOnly_has_permission (request : Request)
  : result Exception bool :=
  if decide (method request = "PUT")
  then Raise (MethodNotAllowed (method request))
  else Ok (IsAuthenticatedOrReadOnly_has_permission request).

(** [any((a, b, c))] *)
Definition any (xs : list bool) : bool := foldr orb false xs.

Definition IsAuthorOrReadOnly_has_object_permission (request : Request)
    (obj : Recipe) : bool :=
  any [ bool_decide (method request ∈ SAFE_METHODS);
        user_eq (user request) (author obj);
        is_superuser (user request) ].

(** [CustomUserPermission.has_permission]; [action] is [view.action]. *)
Definition CustomUserPermission_has_permission (request : Request)
    (action : string) : result Exception bool :=
  let is_safe_method := bool_decide (method request ∈ SAFE_METHODS) in
  if negb is_safe_method then Raise (MethodNotAllowed (method request))
  else if decide (action = "me") then Ok (is_authenticated (user request))
  else Ok true.

(** [CustomUserPermission.has_object_permission]; [obj] is a stored user. *)
Definition CustomUserPermission_has_object_permission (request : Request)
    (action : string) (obj : pk) : result Exception bool :=
  let is_safe_method := bool_decide (method request ∈ SAFE_METHODS) in
  if negb is_safe_method then Raise (MethodNotAllowed (method request))
  else if decide (action = "me") then Ok (user_eq (user request) obj)
  else Ok true.

(** What the two checks of [IsAuthorOrReadOnly] let through: the view runs
    [has_permission] first and [has_object_permission] on the recipe after
    it. *)
Definition IsAuthorOrReadOnly_allows (request : Request) (obj : Recipe) : Prop :=
  IsAuthorOrReadOnly_has_permission request = Ok true ∧
  IsAuthorOrReadOnly_has_object_permission request obj = true.

End permissions.

(** ** [recipes/management/commands/parse_json.py] *)

Module parse_json.
Import serializers.

(** One object of the JSON array, with the two keys the command reads. *)
Record Item : Type := {
  item_name : option string;
  item_measurement_unit : option string;
}.

(** The columns under [unique_ingredient_measurement_units]. *)
Definition name_unit (i : Ingredient) : string * string :=
  (ingredient_name i, measurement_unit i).

(** The primary keys the database gives to the rows of a batch: above every
    key of the table, in the order of the batch. *)
Definition next_ingredient_pk (rows : list Ingredient) : pk :=
  1 + foldr Z.max 0 (ingredient_id <$> rows).

Fixpoint with_pks (next : pk) (objs : list (string * string)) : list Ingredient :=
  match objs with
  | [] => []
  | (name, unit) :: objs' =>
      {| ingredient_id := next; ingredient_name := name;
         measurement_unit := unit |} :: with_pks (next + 1) objs'
  end.

(** [Ingredient.objects.bulk_create(objects_to_create)]: one insertion,
    refused as a whole when a [(name, measurement_unit)] pair of the batch is
    already stored or occurs twice in it. *)
Definition Ingredient_bulk_create (objs : list (string * string)) : M unit :=
  rows ← query Ingredient_objects;
  if decide (NoDup objs ∧ Forall (λ o, o ∉ name_unit <$> rows) objs)
  then write (set_Ingredient_objects
                (rows ++ with_pks (next_ingredient_pk rows) objs))
  else raise (IntegrityError "unique_ingredient_measurement_units").

(** [Command.handle], from the parsed content of the file on (the messages
    written to [stdout] are left out). *)
Definition handle (data : list Item) : M unit :=
  objects_to_create ←
    comprehension
      (λ item,
         name ← getitem "name" (item_name item);
         measurement_unit ←
           getitem "measurement_unit" (item_measurement_unit item);
         ret (name, measurement_unit))
      data;
  Ingredient_bulk_create objects_to_create.

(** The unique constraint and the primary key of [Ingredient]. *)
Definition unique_ingredients (db : Store) : Prop :=
  NoDup (name_unit <$> Ingredient_objects db) ∧
  NoDup (ingredient_id <$> Ingredient_objects db).

(** The (name, unit) pairs of a file whose objects all have both keys. *)
Definition pairs_of (data : list Item) : option (list (string * string)) :=
  mapM (λ item, name ← item_name item;
                unit ← item_measurement_unit item;
                Some (name, unit)) data.

(** A file with two ingredients. *)
Definition two_ingredients : list Item :=
  [ {| item_name := Some "Salt"; item_measurement_unit := Some "g" |};
    {| item_name := Some "Water"; item_measurement_unit := Some "ml" |} ].

End parse_json.

(** ** [Base64ImageField] of [api/serializers.py] *)

Module fields.

(** What the field is given and what it hands on: a text, or a file with
    its content and its name ([ContentFile(decoded_image, name=file_name)],
    or an upload). *)
Inductive Data : Type :=
| Str (text : string)
| File (content : string) (name : string).

(** [serializers.ValidationError('Invalid base64 format')] is [Invalid]; the
    other exceptions are those of the [ImageField] the class extends. *)
Inductive ValidationError : Type :=
| Invalid_base64_format
| ImageField_error (message : string).

(** [text.split(sep)] for a separator that is not empty: the pieces between
    the occurrences of [sep], found from the left and not overlapping.
    [skip] counts the characters of an occurrence still to be passed over,
    [piece] is the piece read so far. *)
Fixpoint split_from (sep : string) (skip : nat) (piece text : string)
  : list string :=
  match text with
  | EmptyString => [piece]
  | String c text' =>
      match skip with
      | S skip' => split_from sep skip' piece text'
      | O =>
          if String.prefix sep text
          then piece :: split_from sep (String.length sep - 1) EmptyString text'
          else split_from sep 0 (piece +:+ String c EmptyString) text'
      end
  end.

Definition split (sep text : string) : list string :=
  split_from sep 0 EmptyString text.

Section to_internal_value.

(** [base64.b64decode] of the standard library: the decoded bytes, or [None]
    where it raises [binascii.Error] or [ValueError], both caught below. *)
Variable b64decode : string → option string.

(** [ImageField.to_internal_value], the [super] of the class. *)
Variable ImageField_to_internal_value : Data → result ValidationError Data.

Definition to_internal_value (data : Data) : result ValidationError Data :=
  match data with
  | Str text =>
      if String.prefix "data:image" text
      then
        match split ";base64," text with
        | [image_type; image_data] =>
            let image_extension := List.last (split "/" image_type) EmptyString in
            match b64decode image_data with
            | Some decoded_image =>
                let file_name := "image." +:+ image_extension in
                ImageField_to_internal_value (File decoded_image file_name)
            | None => Raise Invalid_base64_format
            end
        | _ => Raise Invalid_base64_format
        end
      else ImageField_to_internal_value data
  | File _ _ => ImageField_to_internal_value data
  end.

End to_internal_value.

(** The character occurs in the text. *)
Fixpoint occurs (c : ascii) (text : string) : Prop :=
  match text with
  | EmptyString => False
  | String c' text' => c' = c ∨ occurs c text'
  end.

(** The text is [before ++ sep ++ after] for some [before] and [after]. *)
Definition contains (sep text : string) : Prop :=
  ∃ before after, text = before +:+ sep +:+ after.

End fields.

(** ** Vocabulary and sample data of the further properties *)

Module examples.
Import serializers.

(** The sum of the amounts of a list of rows. *)
Definition total_amount (rows : list utils.Row) : Z := foldr Z.add 0 rows.*2.

(** The amounts of the stored lines are between [lo] and [hi]. *)
Definition amounts_in_bounds (lo hi : Z) (db : Store) : Prop :=
  Forall (λ line, lo ≤ amount line ≤ hi) (IngredientRecipe_objects db).

(** The pair is stored in the table of the relation model. *)
Definition pair_stored (model : RelationModel) (u recipe_id : pk) (db : Store)
  : Prop :=
  Exists (same_user_recipe u recipe_id) (relation_objects model db).

(** A recipe with this primary key is stored. *)
Definition recipe_known (recipe_id : pk) (db : Store) : Prop :=
  Exists (λ r, models.recipe_id r = recipe_id) (Recipe_objects db).

(** The stored lines of a list of [recipe_ingredients] entries, when each
    entry has both keys. *)
Definition lines_of_data (id : pk) (data : list IngredientData)
  : option (list IngredientRecipe) :=
  mapM (λ d, ingredient ← data_ingredient d;
             amount ← data_amount d;
             Some {| ingredient := ingredient; recipe := id; amount := amount |})
       data.

(** The condition under which [bulk_create] accepts a batch. *)
Definition accepted_batch (rows lines : list IngredientRecipe) : Prop :=
  NoDup (recipe_ingredient <$> lines) ∧
  Forall (λ o, recipe_ingredient o ∉ recipe_ingredient <$> rows) lines.

(** The store a successful [create] leaves: the writes of its body, in
    order. *)
Definition created_store (r : Recipe) (tags : list pk)
    (lines : list IngredientRecipe) (db : Store) : Store :=
  (tag_set r tags
     (set_IngredientRecipe_objects (IngredientRecipe_objects db ++ lines)
        (set_Recipe_objects (Recipe_objects db ++ [r]) db))).2.

(** The store a successful [update] leaves: the writes of its body, in
    order. *)
Definition updated_store (r : Recipe) (tags : list pk)
    (lines : list IngredientRecipe) (db : Store) : Store :=
  let db1 := (save r db).2 in
  let db2 := (tag_set r tags db1).2 in
  let db3 := (recipe_ingredients_delete r db2).2 in
  set_IngredientRecipe_objects (IngredientRecipe_objects db3 ++ lines) db3.

(** The unique constraint of the table behind [Recipe.tag]. *)
Definition unique_recipe_tag (db : Store) : Prop := NoDup (Recipe_tag db).

(** The lines of the shopping list of a user that follow the header. *)
Definition shopping_lines (db : Store) (u : pk) : list string :=
  utils.format_line <$> utils.annotate_Sum (utils.cart_rows db u).

(** [utils.salt_store] with its ingredient lines stored in the other order,
    and a cart row of another user. *)
Definition salt_store_shuffled : Store :=
  set_relation_objects BuyList
    (BuyList_objects utils.salt_store ++ [ {| rel_user := 9; rel_recipe := 1 |} ])
    (set_IngredientRecipe_objects
       (reverse (IngredientRecipe_objects utils.salt_store)) utils.salt_store).

End examples.

(** * Properties *)

(** ** [validate_unique_for_list] *)

Section validators_theory.
Context {A : Type} `{Countable A}.
Import validators.

Lemma for_elem_in_ok name (data : list A) (temp : gset A) :
  for_elem_in name data temp = Ok tt ↔
  NoDup data ∧ ∀ x, x ∈ data → x ∉ temp.
Proof.
  revert temp. induction data as [|a data IH]; intros temp; simpl.
  - split; [intros _; split; [constructor | set_solver] | done].
  - destruct (decide (a ∈ temp)) as [Hin|Hnin].
    + split; [done | intros [_ Hd]; exfalso; apply (Hd a); set_solver].
    + rewrite IH, NoDup_cons. split.
      * intros [Hnd Hd]. repeat split; [set_solver | done | set_solver].
      * intros [[Ha Hnd] Hd]. split; [done | set_solver].
Qed.

Lemma for_elem_in_raise name (data : list A) (temp : gset A) n (x : A) :
  for_elem_in name data temp = Raise (RepeatedElement n x) ↔
  n = name ∧ ∃ pre post, data = pre ++ x :: post ∧ NoDup pre ∧
    (∀ y, y ∈ pre → y ∉ temp) ∧ (x ∈ pre ∨ x ∈ temp).
Proof.
  revert temp. induction data as [|a data IH]; intros temp; simpl.
  - split; [done | intros [_ (pre & post & Hd & _)]; by destruct pre].
  - destruct (decide (a ∈ temp)) as [Hin|Hnin].
    + split.
      * intros [= <- <-]. split; [done|]. exists [], data.
        repeat split; [constructor | set_solver | by right].
      * intros [-> (pre & post & Hd & Hnd & Hfresh & Hx)].
        destruct pre as [|b pre]; simplify_eq/=; [done|].
        exfalso. apply (Hfresh b); set_solver.
    + rewrite IH. split.
      * intros [-> (pre & post & -> & Hnd & Hfresh & Hx)]. split; [done|].
        exists (a :: pre), post. repeat split.
        -- apply NoDup_cons. split; [set_solver | done].
        -- intros y [->|Hy]%elem_of_cons; [done | set_solver].
        -- set_solver.
      * intros [-> (pre & post & Hd & Hnd & Hfresh & Hx)]. split; [done|].
        destruct pre as [|b pre]; simplify_eq/=.
        { destruct Hx as [Hx|Hx]; [set_solver | done]. }
        apply NoDup_cons in Hnd as [Hb Hnd].
        exists pre, post. repeat split; [done | | ].
        -- intros y Hy. assert (y ≠ b) by (intros ->; done).
           assert (y ∉ temp) by (apply Hfresh; set_solver). set_solver.
        -- destruct Hx as [[->|Hx]%elem_of_cons|Hx]; set_solver.
Qed.

Lemma validate_unique_for_list_Ok name (data : list A) :
  validate_unique_for_list name data = Ok tt ↔ NoDup data.
Proof.
  unfold validate_unique_for_list. rewrite for_elem_in_ok. set_solver.
Qed.

Lemma validate_unique_for_list_Raise name (data : list A) n (x : A) :
  validate_unique_for_list name data = Raise (RepeatedElement n x) ↔
  n = name ∧ first_repeated data x.
Proof.
  unfold validate_unique_for_list, first_repeated.
  rewrite for_elem_in_raise. split.
  - intros [-> (pre & post & -> & Hnd & _ & [Hx|Hx])]; [|set_solver].
    split; [done|]. by exists pre, post.
  - intros [-> (pre & post & -> & Hnd & Hx)]. split; [done|].
    exists pre, post. repeat split; [done | set_solver | by left].
Qed.

End validators_theory.

(** C3. [validate_unique_for_list] walks its input from the left and stops at
    the first element that already occurred: it returns normally exactly on
    the sequences without repetition, and it raises exactly on the others,
    the exception naming the field label and the first repeated element
    (what follows that element is never looked at). The function has no
    access to the store, and a serializer that calls it gets its store back
    as it was, whether the call raises or not. *)
Theorem validate_unique_for_list_fails_fast
    {A : Type} `{Countable A} (name : string) (data : list A) :
  (validators.validate_unique_for_list name data = Ok tt ↔ NoDup data) ∧
  (∀ n x,
     validators.validate_unique_for_list name data
       = Raise (validators.RepeatedElement n x) ↔
     n = name ∧ validators.first_repeated data x) ∧
  (∀ (ids : list pk) (db : Store),
     (serializers.call_validator
        (validators.validate_unique_for_list name ids) db).2 = db).
Proof.
  split; [|split].
  - apply validate_unique_for_list_Ok.
  - intros n x. apply validate_unique_for_list_Raise.
  - intros ids db.
    by destruct (validators.validate_unique_for_list name ids) as [[]|[n x]].
Qed.

(** On [3; 1; 4; 1; 4] the scan stops at the second [1]. *)
Example validate_unique_for_list_31414 :
  validators.validate_unique_for_list "Теги" [3; 1; 4; 1; 4]
  = Raise (validators.RepeatedElement "Теги" 1).
Proof. vm_compute. reflexivity. Qed.

(** ** The shopping list *)

Section utils_theory.
Import utils.

Implicit Types (key k : string * string) (groups rows : list Row).

Lemma Sum_amount_nil k : Sum_amount k [] = 0.
Proof. reflexivity. Qed.

Lemma Sum_amount_cons k row rows :
  Sum_amount k (row :: rows)
  = (if decide (row.1 = k) then row.2 else 0) + Sum_amount k rows.
Proof.
  unfold Sum_amount. rewrite filter_cons.
  destruct (decide (row.1 = k)); [by rewrite fmap_cons | by rewrite Z.add_0_l].
Qed.

Lemma Sum_amount_absent k rows : k ∉ rows.*1 → Sum_amount k rows = 0.
Proof.
  induction rows as [|row rows IH]; [done|].
  rewrite fmap_cons, not_elem_of_cons, Sum_amount_cons.
  intros [Hne Hnin]. rewrite IH by done.
  destruct (decide (row.1 = k)); [congruence | lia].
Qed.

Lemma add_to_group_keys key a groups :
  (add_to_group key a groups).*1
  = if decide (key ∈ groups.*1) then groups.*1 else groups.*1 ++ [key].
Proof.
  induction groups as [|[k total] groups IH]; [done|].
  cbn [add_to_group]. rewrite fmap_cons. cbn [fst].
  destruct (decide (k = key)) as [->|Hne]; rewrite fmap_cons; cbn [fst].
  - rewrite decide_True; [done | left].
  - rewrite IH. destruct (decide (key ∈ groups.*1)) as [Hin|Hnin].
    + rewrite decide_True; [done | by right].
    + rewrite decide_False; [done|].
      rewrite not_elem_of_cons. split; [congruence | done].
Qed.

Lemma add_to_group_Sum key a groups k :
  Sum_amount k (add_to_group key a groups)
  = Sum_amount k groups + (if decide (key = k) then a else 0).
Proof.
  induction groups as [|[k' total] groups IH]; simpl.
  - rewrite Sum_amount_cons, !Sum_amount_nil. simpl.
    repeat case_decide; simplify_eq/=; lia.
  - destruct (decide (k' = key)) as [->|Hne].
    + rewrite !Sum_amount_cons. simpl.
      repeat case_decide; simplify_eq/=; lia.
    + rewrite !Sum_amount_cons, IH. simpl.
      repeat case_decide; simplify_eq/=; lia.
Qed.

Lemma add_to_group_NoDup key a groups :
  NoDup groups.*1 → NoDup (add_to_group key a groups).*1.
Proof.
  intros Hnd. rewrite add_to_group_keys.
  destruct (decide (key ∈ groups.*1)); [done|].
  apply NoDup_app. repeat split; [done | | apply NoDup_singleton].
  intros x Hx ->%list_elem_of_singleton. done.
Qed.

(** The loop of [annotate_Sum], started from any list of groups. *)
Lemma foldl_add_to_group rows groups :
  let result := foldl (λ groups row, add_to_group row.1 row.2 groups) groups rows in
  (NoDup groups.*1 → NoDup result.*1) ∧
  (∀ k, k ∈ result.*1 ↔ k ∈ groups.*1 ∨ k ∈ rows.*1) ∧
  (∀ k, Sum_amount k result = Sum_amount k groups + Sum_amount k rows).
Proof.
  revert groups. induction rows as [|row rows IH]; intros groups; simpl.
  - split; [done | split; intros k]; [set_solver|].
    rewrite Sum_amount_nil. lia.
  - destruct (IH (add_to_group row.1 row.2 groups)) as (IH1 & IH2 & IH3).
    split; [|split; intros k].
    + intros Hnd. by apply IH1, add_to_group_NoDup.
    + rewrite IH2, add_to_group_keys.
      destruct (decide (row.1 ∈ groups.*1)); set_solver.
    + rewrite IH3, add_to_group_Sum, Sum_amount_cons.
      repeat case_decide; simplify_eq/=; lia.
Qed.

Lemma Sum_amount_NoDup k total groups :
  NoDup groups.*1 → (k, total) ∈ groups → Sum_amount k groups = total.
Proof.
  induction groups as [|[k' t'] groups IH]; [by intros _ ?%elem_of_nil|].
  rewrite fmap_cons, NoDup_cons, Sum_amount_cons. simpl.
  intros [Hnin Hnd] [[= -> ->]|Hin]%elem_of_cons.
  - rewrite decide_True by done. rewrite Sum_amount_absent by done. lia.
  - rewrite IH by done. rewrite decide_False; [lia|].
    intros ->. apply Hnin. apply list_elem_of_fmap. by exists (k, total).
Qed.

Lemma annotate_Sum_spec rows :
  NoDup (annotate_Sum rows).*1 ∧
  (∀ k, k ∈ (annotate_Sum rows).*1 ↔ k ∈ rows.*1) ∧
  (∀ k total, (k, total) ∈ annotate_Sum rows → total = Sum_amount k rows).
Proof.
  destruct (foldl_add_to_group rows []) as (H1 & H2 & H3).
  fold (annotate_Sum rows) in H1, H2, H3.
  assert (NoDup (annotate_Sum rows).*1) as Hnd by (apply H1; constructor).
  repeat split; [done | | | ].
  - intros Hk. apply H2 in Hk as [Hk|Hk]; [by apply elem_of_nil in Hk | done].
  - intros Hk. apply H2. by right.
  - intros k total Hin. rewrite <- (Sum_amount_NoDup k total _ Hnd Hin).
    rewrite H3, Sum_amount_nil. lia.
Qed.

Lemma string_app_assoc (s1 s2 s3 : string) :
  (s1 +:+ s2) +:+ s3 = s1 +:+ (s2 +:+ s3).
Proof.
  induction s1 as [|c s1 IH]; [done|].
  change (String c ((s1 +:+ s2) +:+ s3) = String c (s1 +:+ (s2 +:+ s3))).
  by rewrite IH.
Qed.

Lemma format_line_spec (row : Row) :
  format_line row = row.1.1 +:+ " (" +:+ row.1.2 +:+ ") — " +:+ pretty row.2.
Proof.
  unfold format_line. by rewrite !string_app_assoc.
Qed.

Lemma filter_unique_cart_row (rows : list BaseUserRecipeRelation) (u r : pk) :
  NoDup rows →
  filter (λ b, rel_user b = u ∧ rel_recipe b = r) rows
  = if decide (Exists (λ b, rel_user b = u ∧ rel_recipe b = r) rows)
    then [ {| rel_user := u; rel_recipe := r |} ] else [].
Proof.
  induction rows as [|b rows IH]; [done|].
  rewrite NoDup_cons. intros [Hnin Hnd]. rewrite filter_cons, IH by done.
  destruct (decide (rel_user b = u ∧ rel_recipe b = r)) as [[Hu Hr]|Hno].
  - rewrite (decide_True (P := Exists _ (b :: rows)))
      by (apply Exists_cons; by left).
    destruct b as [bu br]; simpl in *; subst.
    rewrite decide_False; [done|].
    intros ([bu br] & Hin & Hu & Hr)%Exists_exists. simpl in *. by subst.
  - destruct (decide (Exists _ rows)) as [Hex|Hnex].
    + rewrite decide_True; [done | apply Exists_cons; by right].
    + rewrite decide_False; [done|].
      by intros [?|?]%Exists_cons.
Qed.

(** Under the unique constraint of [BuyList] the join keeps each line of a
    cart recipe once, in the order of the table. *)
Lemma filter_recipe__buylist__user_unique db u :
  NoDup (BuyList_objects db) →
  filter_recipe__buylist__user db u
  = filter (in_cart db u) (IngredientRecipe_objects db).
Proof.
  intros Hnd. unfold filter_recipe__buylist__user, in_cart.
  induction (IngredientRecipe_objects db) as [|line lines IH]; [done|].
  rewrite bind_cons, IH, filter_cons, filter_unique_cart_row by done.
  by repeat case_decide.
Qed.

Lemma filter_recipe__buylist__user_empty db u :
  cart_empty db u → filter_recipe__buylist__user db u = [].
Proof.
  unfold cart_empty, filter_recipe__buylist__user. intros Hempty.
  assert (∀ r, filter (λ b, rel_user b = u ∧ rel_recipe b = r)
                      (BuyList_objects db) = []) as Hnone.
  { intros r. induction Hempty as [|b rows Hb _ IH]; [done|].
    rewrite filter_cons, decide_False; [done | by intros []]. }
  induction (IngredientRecipe_objects db) as [|line lines IH]; [done|].
  by rewrite bind_cons, IH, Hnone.
Qed.

End utils_theory.

(** C1. The shopping list of a user is the header line followed by one line
    per group of the rows of the cart, where the rows are grouped by
    (ingredient name, measurement unit): no key has two groups, every key of
    a row has its group, the amount of a group is the sum of the amounts of
    the rows with its key, and a group is written as the name, a space, the
    unit in parentheses, the em-dash between two spaces and the amount in
    decimal; the lines are joined by line feeds. When no (user, recipe) pair
    is twice in the cart, the rows are the ingredient lines of the recipes of
    the cart, each taken once. The header line is the source's literal,
    "Список покупок:"; for a cart holding Salt/g 10 and Salt/g 5 the text is
    that header, a line feed and "Salt (g) — 15". *)
Theorem get_ingredients_for_download_groups_and_sums :
  (∀ (db : Store) (u : pk),
     ∃ groups : list utils.Row,
       utils.get_ingredients_for_download db u
       = String.concat utils.LF
           ("Список покупок:" ::
            ((λ g, g.1.1 +:+ " (" +:+ g.1.2 +:+ ") — " +:+ pretty g.2) <$> groups)) ∧
       NoDup groups.*1 ∧
       (∀ key, key ∈ groups.*1 ↔ key ∈ (utils.cart_rows db u).*1) ∧
       (∀ key total, (key, total) ∈ groups →
                     total = utils.Sum_amount key (utils.cart_rows db u)) ∧
       (NoDup (BuyList_objects db) →
        utils.cart_rows db u
        = utils.values db (filter (utils.in_cart db u) (IngredientRecipe_objects db)))) ∧
  utils.get_ingredients_for_download utils.salt_store 7
  = "Список покупок:" +:+ utils.LF +:+ "Salt (g) — 15".
Proof.
  split; [|by vm_compute].
  intros db u. exists (utils.annotate_Sum (utils.cart_rows db u)).
  destruct (annotate_Sum_spec (utils.cart_rows db u)) as (Hnd & Hkeys & Hsum).
  split; [|split; [done | split; [done | split; [done|]]]].
  - rewrite <- (list_fmap_ext utils.format_line _ _
                  (λ _ row _, format_line_spec row)).
    reflexivity.
  - intros Hcart. unfold utils.cart_rows.
    by rewrite filter_recipe__buylist__user_unique.
Qed.

(** C1, as the spec words it: the text of the example does not start with the
    line "Shopping list:". *)
Lemma get_ingredients_for_download_header_not_english :
  utils.get_ingredients_for_download utils.salt_store 7
  ≠ "Shopping list:" +:+ utils.LF +:+ "Salt (g) — 15".
Proof. by vm_compute. Qed.

(** C9. For a user whose cart is empty the shopping list is the header line
    alone, with no line feed after it; the header is the source's literal,
    "Список покупок:". *)
Theorem get_ingredients_for_download_empty_cart (db : Store) (u : pk) :
  utils.cart_empty db u →
  utils.get_ingredients_for_download db u = "Список покупок:".
Proof.
  intros Hempty. unfold utils.get_ingredients_for_download.
  by rewrite filter_recipe__buylist__user_empty.
Qed.

Lemma get_ingredients_for_download_empty_cart_witness :
  utils.cart_empty utils.salt_store 8 ∧
  utils.get_ingredients_for_download utils.salt_store 8 = "Список покупок:".
Proof.
  assert (utils.cart_empty utils.salt_store 8) as Hempty.
  { unfold utils.cart_empty. simpl. repeat constructor; simpl; lia. }
  split; [exact Hempty|].
  exact (get_ingredients_for_download_empty_cart utils.salt_store 8 Hempty).
Defined.

(** C9, as the spec words it: on the empty database the result is not the
    line "Shopping list:". *)
Lemma get_ingredients_for_download_empty_not_english :
  utils.get_ingredients_for_download empty_store 1 ≠ "Shopping list:".
Proof. by vm_compute. Qed.

(** ** The serializers *)

Section monad_theory.
Import serializers.
Context {A B : Type}.
Implicit Types (m : M A) (f : A → M B) (db : Store).

Lemma bind_unfold m f db :
  (m ≫= f) db = match m db with
                | (Ok a, db') => f a db'
                | (Raise e, db') => (Raise e, db')
                end.
Proof. reflexivity. Qed.

Lemma bind_readonly m f db :
  readonly m →
  (m ≫= f) db = match (m db).1 with
                | Ok a => f a db
                | Raise e => (Raise e, db)
                end.
Proof.
  intros Hm. rewrite bind_unfold. specialize (Hm db).
  destruct (m db) as [[a|e] db']; simpl in *; by subst.
Qed.

Lemma readonly_bind m f :
  readonly m → (∀ a, readonly (f a)) → readonly (m ≫= f).
Proof.
  intros Hm Hf db. rewrite bind_readonly by done.
  destruct (m db).1; [apply Hf | done].
Qed.

Lemma all_or_nothing_bind m f :
  readonly m → (∀ a, all_or_nothing (f a)) → all_or_nothing (m ≫= f).
Proof.
  intros Hm Hf db e db'. rewrite bind_readonly by done.
  destruct (m db).1; [apply Hf | by intros [= _ <-]].
Qed.

End monad_theory.

Section readonly_theory.
Import serializers.

Lemma readonly_ret {A} (a : A) : readonly (ret a).
Proof. done. Qed.

Lemma readonly_raise {A} e : readonly (raise (A := A) e).
Proof. done. Qed.

Lemma readonly_query {A} (q : Store → A) : readonly (query q).
Proof. done. Qed.

Lemma readonly_getitem {A} key (value : option A) : readonly (getitem key value).
Proof. by destruct value. Qed.

Lemma readonly_call_validator r : readonly (call_validator r).
Proof. by destruct r as [[]|[]]. Qed.

Lemma readonly_all_or_nothing {A} (m : M A) : readonly m → all_or_nothing m.
Proof. intros Hm db e db' Heq. specialize (Hm db). by rewrite Heq in Hm. Qed.

Lemma all_or_nothing_atomic {A} (block : M A) : all_or_nothing (atomic block).
Proof.
  intros db e db'. unfold atomic.
  destruct (block db) as [[a|e'] db'']; [done | by intros [= _ <-]].
Qed.

(** A comprehension over [getitem] is [mapM] on the options. *)
Lemma comprehension_getitem {A B} key (f : A → option B) (l : list A) db :
  comprehension (λ x, getitem key (f x)) l db
  = (match mapM f l with
     | Some ys => Ok ys
     | None => Raise (KeyError key)
     end, db).
Proof.
  induction l as [|x l IH]; [done|].
  cbn [comprehension]. rewrite bind_unfold.
  destruct (f x) as [y|] eqn:Hy; simpl; rewrite Hy; simpl; [|done].
  rewrite bind_unfold, IH. by destruct (mapM f l).
Qed.

End readonly_theory.

Section validate_theory.
Import serializers.

(** [validate] written out as one expression over the store it reads. *)
Lemma validate_eq author method attrs db :
  validate author method attrs db
  = (match attrs_name attrs with
     | None => Raise (KeyError "name")
     | Some name =>
     match attrs_recipe_ingredients attrs with
     | None => Raise (KeyError "recipe_ingredients")
     | Some ingredients =>
     match mapM data_ingredient ingredients with
     | None => Raise (KeyError "ingredient")
     | Some ingredients_obj =>
       if not_ (attrs_tag attrs) then Raise TagsRequired else
       if not_ (Some ingredients) then Raise IngredientsRequired else
       if bool_decide (method = "POST" ∧
            Recipe_filter_exists db name author (default [] (attrs_tag attrs)))
       then Raise RecipeAlreadyExists else
       match validators.validate_unique_for_list "Теги"
               (default [] (attrs_tag attrs)) with
       | Raise (validators.RepeatedElement n x) => Raise (RepeatedElement n x)
       | Ok _ =>
       match validators.validate_unique_for_list "Ингредиенты"
               ingredients_obj with
       | Raise (validators.RepeatedElement n x) => Raise (RepeatedElement n x)
       | Ok _ => Ok attrs
       end end end end end, db).
Proof.
  unfold validate. rewrite bind_unfold.
  destruct (attrs_name attrs) as [name|]; [|done]. simpl.
  rewrite bind_unfold.
  destruct (attrs_recipe_ingredients attrs) as [ingredients|]; [|done]. simpl.
  rewrite bind_unfold, comprehension_getitem.
  destruct (mapM data_ingredient ingredients) as [ids|]; [|done].
  destruct (not_ (attrs_tag attrs)); [done|].
  destruct ingredients as [|d ingredients]; [done|]. cbn [not_].
  rewrite bind_unfold. cbn [query].
  destruct (bool_decide _); [done|].
  rewrite bind_unfold.
  destruct (validators.validate_unique_for_list _ (default [] _)) as [[]|[n x]];
    [|done]. cbn [call_validator ret].
  rewrite bind_unfold.
  by destruct (validators.validate_unique_for_list _ ids) as [[]|[n x]].
Qed.

Lemma readonly_validate author method attrs :
  readonly (validate author method attrs).
Proof. intros db. by rewrite validate_eq. Qed.

Lemma run_validation_eq author method attrs db :
  run_validation author method attrs db
  = if decide (field_errors (partial method) db attrs = [])
    then validate author method attrs db
    else (Raise (FieldErrors (field_errors (partial method) db attrs)), db).
Proof.
  unfold run_validation. rewrite bind_unfold. cbn [query]. by case_decide.
Qed.

Lemma readonly_run_validation author method attrs :
  readonly (run_validation author method attrs).
Proof.
  intros db. rewrite run_validation_eq.
  case_decide; [apply readonly_validate | done].
Qed.

(** The attributes [validate] returns, and when it returns. *)
Lemma validate_Ok author method attrs db validated_data :
  (validate author method attrs db).1 = Ok validated_data ↔
  validated_data = attrs ∧
  ∃ name tags ingredients ingredients_obj,
    attrs_name attrs = Some name ∧
    attrs_tag attrs = Some tags ∧ tags ≠ [] ∧ NoDup tags ∧
    attrs_recipe_ingredients attrs = Some ingredients ∧ ingredients ≠ [] ∧
    mapM data_ingredient ingredients = Some ingredients_obj ∧
    NoDup ingredients_obj ∧
    ¬ (method = "POST" ∧ Recipe_filter_exists db name author tags).
Proof.
  rewrite validate_eq. cbn [fst]. split.
  - intros Hok.
    destruct (attrs_name attrs) as [name|]; [|done].
    destruct (attrs_recipe_ingredients attrs) as [ingredients|]; [|done].
    destruct (mapM data_ingredient ingredients) as [ids|] eqn:Hmap; [|done].
    destruct (attrs_tag attrs) as [[|t tags]|]; try done. cbn [not_] in Hok.
    destruct ingredients as [|d ingredients]; [done|]. cbn [not_] in Hok.
    case_bool_decide as Hexists; [done|]. simpl in Hok, Hexists.
    destruct (validators.validate_unique_for_list _ (t :: tags))
      as [[]|[n x]] eqn:Htags; [|done].
    destruct (validators.validate_unique_for_list _ ids)
      as [[]|[n x]] eqn:Hids; [|done].
    injection Hok as <-.
    apply validate_unique_for_list_Ok in Htags.
    apply validate_unique_for_list_Ok in Hids.
    split; [done|].
    exists name, (t :: tags), (d :: ingredients), ids. by repeat split.
  - intros (-> & name & tags & ingredients & ids & -> & -> & Hne & Hnd
            & -> & Hne' & -> & Hnd' & Hfree).
    destruct tags as [|t tags]; [done|].
    destruct ingredients as [|d ingredients]; [done|]. cbn [not_ default].
    rewrite bool_decide_eq_false_2 by done.
    rewrite (proj2 (validate_unique_for_list_Ok "Теги" (t :: tags)) Hnd).
    by rewrite (proj2 (validate_unique_for_list_Ok "Ингредиенты" ids) Hnd').
Qed.

(** What a submission that passes [run_validation] looks like. *)
Lemma run_validation_Ok author method attrs db validated_data :
  (run_validation author method attrs db).1 = Ok validated_data ↔
  validated_data = attrs ∧
  field_errors (partial method) db attrs = [] ∧
  ∃ name tags ingredients ingredients_obj,
    attrs_name attrs = Some name ∧
    attrs_tag attrs = Some tags ∧ tags ≠ [] ∧ NoDup tags ∧
    attrs_recipe_ingredients attrs = Some ingredients ∧ ingredients ≠ [] ∧
    mapM data_ingredient ingredients = Some ingredients_obj ∧
    NoDup ingredients_obj ∧
    ¬ (method = "POST" ∧ Recipe_filter_exists db name author tags).
Proof.
  rewrite run_validation_eq. case_decide as Hfield.
  - rewrite validate_Ok. naive_solver.
  - cbn [fst]. naive_solver.
Qed.

End validate_theory.

Section save_theory.
Import serializers.

Implicit Types (db : Store) (recipe instance r : Recipe) (tags : list pk).

(** A comprehension over a read-only body reads the store and nothing
    else; it returns the results in order, or raises what the first failing
    element raises. *)
Lemma comprehension_inv {A B} (f : A → M B) (l : list A) db :
  (∀ x, readonly (f x)) →
  match comprehension f l db with
  | (Ok ys, db') => db' = db ∧ Forall2 (λ x y, f x db = (Ok y, db)) l ys
  | (Raise e, db') => db' = db ∧ Exists (λ x, f x db = (Raise e, db)) l
  end.
Proof.
  intros Hf. induction l as [|x l IH]; [by split; [|constructor]|].
  cbn [comprehension]. rewrite bind_unfold.
  pose proof (Hf x db) as Hx.
  destruct (f x db) as [[y|e] db1] eqn:Hfx; simpl in Hx; subst db1.
  - rewrite bind_unfold.
    destruct (comprehension f l db) as [[ys|e] db2]; destruct IH as [-> IH].
    + split; [done|]. by constructor.
    + split; [done|]. by apply Exists_cons_tl.
  - split; [done|]. by apply Exists_cons_hd.
Qed.

Lemma _create_ingredients_inv recipe ingredients_data db :
  match _create_ingredients recipe ingredients_data db with
  | (Ok _, db') =>
      ∃ lines, Forall2 (line_of_data (recipe_id recipe)) ingredients_data lines ∧
               db' = set_IngredientRecipe_objects
                       (IngredientRecipe_objects db ++ lines) db
  | (Raise e, db') => from_save e ∧ db' = db
  end.
Proof.
  unfold _create_ingredients. rewrite bind_unfold.
  match goal with |- context [comprehension ?f _ _] => set (body := f) end.
  assert (∀ d, body d db =
    match data_ingredient d, data_amount d with
    | Some i, Some a =>
        (Ok {| ingredient := i; recipe := recipe_id recipe; amount := a |}, db)
    | None, _ => (Raise (KeyError "ingredient"), db)
    | Some _, None => (Raise (KeyError "amount"), db)
    end) as Hbody.
  { intros d. unfold body. rewrite bind_unfold.
    destruct (data_ingredient d); [|done]. cbn [getitem ret].
    rewrite bind_unfold. by destruct (data_amount d). }
  assert (∀ d, readonly (body d)) as Hro.
  { intros d. unfold body. apply readonly_bind; [apply readonly_getitem|].
    intros i. apply readonly_bind; [apply readonly_getitem|]. done. }
  pose proof (comprehension_inv body ingredients_data db Hro) as Hinv.
  destruct (comprehension body ingredients_data db) as [[lines|e] db1];
    destruct Hinv as [-> Hinv].
  - unfold bulk_create. rewrite bind_unfold. cbn [query].
    case_decide; [|done]. exists lines. split; [|done].
    eapply Forall2_impl; [exact Hinv|]. intros d line. cbn beta.
    rewrite Hbody. unfold line_of_data.
    destruct (data_ingredient d), (data_amount d); try done.
    by intros [= <-].
  - split; [|done]. apply Exists_exists in Hinv as (d & _ & Hd). cbn beta in Hd.
    rewrite Hbody in Hd.
    destruct (data_ingredient d), (data_amount d); by simplify_eq.
Qed.

(** The rows of a recipe after [tag_set]. *)
Lemma tag_set_rows recipe tags db id t :
  (id, t) ∈ Recipe_tag (tag_set recipe tags db).2 ↔
  if decide (id = recipe_id recipe) then t ∈ tags else (id, t) ∈ Recipe_tag db.
Proof.
  cbn. rewrite elem_of_app, list_elem_of_filter, list_elem_of_fmap. cbn.
  setoid_rewrite elem_of_remove_dups. setoid_rewrite list_elem_of_filter.
  setoid_rewrite list_elem_of_fmap. setoid_rewrite list_elem_of_filter.
  case_decide as Hid.
  - subst id. split.
    + intros [[[?|?] ?]|(t' & [= ->] & ? & ?)]; done.
    + intros Ht.
      destruct (decide ((recipe_id recipe, t) ∈ Recipe_tag db)) as [Hin|Hnin].
      * left. split; [by right | done].
      * right. exists t. split; [done|]. split; [|done].
        intros ([id' t'] & -> & Heq & Hin). simpl in *. by subst.
  - split.
    + intros [[_ ?]|(t' & [= -> ->] & _)]; done.
    + intros Hin. left. split; [by left | done].
Qed.

Lemma elem_of_tags_of db id t : t ∈ tags_of db id ↔ (id, t) ∈ Recipe_tag db.
Proof.
  unfold tags_of. rewrite list_elem_of_fmap. setoid_rewrite list_elem_of_filter.
  split.
  - intros ([id' t'] & -> & Heq & Hin). simpl in *. by subst.
  - intros Hin. by exists (id, t).
Qed.

Lemma elem_of_lines_of db id line :
  line ∈ lines_of db id ↔ recipe line = id ∧ line ∈ IngredientRecipe_objects db.
Proof. unfold lines_of. by rewrite list_elem_of_filter. Qed.

Lemma complete_elem db id :
  complete db id ↔
  (∃ t, (id, t) ∈ Recipe_tag db) ∧
  (∃ line, recipe line = id ∧ line ∈ IngredientRecipe_objects db).
Proof.
  unfold complete.
  assert (∀ {X} (l : list X), l ≠ [] ↔ ∃ x, x ∈ l) as Hne.
  { intros X [|x l]; split; try done.
    - by intros [? ?%elem_of_nil].
    - intros _. exists x. left. }
  rewrite !Hne. setoid_rewrite elem_of_tags_of.
  by setoid_rewrite elem_of_lines_of.
Qed.

Lemma next_pk_fresh (rows : list Recipe) r :
  r ∈ rows → recipe_id r < next_pk rows.
Proof.
  unfold next_pk. induction 1 as [r rows|r r' rows _ IH]; cbn; lia.
Qed.

Lemma create_inv author validated_data db :
  match create author validated_data db with
  | (Ok r, db') =>
      ∃ ingredients_data tags cooking_time lines,
        attrs_recipe_ingredients validated_data = Some ingredients_data ∧
        attrs_tag validated_data = Some tags ∧
        attrs_cooking_time validated_data = Some cooking_time ∧
        r = {| recipe_id := next_pk (Recipe_objects db);
               author := author;
               name := default EmptyString (attrs_name validated_data);
               text := default EmptyString (attrs_text validated_data);
               cooking_time := cooking_time;
               image := default EmptyString (attrs_image validated_data) |} ∧
        Forall2 (line_of_data (recipe_id r)) ingredients_data lines ∧
        Recipe_objects db' = Recipe_objects db ++ [r] ∧
        IngredientRecipe_objects db' = IngredientRecipe_objects db ++ lines ∧
        (∀ id t, (id, t) ∈ Recipe_tag db' ↔
                 if decide (id = recipe_id r) then t ∈ tags
                 else (id, t) ∈ Recipe_tag db)
  | (Raise e, db') => from_save e ∧ db' = db
  end.
Proof.
  unfold create, atomic. rewrite bind_unfold.
  destruct (attrs_recipe_ingredients validated_data) as [data|]; [|done].
  cbn [getitem ret]. rewrite bind_unfold.
  destruct (attrs_tag validated_data) as [tags|]; [|done].
  cbn [getitem ret]. rewrite bind_unfold. unfold Recipe_objects_create.
  destruct (attrs_cooking_time validated_data) as [ct|]; [|done].
  repeat (rewrite bind_unfold; cbn [query write ret]).
  match goal with |- context [_create_ingredients ?r _ _] =>
    set (recipe := r) end.
  match goal with |- context [_create_ingredients recipe _ ?d] =>
    set (db1 := d) end.
  pose proof (_create_ingredients_inv recipe data db1) as Hlines.
  destruct (_create_ingredients recipe data db1) as [[[]|e] db2].
  - destruct Hlines as (lines & Hlines & ->).
    repeat (rewrite bind_unfold; cbn [ret]).
    pose proof (tag_set_rows recipe tags
      (set_IngredientRecipe_objects (IngredientRecipe_objects db1 ++ lines) db1))
      as Hrows.
    destruct (tag_set recipe tags _) as [[[]|e] db3] eqn:Htag; [|done].
    exists data, tags, ct, lines.
    split_and!; try done; cbn in Htag; by injection Htag as <-.
  - by destruct Hlines.
Qed.

Lemma update_inv instance validated_data db :
  let tags := default [] (attrs_tag validated_data) in
  let ingredients_data := default [] (attrs_recipe_ingredients validated_data) in
  let r := updated_instance instance validated_data in
  match update instance validated_data db with
  | (Ok r', db') =>
      r' = r ∧
      ∃ lines,
        Forall2 (line_of_data (recipe_id r)) ingredients_data lines ∧
        Recipe_objects db' =
          (if decide (Exists (λ r0, recipe_id r0 = recipe_id r) (Recipe_objects db))
           then (λ r0, if decide (recipe_id r0 = recipe_id r) then r else r0)
                  <$> Recipe_objects db
           else Recipe_objects db ++ [r]) ∧
        IngredientRecipe_objects db' =
          filter (λ line, recipe line ≠ recipe_id r) (IngredientRecipe_objects db)
          ++ lines ∧
        (∀ id t, (id, t) ∈ Recipe_tag db' ↔
                 if decide (id = recipe_id r) then t ∈ tags
                 else (id, t) ∈ Recipe_tag db)
  | (Raise e, db') => from_save e ∧ db' = db
  end.
Proof.
  intros tags data r. unfold update, atomic.
  fold (updated_instance instance validated_data). fold r. fold tags. fold data.
  rewrite bind_unfold. cbn [save write].
  set (db1 := if decide (Exists _ (Recipe_objects db)) then _ else _).
  rewrite bind_unfold.
  pose proof (tag_set_rows r tags db1) as Hrows.
  destruct (tag_set r tags db1) as [[[]|e] db2] eqn:Htag; [|done].
  cbn in Htag. injection Htag as <-.
  rewrite bind_unfold. cbn [recipe_ingredients_delete write].
  rewrite bind_unfold.
  match goal with |- context [_create_ingredients r data ?d] => set (db3 := d) end.
  pose proof (_create_ingredients_inv r data db3) as Hlines.
  destruct (_create_ingredients r data db3) as [[[]|e] db4].
  - destruct Hlines as (lines & Hlines & ->). cbn [ret].
    split; [done|]. exists lines. split; [done|]. split_and!.
    + subst db3 db1. cbn. by destruct (decide _).
    + subst db3 db1. cbn. by destruct (decide _).
    + intros id t. specialize (Hrows id t). subst db3. cbn in *.
      rewrite Hrows. subst db1. cbn. by repeat destruct (decide _).
  - by destruct Hlines.
Qed.

End save_theory.

Section recipe_theory.
Import serializers.

Implicit Types (db : Store) (attrs : Attrs) (instance r : Recipe).

Lemma create_recipe_eq author attrs db :
  create_recipe author attrs db
  = match (run_validation author "POST" attrs db).1 with
    | Ok validated_data => create author validated_data db
    | Raise e => (Raise e, db)
    end.
Proof. apply bind_readonly, readonly_run_validation. Qed.

Lemma update_recipe_eq request_user instance attrs db :
  update_recipe request_user instance attrs db
  = match (run_validation request_user "PATCH" attrs db).1 with
    | Ok validated_data => update instance validated_data db
    | Raise e => (Raise e, db)
    end.
Proof. apply bind_readonly, readonly_run_validation. Qed.

Lemma all_or_nothing_create_recipe author attrs :
  all_or_nothing (create_recipe author attrs).
Proof.
  apply all_or_nothing_bind; [apply readonly_run_validation|].
  intros validated_data. apply all_or_nothing_atomic.
Qed.

Lemma all_or_nothing_update_recipe request_user instance attrs :
  all_or_nothing (update_recipe request_user instance attrs).
Proof.
  apply all_or_nothing_bind; [apply readonly_run_validation|].
  intros validated_data. apply all_or_nothing_atomic.
Qed.

Lemma mapM_omap {A B} (f : A → option B) (l : list A) (k : list B) :
  mapM f l = Some k → omap f l = k.
Proof.
  rewrite mapM_Some. induction 1 as [|x y l k Hxy _ IH]; [done|].
  cbn. by rewrite Hxy, IH.
Qed.

(** A submission that repeats a tag or an ingredient, or that has no tag or
    no ingredient, does not pass the validation. *)
Lemma run_validation_rejects author method attrs db :
  repeats attrs ∨
  not_ (attrs_tag attrs) = true ∨ not_ (attrs_recipe_ingredients attrs) = true →
  ∃ e, (run_validation author method attrs db).1 = Raise e.
Proof.
  intros Hbad.
  destruct (run_validation author method attrs db).1 as [vd|e] eqn:Hrun;
    [|by exists e].
  apply run_validation_Ok in Hrun
    as (_ & _ & name & tags & ingredients & ids & _ & Htags & Hne & Hnd
        & Hingr & Hne' & Hmap & Hnd' & _).
  exfalso. destruct Hbad as [[(tags' & Heq & Hdup)|(l & Heq & Hdup)]|[Hno|Hno]].
  - by simplify_eq.
  - simplify_eq. by rewrite (mapM_omap _ _ _ Hmap) in Hdup.
  - rewrite Htags in Hno. by destruct tags.
  - rewrite Hingr in Hno. by destruct ingredients.
Qed.

Lemma Forall2_nonempty {A B} (P : A → B → Prop) (l : list A) (k : list B) :
  Forall2 P l k → l ≠ [] → ∃ y, y ∈ k ∧ ∃ x, x ∈ l ∧ P x y.
Proof.
  destruct 1 as [|x y l k Hxy _]; [done|]. intros _.
  exists y. split; [left|]. exists x. split; [left | done].
Qed.

(** After a successful creation the new recipe has a tag and a line, and
    the recipes stored before keep theirs. *)
Lemma create_recipe_complete author attrs db r db' :
  create_recipe author attrs db = (Ok r, db') →
  complete db' (recipe_id r) ∧ (all_complete db → all_complete db').
Proof.
  rewrite create_recipe_eq.
  destruct (run_validation author "POST" attrs db).1 as [vd|e] eqn:Hrun; [|done].
  apply run_validation_Ok in Hrun
    as (-> & _ & name & tags & ingredients & ids & _ & Htags & Hne & _
        & Hingr & Hne' & _).
  intros Hcreate. pose proof (create_inv author attrs db) as Hinv.
  rewrite Hcreate in Hinv.
  destruct Hinv as (data & tags' & ct & lines & Hd & Ht & _ & Hr & Hlines
                    & Hrecipes & Hrows & Htagrows).
  rewrite Hingr in Hd. rewrite Htags in Ht. simplify_eq.
  set (r := {| recipe_id := next_pk (Recipe_objects db) |}) in *.
  assert (complete db' (recipe_id r)) as Hnew.
  { apply complete_elem. split.
    - destruct tags' as [|t tags']; [done|]. exists t.
      rewrite Htagrows, decide_True by done. left.
    - destruct (Forall2_nonempty _ _ _ Hlines Hne')
        as (line & Hin & d & _ & _ & _ & Hrec).
      exists line. split; [done|]. rewrite Hrows. set_solver. }
  split; [done|]. intros Hall r' Hin.
  rewrite Hrecipes in Hin.
  apply elem_of_app in Hin as [Hin| ->%list_elem_of_singleton]; [|done].
  pose proof (next_pk_fresh _ _ Hin) as Hfresh.
  apply complete_elem. apply Hall, complete_elem in Hin as [[t Ht] [line [? ?]]].
  split.
  - exists t. rewrite Htagrows, decide_False; [done|]. cbn. lia.
  - exists line. split; [done|]. rewrite Hrows. set_solver.
Qed.

(** After a successful update the recipe has a tag and a line, and the
    other recipes keep theirs. *)
Lemma update_recipe_complete request_user instance attrs db r db' :
  update_recipe request_user instance attrs db = (Ok r, db') →
  complete db' (recipe_id r) ∧ (all_complete db → all_complete db').
Proof.
  rewrite update_recipe_eq.
  destruct (run_validation request_user "PATCH" attrs db).1
    as [vd|e] eqn:Hrun; [|done].
  apply run_validation_Ok in Hrun
    as (-> & _ & name & tags & ingredients & ids & _ & Htags & Hne & _
        & Hingr & Hne' & _).
  intros Hupdate. pose proof (update_inv instance attrs db) as Hinv.
  rewrite Hupdate, Htags, Hingr in Hinv. cbn [default] in Hinv.
  destruct Hinv as (-> & lines & Hlines & Hrecipes & Hrows & Htagrows).
  set (r := updated_instance instance attrs) in *.
  assert (complete db' (recipe_id r)) as Hnew.
  { apply complete_elem. split.
    - destruct tags as [|t tags]; [done|]. exists t.
      rewrite Htagrows, decide_True by done. left.
    - destruct (Forall2_nonempty _ _ _ Hlines Hne')
        as (line & Hin & d & _ & _ & _ & Hrec).
      exists line. split; [done|]. rewrite Hrows. set_solver. }
  split; [done|]. intros Hall r' Hin.
  destruct (decide (recipe_id r' = recipe_id r)) as [->|Hother]; [done|].
  assert (r' ∈ Recipe_objects db) as Hold.
  { rewrite Hrecipes in Hin. case_decide.
    - apply list_elem_of_fmap in Hin as (r0 & -> & Hin). by case_decide.
    - apply elem_of_app in Hin as [Hin| ->%list_elem_of_singleton]; done. }
  apply complete_elem. apply Hall, complete_elem in Hold as [[t Ht] [line [? ?]]].
  split.
  - exists t. by rewrite Htagrows, decide_False.
  - exists line. split; [done|]. rewrite Hrows, elem_of_app, list_elem_of_filter.
    left. split; [congruence | done].
Qed.

End recipe_theory.

(** C2. When [create_recipe] or [update_recipe] raises, the store it leaves
    is the store it was given: a creation has written no recipe, line or tag
    row, and an update has left the recipe, its tags and its lines (and
    every other row) as they were. A submission that repeats a tag or an
    ingredient makes both raise. *)
Theorem failed_recipe_write_persists_nothing
    (author : pk) (instance : Recipe) (attrs : serializers.Attrs) (db : Store) :
  (∀ e db', serializers.create_recipe author attrs db = (Raise e, db') → db' = db) ∧
  (∀ e db', serializers.update_recipe author instance attrs db = (Raise e, db') →
            db' = db) ∧
  (serializers.repeats attrs →
   (∃ e, serializers.create_recipe author attrs db = (Raise e, db)) ∧
   (∃ e, serializers.update_recipe author instance attrs db = (Raise e, db))).
Proof.
  split_and!.
  - intros e db'. apply all_or_nothing_create_recipe.
  - intros e db'. apply all_or_nothing_update_recipe.
  - intros Hrep. split.
    + destruct (run_validation_rejects author "POST" attrs db (or_introl Hrep))
        as [e He].
      exists e. by rewrite create_recipe_eq, He.
    + destruct (run_validation_rejects author "PATCH" attrs db (or_introl Hrep))
        as [e He].
      exists e. by rewrite update_recipe_eq, He.
Qed.

Lemma failed_recipe_write_persists_nothing_witness :
  serializers.repeats serializers.salt_twice ∧
  (∃ e, serializers.create_recipe 3 serializers.salt_twice serializers.soup_store
        = (Raise e, serializers.soup_store)) ∧
  (∃ e, serializers.update_recipe 3 serializers.soup serializers.salt_twice
          serializers.soup_store
        = (Raise e, serializers.soup_store)).
Proof.
  assert (serializers.repeats serializers.salt_twice) as Hrep.
  { right. eexists. split; [reflexivity|]. simpl.
    intros Hnd. apply NoDup_cons in Hnd as [Hnin _]. apply Hnin. left. }
  split; [exact Hrep|].
  exact (proj2 (proj2 (failed_recipe_write_persists_nothing
                         3 serializers.soup serializers.salt_twice
                         serializers.soup_store)) Hrep).
Defined.

(** C7. After a successful [create_recipe] or [update_recipe] the recipe
    has at least one stored tag and at least one stored ingredient line,
    and when every stored recipe had both before the call, every stored
    recipe has both after it. A submission whose tags or whose ingredients
    are missing or empty makes both operations raise, with the store
    untouched. *)
Theorem successful_recipe_write_is_complete
    (author : pk) (instance : Recipe) (attrs : serializers.Attrs) (db : Store) :
  (∀ r db', serializers.create_recipe author attrs db = (Ok r, db') →
            serializers.complete db' (recipe_id r) ∧
            (serializers.all_complete db → serializers.all_complete db')) ∧
  (∀ r db', serializers.update_recipe author instance attrs db = (Ok r, db') →
            serializers.complete db' (recipe_id r) ∧
            (serializers.all_complete db → serializers.all_complete db')) ∧
  (serializers.not_ (serializers.attrs_tag attrs) = true ∨
   serializers.not_ (serializers.attrs_recipe_ingredients attrs) = true →
   (∃ e, serializers.create_recipe author attrs db = (Raise e, db)) ∧
   (∃ e, serializers.update_recipe author instance attrs db = (Raise e, db))).
Proof.
  split_and!.
  - intros r db'. apply create_recipe_complete.
  - intros r db'. apply update_recipe_complete.
  - intros Hempty. split.
    + destruct (run_validation_rejects author "POST" attrs db (or_intror Hempty))
        as [e He].
      exists e. by rewrite create_recipe_eq, He.
    + destruct (run_validation_rejects author "PATCH" attrs db (or_intror Hempty))
        as [e He].
      exists e. by rewrite update_recipe_eq, He.
Qed.

Lemma successful_recipe_write_is_complete_witness :
  (∃ r db', serializers.create_recipe 4 (serializers.boundary_attrs 30 10)
              serializers.soup_store = (Ok r, db') ∧
            serializers.complete db' (recipe_id r)) ∧
  (∃ r db', serializers.update_recipe 3 serializers.soup
              serializers.rename_to_broth serializers.soup_store = (Ok r, db') ∧
            serializers.complete db' (recipe_id r)) ∧
  (∃ e, serializers.create_recipe 4 serializers.soup_without_ingredients
          serializers.soup_store
        = (Raise e, serializers.soup_store)).
Proof.
  split_and!.
  - eexists _, _. split; [by vm_compute|].
    refine (proj1 (proj1 (successful_recipe_write_is_complete
                     4 serializers.soup (serializers.boundary_attrs 30 10)
                     serializers.soup_store) _ _ _)).
    by vm_compute.
  - eexists _, _. split; [by vm_compute|].
    refine (proj1 (proj1 (proj2 (successful_recipe_write_is_complete
                     3 serializers.soup serializers.rename_to_broth
                     serializers.soup_store)) _ _ _)).
    by vm_compute.
  - apply (proj2 (proj2 (successful_recipe_write_is_complete
                     4 serializers.soup serializers.soup_without_ingredients
                     serializers.soup_store))).
    right. reflexivity.
Defined.

Section update_theory.
Import serializers.

(** What a successful [update] returns and stores. *)
Lemma update_Ok instance validated_data db r db' :
  update instance validated_data db = (Ok r, db') →
  r = updated_instance instance validated_data ∧
  r ∈ Recipe_objects db' ∧
  (∀ r', r' ∈ Recipe_objects db' → recipe_id r' = recipe_id instance → r' = r).
Proof.
  intros Hupdate. pose proof (update_inv instance validated_data db) as Hinv.
  rewrite Hupdate in Hinv. cbn zeta in Hinv.
  destruct Hinv as (-> & lines & _ & Hrecipes & _). split; [done|].
  set (r := updated_instance instance validated_data) in *.
  rewrite Hrecipes. case_decide as Hex.
  - split.
    + apply Exists_exists in Hex as (r0 & Hin & Hid).
      apply list_elem_of_fmap. exists r0. by rewrite decide_True.
    + intros r' (r0 & -> & Hin)%list_elem_of_fmap Hid.
      case_decide; [done|]. by destruct r0.
  - split; [set_solver|].
    intros r' [Hin| ->%list_elem_of_singleton]%elem_of_app Hid; [|done].
    exfalso. apply Hex, Exists_exists. by exists r'.
Qed.

(** The exception of [validate] that reports a recipe of the same name:
    only a [POST] raises it. *)
Lemma validate_conflict author method attrs db :
  (validate author method attrs db).1 = Raise RecipeAlreadyExists ↔
  method = "POST" ∧
  ∃ name tags, reaches_conflict_check attrs name tags ∧
               Recipe_filter_exists db name author tags.
Proof.
  unfold reaches_conflict_check. rewrite validate_eq. cbn [fst].
  destruct (attrs_name attrs) as [name|].
  2:{ split; [done | by intros (_ & ? & ? & (? & _) & _)]. }
  destruct (attrs_recipe_ingredients attrs) as [ingredients|].
  2:{ split; [done | by intros (_ & ? & ? & (_ & _ & _ & ? & ? & _) & _)]. }
  destruct (mapM data_ingredient ingredients) as [ids|] eqn:Hmap.
  2:{ split; [done|].
      intros (_ & ? & ? & (_ & _ & _ & ? & [= <-] & _ & Hsome) & _).
      rewrite Hmap in Hsome. by destruct Hsome. }
  destruct (attrs_tag attrs) as [[|t tags]|]; cbn [not_].
  1,3: split; [done | naive_solver].
  destruct ingredients as [|d ingredients]; cbn [not_].
  { split; [done | naive_solver]. }
  cbn [default]. case_bool_decide as Hexists.
  - split; [intros _ | done]. destruct Hexists as [-> Hexists].
    split; [done|]. exists name, (t :: tags). split; [|done].
    split_and!; try done. exists (d :: ingredients). by rewrite Hmap.
  - split.
    + by repeat (destruct (validators.validate_unique_for_list _ _) as [[]|[]]).
    + intros (-> & name' & tags' & ([= <-] & [= <-] & _) & Hconflict).
      by destruct Hexists.
Qed.

Lemma run_validation_conflict author method attrs db :
  (run_validation author method attrs db).1 = Raise RecipeAlreadyExists ↔
  method = "POST" ∧
  field_errors (partial method) db attrs = [] ∧
  ∃ name tags, reaches_conflict_check attrs name tags ∧
               Recipe_filter_exists db name author tags.
Proof.
  rewrite run_validation_eq. case_decide as Hfield.
  - rewrite validate_conflict. naive_solver.
  - cbn [fst]. naive_solver.
Qed.

(** [create] and [update] raise what the database or a missing key raises,
    never the exception for an existing recipe. *)
Lemma create_not_conflict author validated_data db :
  (create author validated_data db).1 ≠ Raise RecipeAlreadyExists.
Proof.
  pose proof (create_inv author validated_data db) as Hinv.
  destruct (create author validated_data db) as [[r|e] db']; [done|].
  destruct Hinv as [Hsave _]. by intros [= ->].
Qed.

Lemma update_not_conflict instance validated_data db :
  (update instance validated_data db).1 ≠ Raise RecipeAlreadyExists.
Proof.
  pose proof (update_inv instance validated_data db) as Hinv. cbn zeta in Hinv.
  destruct (update instance validated_data db) as [[r|e] db']; [done|].
  destruct Hinv as [Hsave _]. by intros [= ->].
Qed.

(** A [POST] whose fields are accepted carries every key. *)
Lemma field_errors_POST db attrs :
  field_errors false db attrs = [] →
  ∃ name tags ingredients ingredients_obj,
    attrs_name attrs = Some name ∧ attrs_tag attrs = Some tags ∧
    attrs_recipe_ingredients attrs = Some ingredients ∧
    mapM data_ingredient ingredients = Some ingredients_obj.
Proof.
  unfold field_errors, errors_of, required.
  destruct (attrs_tag attrs) as [tags|]; [|done].
  destruct (attrs_recipe_ingredients attrs) as [ingredients|];
    [|by destruct (_ ≫= _)].
  destruct (attrs_name attrs) as [name|];
    [|by destruct (_ ≫= _), (_ ≫= _)].
  intros Herr. exists name, tags, ingredients.
  assert (ingredients ≫= ingredient_errors false db = []) as Hnone.
  { destruct (ingredients ≫= ingredient_errors false db); [done|].
    by destruct (_ ≫= _). }
  assert (is_Some (mapM data_ingredient ingredients)) as [ids Hids];
    [|by exists ids].
  clear Herr. induction ingredients as [|d ingredients IH]; [by eexists|].
  rewrite bind_cons in Hnone. apply app_eq_nil in Hnone as [Hd Hrest].
  destruct (IH Hrest) as [ids Hids]. unfold ingredient_errors in Hd.
  destruct (data_ingredient d) as [i|] eqn:Hi; [|done].
  exists (i :: ids). cbn. by rewrite Hi, Hids.
Qed.

End update_theory.

(** C10. The instance a successful [update] returns and stores carries, for
    each of [name], [text], [cooking_time] and [image], the value of the
    validated data when the key is there and the value the instance had
    when it is missing; its primary key and its author are those of the
    instance, and it is the only stored row with that primary key. *)
Theorem update_keeps_absent_scalars
    (instance : Recipe) (validated_data : serializers.Attrs) (db : Store)
    (r : Recipe) (db' : Store) :
  serializers.update instance validated_data db = (Ok r, db') →
  name r = default (name instance) (serializers.attrs_name validated_data) ∧
  text r = default (text instance) (serializers.attrs_text validated_data) ∧
  cooking_time r
  = default (cooking_time instance)
            (serializers.attrs_cooking_time validated_data) ∧
  image r = default (image instance) (serializers.attrs_image validated_data) ∧
  recipe_id r = recipe_id instance ∧
  author r = author instance ∧
  r ∈ Recipe_objects db' ∧
  (∀ r', r' ∈ Recipe_objects db' → recipe_id r' = recipe_id instance → r' = r).
Proof.
  intros (-> & Hin & Honly)%update_Ok. by split_and!.
Qed.

Lemma update_keeps_absent_scalars_witness :
  ∃ r db',
    serializers.update serializers.soup serializers.rename_to_broth
      serializers.soup_store = (Ok r, db') ∧
    name r = "Broth" ∧ text r = "Boil." ∧ cooking_time r = 30 ∧
    image r = "recipes/images/soup.png" ∧ r ∈ Recipe_objects db'.
Proof.
  eexists _, _. split; [by vm_compute|].
  match goal with |- context [name ?x] => set (r := x) end.
  match goal with |- context [Recipe_objects ?x] => set (db' := x) end.
  assert (serializers.update serializers.soup serializers.rename_to_broth
            serializers.soup_store = (Ok r, db')) as Hupdate by by vm_compute.
  destruct (update_keeps_absent_scalars _ _ _ _ _ Hupdate)
    as (Hname & Htext & Htime & Himage & _ & _ & Hin & _).
  split_and!; [exact Hname | exact Htext | exact Htime | exact Himage | exact Hin].
Defined.

(** C4. The query for a recipe of the same author, with the same name and
    one of the submitted tags, is made for a [POST] alone, and it comes after
    the checks for empty tags and empty ingredients: [validate] raises the
    exception for an existing recipe exactly when the method is [POST], its
    attributes get as far as the query (the keys it subscripts are there,
    neither the tags nor the ingredients are empty) and such a recipe is
    stored. [create_recipe] raises that exception only when such a recipe
    is stored; and when one is stored the creation is refused and writes
    nothing, with that exception unless the fields are refused first or the
    ingredient list is empty. [update_recipe] never raises it. *)
Theorem recipe_conflict_checked_on_create_only
    (author : pk) (instance : Recipe) (attrs : serializers.Attrs) (db : Store) :
  (∀ method,
     (serializers.validate author method attrs db).1
     = Raise serializers.RecipeAlreadyExists ↔
     method = "POST" ∧
     ∃ name tags, serializers.reaches_conflict_check attrs name tags ∧
                  serializers.Recipe_filter_exists db name author tags) ∧
  ((serializers.create_recipe author attrs db).1
   = Raise serializers.RecipeAlreadyExists →
   ∃ name tags, serializers.reaches_conflict_check attrs name tags ∧
                serializers.Recipe_filter_exists db name author tags) ∧
  (∀ name tags,
     serializers.attrs_name attrs = Some name →
     serializers.attrs_tag attrs = Some tags →
     serializers.Recipe_filter_exists db name author tags →
     ∃ e, serializers.create_recipe author attrs db = (Raise e, db) ∧
          (e = serializers.RecipeAlreadyExists ∨
           (e = serializers.IngredientsRequired ∧
            serializers.attrs_recipe_ingredients attrs = Some []) ∨
           ∃ errors, e = serializers.FieldErrors errors ∧ errors ≠ [])) ∧
  (serializers.update_recipe author instance attrs db).1
  ≠ Raise serializers.RecipeAlreadyExists.
Proof.
  split_and!.
  - intros method. apply validate_conflict.
  - rewrite create_recipe_eq.
    pose proof (run_validation_conflict author "POST" attrs db) as Hconflict.
    destruct (serializers.run_validation author "POST" attrs db).1
      as [vd|e] eqn:Hrun.
    + intros Hcreate. by apply create_not_conflict in Hcreate.
    + cbn [fst]. intros [= ->]. by destruct Hconflict as [(_ & _ & ?) _].
  - intros name tags Hname Htags Hexists.
    rewrite create_recipe_eq, run_validation_eq.
    change (serializers.partial "POST") with false.
    case_decide as Hfield; [|eexists; split; [done | right; right; by eexists]].
    destruct (field_errors_POST db attrs Hfield)
      as (name' & tags' & ingredients & ids & ? & ? & Hingr & Hmap).
    simplify_eq.
    assert (tags ≠ []) as Hne.
    { intros ->. apply Exists_exists in Hexists as (r & _ & _ & _ & Hrow).
      apply Exists_exists in Hrow as (row & _ & _ & Hin).
      by apply elem_of_nil in Hin. }
    destruct ingredients as [|d ingredients].
    + exists serializers.IngredientsRequired.
      rewrite validate_eq, Hname, Hingr, Htags. cbn.
      destruct tags; [done|]. cbn. split; [done | right; left; done].
    + exists serializers.RecipeAlreadyExists. split; [|by left].
      assert ((serializers.validate author "POST" attrs db).1
              = Raise serializers.RecipeAlreadyExists) as Hraise.
      { apply validate_conflict. split; [done|]. exists name, tags.
        split; [|done]. split_and!; try done.
        exists (d :: ingredients). by rewrite Hmap. }
      rewrite Hraise. done.
  - rewrite update_recipe_eq.
    pose proof (run_validation_conflict author "PATCH" attrs db) as Hconflict.
    destruct (serializers.run_validation author "PATCH" attrs db).1
      as [vd|e] eqn:Hrun.
    + apply update_not_conflict.
    + cbn [fst]. intros [= ->]. destruct Hconflict as [Hc _].
      by destruct (Hc eq_refl).
Qed.

Lemma recipe_conflict_checked_on_create_only_witness :
  (∃ e, serializers.create_recipe 3 serializers.soup_again serializers.soup_store
        = (Raise e, serializers.soup_store) ∧
        (e = serializers.RecipeAlreadyExists ∨
         (e = serializers.IngredientsRequired ∧
          serializers.attrs_recipe_ingredients serializers.soup_again = Some []) ∨
         ∃ errors, e = serializers.FieldErrors errors ∧ errors ≠ [])) ∧
  serializers.create_recipe 3 serializers.soup_again serializers.soup_store
  = (Raise serializers.RecipeAlreadyExists, serializers.soup_store) ∧
  (∃ r db', serializers.update_recipe 3 serializers.soup serializers.soup_again
              serializers.soup_store = (Ok r, db') ∧
            name r = "Soup" ∧ serializers.tags_of db' 1 = [1; 2]).
Proof.
  split_and!.
  - apply (proj1 (proj2 (proj2 (recipe_conflict_checked_on_create_only
                                  3 serializers.soup serializers.soup_again
                                  serializers.soup_store))) "Soup" [1; 2]);
      [reflexivity | reflexivity |].
    apply Exists_cons_hd. split_and!; [done | done|].
    apply Exists_cons_hd. split; [done | left].
  - by vm_compute.
  - eexists _, _. split; [by vm_compute|]. by vm_compute.
Defined.

(** C4, as the spec words it: user 3 already has "Soup" with tag 1 and
    submits "Soup" with tag 1 and an empty ingredient list; the creation
    raises the exception for the empty list, not the one for the existing
    recipe. *)
Lemma recipe_conflict_hidden_by_empty_ingredients :
  ¬ ((serializers.create_recipe 3 serializers.soup_without_ingredients
        serializers.soup_store).1
     = Raise serializers.RecipeAlreadyExists ↔
     serializers.Recipe_filter_exists serializers.soup_store "Soup" 3 [1]).
Proof.
  intros [_ Hraise].
  assert (serializers.Recipe_filter_exists serializers.soup_store "Soup" 3 [1])
    as Hexists.
  { apply Exists_cons_hd. split_and!; [done | done|].
    apply Exists_cons_hd. split; [done | left]. }
  specialize (Hraise Hexists). by vm_compute in Hraise.
Qed.

(** ** Favorites, cart and subscriptions *)

Section relation_theory.
Import serializers.

Implicit Types (db : Store) (model : RelationModel) (u recipe_id : pk).

Lemma relation_objects_set model rows db :
  relation_objects model (set_relation_objects model rows db) = rows.
Proof. by destruct model. Qed.

Lemma BaseAddRecipeSerializer_validate_eq model u recipe_id db :
  BaseAddRecipeSerializer_validate model u recipe_id db
  = (if decide (Exists (same_user_recipe u recipe_id) (relation_objects model db))
     then Raise (AlreadyAdded (verbose_name model)) else Ok tt, db).
Proof.
  unfold BaseAddRecipeSerializer_validate. rewrite bind_unfold. cbn [query].
  by case_bool_decide; case_decide.
Qed.

Lemma get_object_or_404_Ok id db r db' :
  get_object_or_404 id db = (Ok r, db') → recipe_id r = id ∧ db' = db.
Proof.
  unfold get_object_or_404. rewrite bind_unfold. cbn [query].
  destruct (filter _ (Recipe_objects db)) as [|r0 rest] eqn:Hfilter; [done|].
  cbn. intros [= <- <-]. split; [|done].
  assert (r0 ∈ filter (λ r, recipe_id r = id) (Recipe_objects db)) as Hin
    by (rewrite Hfilter; left).
  by apply list_elem_of_filter in Hin as [? _].
Qed.

(** A successful addition found no row for the pair and appended one. *)
Lemma add_recipe_Ok model u recipe_id db row db' :
  add_recipe model u recipe_id db = (Ok row, db') →
  ¬ Exists (same_user_recipe u recipe_id) (relation_objects model db) ∧
  relation_objects model db'
  = relation_objects model db ++ [ {| rel_user := u; rel_recipe := recipe_id |} ].
Proof.
  unfold add_recipe. rewrite bind_unfold, BaseAddRecipeSerializer_validate_eq.
  case_decide as Hexists; [done|].
  unfold BaseAddRecipeSerializer_create. rewrite bind_unfold.
  destruct (get_object_or_404 recipe_id db) as [[r|e] db1] eqn:Hget; [|done].
  apply get_object_or_404_Ok in Hget as [<- ->].
  unfold relation_objects_create. rewrite !bind_unfold. cbn [query].
  case_decide; [done|]. rewrite !bind_unfold. cbn [write ret].
  intros [= <- <-]. by rewrite relation_objects_set.
Qed.

Lemma count_rows_one (rows : list BaseUserRecipeRelation) u recipe_id :
  ¬ Exists (same_user_recipe u recipe_id) rows →
  length (filter (same_user_recipe u recipe_id)
                 (rows ++ [ {| rel_user := u; rel_recipe := recipe_id |} ]))
  = 1%nat.
Proof.
  intros Hnone. rewrite filter_app, length_app.
  assert (filter (same_user_recipe u recipe_id) rows = []) as ->.
  { induction rows as [|row rows IH]; [done|].
    rewrite filter_cons, decide_False, IH; [done | |].
    - intros Hex. apply Hnone. by apply Exists_cons_tl.
    - intros Hrow. apply Hnone. by apply Exists_cons_hd. }
  by rewrite filter_cons, decide_True.
Qed.

Lemma SubscriptionSerializer_validate_eq u author db :
  SubscriptionSerializer_validate u author db
  = (if decide (subscribed db u author) then Raise (AlreadySubscribed author)
     else if decide (u = author) then Raise SelfSubscription
     else Ok tt, db).
Proof.
  unfold SubscriptionSerializer_validate, subscribed.
  rewrite bind_unfold. cbn [query].
  case_bool_decide; repeat case_decide; done.
Qed.

End relation_theory.

(** C8. When a user has added a recipe to the favorites (or to the cart),
    adding it again raises the exception for a pair that is already
    stored, leaves the store as it is, and the table holds exactly one row
    for the pair. *)
Theorem add_recipe_twice_conflicts
    (model : RelationModel) (u recipe_id : pk) (db : Store)
    (row : BaseUserRecipeRelation) (db1 : Store) :
  serializers.add_recipe model u recipe_id db = (Ok row, db1) →
  serializers.add_recipe model u recipe_id db1
  = (Raise (serializers.AlreadyAdded (verbose_name model)), db1) ∧
  serializers.count_rows model u recipe_id db1 = 1%nat.
Proof.
  intros [Hnone Hrows]%add_recipe_Ok. split.
  - unfold serializers.add_recipe.
    rewrite bind_unfold, BaseAddRecipeSerializer_validate_eq, decide_True; [done|].
    rewrite Hrows. apply Exists_app. right. by apply Exists_cons_hd.
  - unfold serializers.count_rows. rewrite Hrows. by apply count_rows_one.
Qed.

Lemma add_recipe_twice_conflicts_witness :
  ∃ row db1,
    serializers.add_recipe Favorite 7 1 serializers.soup_store = (Ok row, db1) ∧
    serializers.add_recipe Favorite 7 1 db1
    = (Raise (serializers.AlreadyAdded "Избранное"), db1) ∧
    serializers.count_rows Favorite 7 1 db1 = 1%nat.
Proof.
  eexists _, _. split; [by vm_compute|].
  refine (add_recipe_twice_conflicts Favorite 7 1 serializers.soup_store _ _ _).
  by vm_compute.
Defined.

(** C5. On a store that satisfies invariant 6 of the data model (no pair
    stored twice, nobody subscribed to themselves), which [subscribe]
    maintains, [SubscriptionSerializer.validate] behaves as the check that
    rejects user = author first and only then looks for a stored
    (user, author) pair: it raises the exception for a subscription to
    oneself when the user is the author, otherwise the exception for an
    existing subscription when the pair is stored, and otherwise passes; it
    never writes. In particular subscribing to oneself raises the exception
    for a subscription to oneself and creates no row, and subscribing to an
    author one is subscribed to raises the exception for an existing
    subscription and creates no row. (The source makes the query first and
    the comparison second; on such a store no pair passes the query and
    fails the comparison, so the order cannot be observed.) *)
Theorem self_subscription_is_rejected_first (u author : pk) (db : Store) :
  serializers.subscriptions_consistent db →
  serializers.SubscriptionSerializer_validate u author db
  = (if decide (u = author) then Raise serializers.SelfSubscription
     else if decide (serializers.subscribed db u author)
     then Raise (serializers.AlreadySubscribed author)
     else Ok tt, db) ∧
  serializers.subscribe u u db = (Raise serializers.SelfSubscription, db) ∧
  (serializers.subscribed db u author →
   serializers.subscribe u author db
   = (Raise (serializers.AlreadySubscribed author), db)) ∧
  serializers.subscriptions_consistent (serializers.subscribe u author db).2.
Proof.
  intros [Hnd Hself].
  assert (∀ v, ¬ serializers.subscribed db v v) as Hnone.
  { intros v (row & Hin & Hu & Ha)%Exists_exists.
    rewrite Forall_forall in Hself. apply (Hself row Hin). congruence. }
  split_and!.
  - rewrite SubscriptionSerializer_validate_eq.
    destruct (decide (u = author)) as [->|Hne]; [|done].
    by rewrite decide_False.
  - unfold serializers.subscribe.
    rewrite bind_unfold, SubscriptionSerializer_validate_eq.
    by rewrite decide_False, decide_True.
  - intros Hsub. unfold serializers.subscribe.
    rewrite bind_unfold, SubscriptionSerializer_validate_eq.
    by rewrite decide_True.
  - unfold serializers.subscribe.
    rewrite bind_unfold, SubscriptionSerializer_validate_eq.
    repeat case_decide; cbn [snd]; try done.
    split; cbn.
    + apply NoDup_app. split_and!; [done | | apply NoDup_singleton].
      intros row Hin ->%list_elem_of_singleton.
      match goal with H : ¬ serializers.subscribed _ _ _ |- _ => apply H end.
      apply Exists_exists. eexists. split; [exact Hin | done].
    + apply Forall_app. split; [done|]. by apply Forall_singleton.
Qed.

Lemma self_subscription_is_rejected_first_witness :
  serializers.subscriptions_consistent serializers.subscribed_store ∧
  serializers.subscribe 1 1 serializers.subscribed_store
  = (Raise serializers.SelfSubscription, serializers.subscribed_store) ∧
  serializers.subscribe 1 2 serializers.subscribed_store
  = (Raise (serializers.AlreadySubscribed 2), serializers.subscribed_store).
Proof.
  assert (serializers.subscriptions_consistent serializers.subscribed_store)
    as Hok.
  { split; [apply NoDup_singleton|]. by apply Forall_singleton. }
  split; [exact Hok|]. split.
  - exact (proj1 (proj2 (self_subscription_is_rejected_first
                           1 1 serializers.subscribed_store Hok))).
  - apply (proj1 (proj2 (proj2 (self_subscription_is_rejected_first
                                  1 2 serializers.subscribed_store Hok)))).
    by apply Exists_cons_hd.
Defined.

(** ** Successful writes, and the stores they leave *)

Section recipe_more.
Import serializers examples.

Implicit Types (db : Store) (attrs : Attrs) (instance r : Recipe)
  (lines : list IngredientRecipe) (data : list IngredientData).

Lemma comprehension_Ok_iff {A B} (f : A → M B) (l : list A) db ys db' :
  (∀ x, readonly (f x)) →
  comprehension f l db = (Ok ys, db') ↔
  db' = db ∧ Forall2 (λ x y, f x db = (Ok y, db)) l ys.
Proof.
  intros Hf. split.
  - intros Heq. pose proof (comprehension_inv f l db Hf) as Hinv.
    by rewrite Heq in Hinv.
  - intros [-> Hall]. induction Hall as [|x y l ys Hxy _ IH]; [done|].
    cbn [comprehension]. rewrite bind_unfold, Hxy, bind_unfold, IH. done.
Qed.

Lemma lines_of_data_Some id data lines :
  lines_of_data id data = Some lines ↔ Forall2 (line_of_data id) data lines.
Proof.
  unfold lines_of_data. rewrite mapM_Some.
  split; intros Hall; (eapply Forall2_impl; [exact Hall|]);
    intros d line; unfold line_of_data;
    destruct (data_ingredient d) as [i|], (data_amount d) as [a|];
    cbn; destruct line as [i' id' a']; cbn; naive_solver.
Qed.

(** [_create_ingredients] succeeds exactly when every entry has both keys
    and the batch passes the unique constraint. *)
Lemma _create_ingredients_Ok_iff recipe data db db' :
  _create_ingredients recipe data db = (Ok tt, db') ↔
  ∃ lines, lines_of_data (recipe_id recipe) data = Some lines ∧
           accepted_batch (IngredientRecipe_objects db) lines ∧
           db' = set_IngredientRecipe_objects
                   (IngredientRecipe_objects db ++ lines) db.
Proof.
  unfold _create_ingredients. rewrite bind_unfold.
  match goal with |- context [comprehension ?f _ _] => set (body := f) end.
  assert (∀ d line, body d db = (Ok line, db) ↔
                    line_of_data (recipe_id recipe) d line) as Hbody.
  { intros d line. unfold body, line_of_data. rewrite bind_unfold.
    destruct (data_ingredient d) as [i|]; cbn [getitem ret raise]; [|naive_solver].
    rewrite bind_unfold.
    destruct (data_amount d) as [a|]; cbn [getitem ret raise]; [|naive_solver].
    destruct line as [i' id' a']; unfold ret; cbn. naive_solver. }
  assert (∀ d, readonly (body d)) as Hro.
  { intros d. unfold body. apply readonly_bind; [apply readonly_getitem|].
    intros i. apply readonly_bind; [apply readonly_getitem|]. done. }
  destruct (comprehension body data db) as [[lines|e] db1] eqn:Hcomp.
  - apply comprehension_Ok_iff in Hcomp as [-> Hall]; [|done].
    assert (lines_of_data (recipe_id recipe) data = Some lines) as Hlines.
    { apply lines_of_data_Some. eapply Forall2_impl; [exact Hall|].
      intros d line. apply Hbody. }
    unfold bulk_create, accepted_batch. rewrite bind_unfold. cbn [query].
    case_decide as Hbatch.
    + cbn [write]. split.
      * intros [= <-]. by exists lines.
      * intros (lines' & Hlines' & _ & ->). by simplify_eq.
    + split; [done|]. intros (lines' & Hlines' & Hbatch' & _). by simplify_eq.
  - split; [done|]. intros (lines & Hlines & _).
    apply lines_of_data_Some in Hlines.
    assert (comprehension body data db = (Ok lines, db)) as Hok.
    { apply comprehension_Ok_iff; [done|]. split; [done|].
      eapply Forall2_impl; [exact Hlines|]. intros d line. apply Hbody. }
    by rewrite Hok in Hcomp.
Qed.

(** A successful [update], and the store it leaves. *)
Lemma update_Ok_iff instance validated_data db r' db' :
  update instance validated_data db = (Ok r', db') ↔
  let r := updated_instance instance validated_data in
  let tags := default [] (attrs_tag validated_data) in
  r' = r ∧
  ∃ lines,
    lines_of_data (recipe_id r)
      (default [] (attrs_recipe_ingredients validated_data)) = Some lines ∧
    accepted_batch
      (filter (λ line, recipe line ≠ recipe_id r) (IngredientRecipe_objects db))
      lines ∧
    db' = updated_store r tags lines db.
Proof.
  cbn zeta. unfold updated_store.
  set (r := updated_instance instance validated_data).
  set (tags := default [] (attrs_tag validated_data)).
  set (data := default [] (attrs_recipe_ingredients validated_data)).
  set (db1 := (save r db).2). set (db2 := (tag_set r tags db1).2).
  set (db3 := (recipe_ingredients_delete r db2).2).
  assert (IngredientRecipe_objects db3
          = filter (λ line, recipe line ≠ recipe_id r)
                   (IngredientRecipe_objects db)) as Hrows.
  { subst db3 db2 db1. cbn. by destruct (decide _). }
  rewrite <- Hrows.
  change (update instance validated_data db)
    with (match (match _create_ingredients r data db3 with
                 | (Ok _, d) => (Ok r, d)
                 | (Raise e, d) => (Raise e, d)
                 end) with
          | (Ok a, d) => (Ok a, d)
          | (Raise e, _) => (Raise e, db)
          end).
  pose proof (_create_ingredients_Ok_iff r data db3) as Hiff.
  destruct (_create_ingredients r data db3) as [[[]|e] db4].
  - destruct (Hiff db4) as [(lines & Hlines & Hbatch & ->) _]; [done|].
    split.
    + intros [= <- <-]. split; [done|]. by exists lines.
    + intros [-> (lines' & Hlines' & _ & ->)]. by simplify_eq.
  - split; [done|]. intros [-> (lines & Hlines & Hbatch & ->)].
    assert ((Raise e, db4) = (Ok tt, set_IngredientRecipe_objects
              (IngredientRecipe_objects db3 ++ lines) db3)) as Habs; [|done].
    apply Hiff. by exists lines.
Qed.

Lemma Store_eq db db' :
  Ingredient_objects db = Ingredient_objects db' →
  Recipe_objects db = Recipe_objects db' →
  Recipe_tag db = Recipe_tag db' →
  IngredientRecipe_objects db = IngredientRecipe_objects db' →
  Favorite_objects db = Favorite_objects db' →
  BuyList_objects db = BuyList_objects db' →
  Subscription_objects db = Subscription_objects db' →
  Tag_objects db = Tag_objects db' →
  db = db'.
Proof. destruct db, db'. cbn. by intros -> -> -> -> -> -> -> ->. Qed.

(** The tables of the store a successful [update] leaves. *)
Lemma updated_store_tables r tags lines db :
  let db' := updated_store r tags lines db in
  Recipe_objects db'
  = (if decide (Exists (λ r0, recipe_id r0 = recipe_id r) (Recipe_objects db))
     then (λ r0, if decide (recipe_id r0 = recipe_id r) then r else r0)
            <$> Recipe_objects db
     else Recipe_objects db ++ [r]) ∧
  Recipe_tag db'
  = filter (λ row, row.1 ≠ recipe_id r ∨ row.2 ∈ tags) (Recipe_tag db)
    ++ ((λ t, (recipe_id r, t)) <$>
        remove_dups (filter (λ t, t ∉ tags_of db (recipe_id r)) tags)) ∧
  IngredientRecipe_objects db'
  = filter (λ line, recipe line ≠ recipe_id r) (IngredientRecipe_objects db)
    ++ lines ∧
  same_other_tables db db'.
Proof.
  unfold updated_store, same_other_tables, tags_of. cbn.
  by destruct (decide _).
Qed.

(** The tables of the store a successful [create] leaves. *)
Lemma created_store_tables r tags lines db :
  let db' := created_store r tags lines db in
  Recipe_objects db' = Recipe_objects db ++ [r] ∧
  Recipe_tag db'
  = filter (λ row, row.1 ≠ recipe_id r ∨ row.2 ∈ tags) (Recipe_tag db)
    ++ ((λ t, (recipe_id r, t)) <$>
        remove_dups (filter (λ t, t ∉ tags_of db (recipe_id r)) tags)) ∧
  IngredientRecipe_objects db' = IngredientRecipe_objects db ++ lines ∧
  same_other_tables db db'.
Proof. done. Qed.

(** A successful [create], and the store it leaves. *)
Lemma create_Ok_iff author validated_data db r db' :
  create author validated_data db = (Ok r, db') ↔
  ∃ data tags cooking_time lines,
    attrs_recipe_ingredients validated_data = Some data ∧
    attrs_tag validated_data = Some tags ∧
    attrs_cooking_time validated_data = Some cooking_time ∧
    r = {| recipe_id := next_pk (Recipe_objects db);
           author := author;
           name := default EmptyString (attrs_name validated_data);
           text := default EmptyString (attrs_text validated_data);
           cooking_time := cooking_time;
           image := default EmptyString (attrs_image validated_data) |} ∧
    lines_of_data (recipe_id r) data = Some lines ∧
    accepted_batch (IngredientRecipe_objects db) lines ∧
    db' = created_store r tags lines db.
Proof.
  unfold create, atomic. rewrite bind_unfold.
  destruct (attrs_recipe_ingredients validated_data) as [data|];
    cbn [getitem ret raise]; [|naive_solver].
  rewrite bind_unfold.
  destruct (attrs_tag validated_data) as [tags|];
    cbn [getitem ret raise]; [|naive_solver].
  rewrite bind_unfold. unfold Recipe_objects_create.
  destruct (attrs_cooking_time validated_data) as [ct|];
    cbn [raise]; [|naive_solver].
  repeat (rewrite bind_unfold; cbn [query write ret]).
  match goal with |- context [_create_ingredients ?r _ _] =>
    set (recipe := r) end.
  match goal with |- context [_create_ingredients recipe _ ?d] =>
    set (db1 := d) end.
  pose proof (_create_ingredients_Ok_iff recipe data db1) as Hiff.
  destruct (_create_ingredients recipe data db1) as [[[]|e] db2].
  - destruct (Hiff db2) as [(lines & Hlines & Hbatch & ->) _]; [done|].
    repeat (rewrite bind_unfold; cbn [tag_set write ret]).
    split.
    + intros [= <- <-]. by exists data, tags, ct, lines.
    + intros (data' & tags' & ct' & lines' & ? & ? & ? & -> & Hlines' & _ & ->).
      simplify_eq. fold recipe in Hlines'. by simplify_eq.
  - split; [done|].
    intros (data' & tags' & ct' & lines & ? & ? & ? & -> & Hlines & Hbatch & ->).
    simplify_eq. fold recipe in Hlines.
    assert ((Raise e, db2) = (Ok tt, set_IngredientRecipe_objects
              (IngredientRecipe_objects db1 ++ lines) db1)) as Habs; [|done].
    apply Hiff. by exists lines.
Qed.

Lemma filter_all {A} (P : A → Prop) `{∀ x, Decision (P x)} (l : list A) :
  Forall P l → filter P l = l.
Proof.
  induction 1 as [|x l Hx _ IH]; [done|]. by rewrite filter_cons, decide_True, IH.
Qed.

Lemma filter_none {A} (P : A → Prop) `{∀ x, Decision (P x)} (l : list A) :
  Forall (λ x, ¬ P x) l → filter P l = [].
Proof.
  induction 1 as [|x l Hx _ IH]; [done|]. by rewrite filter_cons, decide_False, IH.
Qed.

Lemma lines_of_data_recipe id data lines :
  lines_of_data id data = Some lines → Forall (λ line, recipe line = id) lines.
Proof.
  rewrite lines_of_data_Some. induction 1 as [|d line ?? (_ & _ & ?) _ IH];
    by constructor.
Qed.

(** The rows [instance.save()] leaves, and saving twice. *)
Lemma save_rows_idem r (rows : list Recipe) :
  let replace := λ r0, if decide (recipe_id r0 = recipe_id r) then r else r0 in
  let saved :=
    if decide (Exists (λ r0, recipe_id r0 = recipe_id r) rows)
    then replace <$> rows else rows ++ [r] in
  Exists (λ r0, recipe_id r0 = recipe_id r) saved ∧
  replace <$> saved = saved ∧
  recipe_id <$> saved
  = (if decide (Exists (λ r0, recipe_id r0 = recipe_id r) rows)
     then recipe_id <$> rows else (recipe_id <$> rows) ++ [recipe_id r]).
Proof.
  intros replace saved. subst saved.
  assert (∀ x, replace (replace x) = replace x) as Hidem.
  { intros x. unfold replace. repeat case_decide; done. }
  assert (∀ x, recipe_id (replace x) = recipe_id x) as Hid.
  { intros x. unfold replace. by case_decide. }
  case_decide as Hex.
  - split_and!.
    + apply Exists_exists in Hex as (r0 & Hin & Heq). apply Exists_exists.
      exists (replace r0). split; [by apply list_elem_of_fmap_2|].
      by rewrite Hid.
    + rewrite <- list_fmap_compose. apply list_fmap_ext. intros _ x _. apply Hidem.
    + rewrite <- list_fmap_compose. apply list_fmap_ext. intros _ x _. apply Hid.
  - split_and!.
    + apply Exists_app. right. by apply Exists_cons_hd.
    + rewrite fmap_app. f_equal.
      * rewrite <- (list_fmap_id rows) at 2. apply list_fmap_ext.
        intros j x Hx. unfold replace. rewrite decide_False; [done|].
        intros Heq. apply Hex, Exists_exists. exists x.
        split; [by eapply list_elem_of_lookup_2 | done].
      * cbn. unfold replace. by rewrite decide_True.
    + by rewrite fmap_app.
Qed.

(** The rows [tag.set(tags)] leaves for the recipe, and setting twice. *)
Lemma tag_rows_idem id tags (rows : list (pk * pk)) :
  let set_rows := λ rows : list (pk * pk),
    filter (λ row, row.1 ≠ id ∨ row.2 ∈ tags) rows
    ++ ((λ t, (id, t)) <$>
        remove_dups (filter (λ t, t ∉ (filter (λ row, row.1 = id) rows).*2) tags)) in
  set_rows (set_rows rows) = set_rows rows.
Proof.
  intros set_rows.
  assert (∀ t, (id, t) ∈ set_rows rows ↔ t ∈ tags) as Hrows.
  { intros t. unfold set_rows.
    rewrite elem_of_app, list_elem_of_filter, list_elem_of_fmap. cbn.
    setoid_rewrite elem_of_remove_dups. setoid_rewrite list_elem_of_filter.
    setoid_rewrite list_elem_of_fmap. setoid_rewrite list_elem_of_filter.
    split; [naive_solver|]. intros Ht.
    destruct (decide ((id, t) ∈ rows)) as [Hin|Hnin]; [naive_solver|].
    right. exists t. split_and!; [done | | done].
    intros ([id' t'] & -> & Heq & Hin). cbn in *. by subst. }
  unfold set_rows at 1. rewrite filter_all.
  2:{ apply Forall_forall. intros [id' t']. unfold set_rows.
      rewrite elem_of_app, list_elem_of_filter, list_elem_of_fmap. cbn.
      setoid_rewrite elem_of_remove_dups. setoid_rewrite list_elem_of_filter.
      naive_solver. }
  rewrite filter_none; [by rewrite app_nil_r|].
  apply Forall_forall. intros t Ht Hnin. apply Hnin.
  apply list_elem_of_fmap. exists (id, t). split; [done|].
  apply list_elem_of_filter. split; [done | by apply Hrows].
Qed.

Lemma updated_store_idem r tags lines db :
  Forall (λ line, recipe line = recipe_id r) lines →
  updated_store r tags lines (updated_store r tags lines db)
  = updated_store r tags lines db.
Proof.
  intros Hlines.
  destruct (updated_store_tables r tags lines (updated_store r tags lines db))
    as (Hr2 & Ht2 & Hl2 & Ho2 & Hf2 & Hb2 & Hs2 & Hg2).
  destruct (updated_store_tables r tags lines db) as (Hr1 & Ht1 & Hl1 & _).
  destruct (save_rows_idem r (Recipe_objects db)) as (Hex & Hsaved & _).
  apply Store_eq; try done.
  - rewrite Hr2, Hr1, decide_True by done. exact Hsaved.
  - rewrite Ht2. unfold tags_of. rewrite Ht1.
    apply (tag_rows_idem (recipe_id r) tags (Recipe_tag db)).
  - rewrite Hl2, Hl1, filter_app.
    rewrite (filter_none _ lines)
      by (eapply Forall_impl; [exact Hlines|]; naive_solver).
    rewrite app_nil_r. f_equal. apply filter_all.
    apply Forall_forall. by intros line [? _]%list_elem_of_filter.
Qed.

(** What the validation of a [PATCH] reads from the store are the
    ingredients and the tags. *)
Lemma run_validation_PATCH request_user attrs db db0 :
  Ingredient_objects db = Ingredient_objects db0 →
  Tag_objects db = Tag_objects db0 →
  (run_validation request_user "PATCH" attrs db).1
  = (run_validation request_user "PATCH" attrs db0).1.
Proof.
  intros Hingr Htags. rewrite !run_validation_eq.
  assert (field_errors (partial "PATCH") db attrs
          = field_errors (partial "PATCH") db0 attrs) as ->.
  { unfold field_errors, ingredient_errors. by rewrite Hingr, Htags. }
  case_decide; [|done]. rewrite !validate_eq. cbn [fst].
  repeat case_match; try done; by repeat case_bool_decide; naive_solver.
Qed.

End recipe_more.

(** ** The bounds of [cooking_time] and [amount] *)

Section bounds_theory.
Import serializers examples.

Implicit Types (db : Store) (attrs : Attrs) (partial : bool).

Lemma cooking_time_validators_pass (value : Z) :
  run_validators cooking_time_validators value = [] ↔ 1 ≤ value ≤ 1000.
Proof.
  unfold run_validators, cooking_time_validators, MaxValueValidator,
    MinValueValidator, MAX_COOKING_TIME, MIN_COOKING_TIME. cbn.
  repeat case_decide; split; try done; lia.
Qed.

Lemma amount_validators_pass (value : Z) :
  run_validators amount_validators value = [] ↔ 1 ≤ value ≤ 3000.
Proof.
  unfold run_validators, amount_validators, MaxValueValidator,
    MinValueValidator, MAX_AMOUNT_INGREDIENT, MIN_AMOUNT_INGREDIENT. cbn.
  repeat case_decide; split; try done; lia.
Qed.

Lemma errors_of_nil field messages :
  errors_of field messages = [] ↔ messages = [].
Proof. by destruct messages. Qed.

Lemma bind_nil_Forall {A B} (f : A → list B) (l : list A) :
  l ≫= f = [] ↔ Forall (λ x, f x = []) l.
Proof.
  induction l as [|x l IH]; [by split; [constructor|]|].
  rewrite bind_cons, app_nil, Forall_cons, IH. done.
Qed.

(** The fields are accepted when none of them has a message. *)
Lemma field_errors_nil partial db attrs :
  field_errors partial db attrs = [] ↔
  match attrs_tag attrs with
  | None => required partial = []
  | Some tags => Forall (λ t, t ∈ tag_id <$> Tag_objects db) tags
  end ∧
  match attrs_recipe_ingredients attrs with
  | None => required partial = []
  | Some data => Forall (λ d, ingredient_errors partial db d = []) data
  end ∧
  (attrs_name attrs = None → required partial = []) ∧
  (attrs_image attrs = None → required partial = []) ∧
  (attrs_text attrs = None → required partial = []) ∧
  match attrs_cooking_time attrs with
  | None => required partial = []
  | Some value => run_validators cooking_time_validators value = []
  end.
Proof.
  unfold field_errors. rewrite !app_nil, !errors_of_nil.
  assert (∀ pks tags, take 1 (tags ≫= does_not_exist pks) = []
                      ↔ Forall (λ t : pk, t ∈ pks) tags) as Hpks.
  { intros pks tags.
    assert (∀ l : list string, take 1 l = [] ↔ l = []) as ->
      by (by intros [|??]).
    rewrite bind_nil_Forall. apply Forall_iff. intros t.
    unfold does_not_exist. by case_decide. }
  destruct (attrs_tag attrs), (attrs_recipe_ingredients attrs),
    (attrs_name attrs), (attrs_image attrs), (attrs_text attrs),
    (attrs_cooking_time attrs);
    rewrite ?Hpks, ?bind_nil_Forall; naive_solver.
Qed.

Lemma field_errors_cooking_time partial db attrs value :
  attrs_cooking_time attrs = Some value → ¬ 1 ≤ value ≤ 1000 →
  field_errors partial db attrs ≠ [].
Proof.
  intros Hkey Hout (_ & _ & _ & _ & _ & Hct)%field_errors_nil.
  rewrite Hkey in Hct. by apply cooking_time_validators_pass in Hct.
Qed.

Lemma field_errors_amount partial db attrs ingredients d value :
  attrs_recipe_ingredients attrs = Some ingredients →
  d ∈ ingredients → data_amount d = Some value → ¬ 1 ≤ value ≤ 3000 →
  field_errors partial db attrs ≠ [].
Proof.
  intros Hkey Hin Hamount Hout (_ & Hdata & _)%field_errors_nil.
  rewrite Hkey, Forall_forall in Hdata. specialize (Hdata d Hin).
  unfold ingredient_errors in Hdata. rewrite Hamount in Hdata.
  apply app_nil in Hdata as [_ Hdata].
  by apply amount_validators_pass in Hdata.
Qed.

Lemma create_recipe_field_errors author attrs db :
  field_errors false db attrs ≠ [] →
  create_recipe author attrs db
  = (Raise (FieldErrors (field_errors false db attrs)), db).
Proof.
  intros Herr. rewrite create_recipe_eq, run_validation_eq.
  change (serializers.partial "POST") with false. by rewrite decide_False.
Qed.

(** The fields look at the ingredients and at the tags of the store, and at
    nothing else. *)
Lemma field_errors_ext partial db db' attrs :
  Ingredient_objects db' = Ingredient_objects db →
  Tag_objects db' = Tag_objects db →
  field_errors partial db' attrs = field_errors partial db attrs.
Proof.
  intros Hingr Htags. unfold field_errors, ingredient_errors.
  by rewrite Hingr, Htags.
Qed.

Lemma mapM_data_ingredient (data data' : list IngredientData) :
  Forall2 (λ d d', data_ingredient d' = data_ingredient d) data data' →
  mapM data_ingredient data' = mapM data_ingredient data.
Proof.
  induction 1 as [|d d' data data' Hd _ IH]; [done|].
  cbn. by rewrite Hd, IH.
Qed.

(** Within the bounds, the numbers of a submission play no part in what the
    fields accept. *)
Lemma field_errors_same_but_numbers db attrs attrs' :
  same_but_numbers attrs attrs' → numbers_in_bounds attrs' →
  field_errors false db attrs = [] → field_errors false db attrs' = [].
Proof.
  intros (Hname & Htext & Himage & Htag & data & data' & Hdata & Hdata' & Hsame)
    [(ct & Hct & Hbound) (data'' & Hdata'' & Hamounts)].
  rewrite !field_errors_nil.
  rewrite Hname, Htext, Himage, Htag, Hdata, Hdata', Hct.
  intros (Htags & Hentries & ? & ? & ? & _). split_and!; try done.
  - rewrite Hdata' in Hdata''. injection Hdata'' as <-.
    clear Hdata Hdata'. induction Hsame as [|d d' data data' Hd _ IH];
      [constructor|].
    apply Forall_cons in Hentries as [Hentry Hentries].
    apply Forall_cons in Hamounts as [(a & Ha & Hbounda) Hamounts].
    constructor; [|by apply IH].
    unfold ingredient_errors in *. rewrite Hd, Ha.
    apply app_nil in Hentry as [-> _]. cbn [app].
    apply amount_validators_pass.
    unfold MIN_AMOUNT_INGREDIENT, MAX_AMOUNT_INGREDIENT in Hbounda. lia.
  - apply cooking_time_validators_pass.
    unfold MIN_COOKING_TIME, MAX_COOKING_TIME in Hbound. lia.
Qed.

(** The lines of two lists of entries with the same ingredients fall under
    the unique constraint together. *)
Lemma lines_of_data_same_ingredients id (data data' : list IngredientData) lines :
  Forall2 (λ d d', data_ingredient d' = data_ingredient d) data data' →
  Forall (λ d, is_Some (data_amount d)) data' →
  lines_of_data id data = Some lines →
  ∃ lines', lines_of_data id data' = Some lines' ∧
            recipe_ingredient <$> lines' = recipe_ingredient <$> lines.
Proof.
  intros Hsame. revert lines.
  induction Hsame as [|d d' data data' Hd _ IH]; intros lines Hamounts.
  - intros [= <-]. by exists [].
  - apply Forall_cons in Hamounts as [[a' Ha'] Hamounts].
    unfold lines_of_data. cbn.
    destruct (data_ingredient d) as [i|] eqn:Hi; [|done]. cbn.
    destruct (data_amount d) as [a|]; [|done]. cbn.
    destruct (mapM _ data) as [rest|] eqn:Hrest; [|done]. cbn.
    intros [= <-]. destruct (IH rest Hamounts Hrest) as (rest' & Hrest' & Heq).
    unfold lines_of_data in Hrest'. rewrite Hd, Ha', Hrest'. cbn.
    eexists. split; [done|]. cbn. by rewrite Heq.
Qed.

Lemma create_same_other_tables author validated_data db r db' :
  create author validated_data db = (Ok r, db') → same_other_tables db db'.
Proof.
  intros (data & tags & ct & lines & _ & _ & _ & _ & _ & _ & ->)%create_Ok_iff.
  apply created_store_tables.
Qed.

(** A creation that is accepted is accepted with any other numbers within
    the bounds. *)
Lemma create_recipe_same_but_numbers author attrs attrs' db r db' :
  create_recipe author attrs db = (Ok r, db') →
  same_but_numbers attrs attrs' → numbers_in_bounds attrs' →
  ∃ r' db'',
    create_recipe author attrs' db = (Ok r', db'') ∧
    Some (cooking_time r') = attrs_cooking_time attrs' ∧
    ∃ data' lines',
      attrs_recipe_ingredients attrs' = Some data' ∧
      lines_of_data (recipe_id r') data' = Some lines' ∧
      IngredientRecipe_objects db''
      = IngredientRecipe_objects db ++ lines'.
Proof.
  rewrite !create_recipe_eq.
  destruct (run_validation author "POST" attrs db).1 as [vd|e] eqn:Hrun; [|done].
  apply run_validation_Ok in Hrun
    as (-> & Hfield & name & tags & data & ids & Hname & Htags & Hne & Hnd
        & Hdata & Hne' & Hmap & Hnd' & Hfree).
  intros (data0 & tags0 & ct & lines & ? & ? & Hct & Hr & Hlines & Hbatch & ->)
    %create_Ok_iff Hsame Hbounds.
  simplify_eq.
  pose proof Hsame
    as (Hname' & Htext' & Himage' & Htag' & data1 & data' & ? & Hdata' & Hentries).
  pose proof Hbounds as [(ct' & Hct' & _) (data2 & ? & Hamounts)].
  simplify_eq.
  assert ((run_validation author "POST" attrs' db).1 = Ok attrs') as ->.
  { apply run_validation_Ok. split; [done|]. split.
    - by apply (field_errors_same_but_numbers db attrs attrs').
    - exists name, tags, data', ids. rewrite Hname', Htag'.
      split_and!; try done.
      + intros ->. apply Forall2_nil_inv_r in Hentries. done.
      + by rewrite (mapM_data_ingredient _ _ Hentries). }
  destruct (lines_of_data_same_ingredients
              (next_pk (Recipe_objects db)) data data' lines Hentries)
    as (lines' & Hlines' & Hkeys); [|done|].
  { eapply Forall_impl; [exact Hamounts|]. intros d (a & -> & _). by eexists. }
  eexists _, _. split.
  - apply create_Ok_iff. exists data', tags, ct', lines'.
    split_and!; try done; [by rewrite Htag'|].
    destruct Hbatch as [Hbatch1 Hbatch2]. split.
    + by rewrite Hkeys.
    + apply Forall_forall. intros line' Hin'.
      assert (recipe_ingredient line' ∈ recipe_ingredient <$> lines) as
        (line & Heq & Hin)%list_elem_of_fmap
        by (rewrite <- Hkeys; by apply list_elem_of_fmap_2).
      rewrite Heq. rewrite Forall_forall in Hbatch2. by apply Hbatch2.
  - cbn. split; [done|]. by exists data', lines'.
Qed.

End bounds_theory.

(** C6. The validators of [cooking_time] pass exactly on the integers from 1
    to 1000, and those of [amount] exactly on the integers from 1 to 3000,
    both ends included. A creation whose cooking time is outside its range,
    or one of whose entries has an amount outside its range, raises the
    errors of the fields and writes nothing, whatever else it carries. And
    inside the ranges the numbers play no part in what is accepted: when a
    creation succeeds, the submission that differs from it in the cooking
    time and in the amounts alone, all of them within their ranges (the ends
    1, 1000 and 1, 3000 among them), succeeds on the same store as well, and
    stores that cooking time and those amounts. *)
Theorem numeric_fields_have_inclusive_bounds :
  (∀ value, run_validators cooking_time_validators value = [] ↔ 1 ≤ value ≤ 1000) ∧
  (∀ value, run_validators amount_validators value = [] ↔ 1 ≤ value ≤ 3000) ∧
  (∀ author attrs db value,
     serializers.attrs_cooking_time attrs = Some value → ¬ 1 ≤ value ≤ 1000 →
     ∃ errors, serializers.create_recipe author attrs db
               = (Raise (serializers.FieldErrors errors), db)) ∧
  (∀ author attrs db ingredients d value,
     serializers.attrs_recipe_ingredients attrs = Some ingredients →
     d ∈ ingredients → serializers.data_amount d = Some value →
     ¬ 1 ≤ value ≤ 3000 →
     ∃ errors, serializers.create_recipe author attrs db
               = (Raise (serializers.FieldErrors errors), db)) ∧
  (∀ author attrs attrs' db r db',
     serializers.create_recipe author attrs db = (Ok r, db') →
     serializers.same_but_numbers attrs attrs' →
     serializers.numbers_in_bounds attrs' →
     ∃ r' db'',
       serializers.create_recipe author attrs' db = (Ok r', db'') ∧
       Some (cooking_time r') = serializers.attrs_cooking_time attrs' ∧
       ∃ data' lines',
         serializers.attrs_recipe_ingredients attrs' = Some data' ∧
         examples.lines_of_data (recipe_id r') data' = Some lines' ∧
         IngredientRecipe_objects db''
         = IngredientRecipe_objects db ++ lines').
Proof.
  split_and!.
  - apply cooking_time_validators_pass.
  - apply amount_validators_pass.
  - intros author attrs db value Hkey Hout. eexists.
    by eapply create_recipe_field_errors, field_errors_cooking_time.
  - intros author attrs db ingredients d value Hkey Hin Hamount Hout. eexists.
    by eapply create_recipe_field_errors, field_errors_amount.
  - apply create_recipe_same_but_numbers.
Qed.

Lemma numeric_fields_have_inclusive_bounds_witness :
  (∃ errors,
     serializers.create_recipe 4 (serializers.boundary_attrs 1001 5)
       serializers.soup_store
     = (Raise (serializers.FieldErrors errors), serializers.soup_store)) ∧
  (∃ errors,
     serializers.create_recipe 4 (serializers.boundary_attrs 5 0)
       serializers.soup_store
     = (Raise (serializers.FieldErrors errors), serializers.soup_store)) ∧
  (∃ r' db'',
     serializers.create_recipe 4 (serializers.boundary_attrs 1000 3000)
       serializers.soup_store = (Ok r', db'') ∧
     Some (cooking_time r')
     = serializers.attrs_cooking_time (serializers.boundary_attrs 1000 3000) ∧
     ∃ data' lines',
       serializers.attrs_recipe_ingredients (serializers.boundary_attrs 1000 3000)
       = Some data' ∧
       examples.lines_of_data (recipe_id r') data' = Some lines' ∧
       IngredientRecipe_objects db''
       = IngredientRecipe_objects serializers.soup_store ++ lines') ∧
  (∃ r' db'',
     serializers.create_recipe 4 (serializers.boundary_attrs 1 1)
       serializers.soup_store = (Ok r', db'') ∧
     Some (cooking_time r')
     = serializers.attrs_cooking_time (serializers.boundary_attrs 1 1) ∧
     ∃ data' lines',
       serializers.attrs_recipe_ingredients (serializers.boundary_attrs 1 1)
       = Some data' ∧
       examples.lines_of_data (recipe_id r') data' = Some lines' ∧
       IngredientRecipe_objects db''
       = IngredientRecipe_objects serializers.soup_store ++ lines').
Proof.
  destruct numeric_fields_have_inclusive_bounds
    as (_ & _ & Hcooking_time & Hamount & Haccepted).
  assert (∀ cooking_time amount,
            serializers.same_but_numbers (serializers.boundary_attrs 30 10)
              (serializers.boundary_attrs cooking_time amount)) as Hsame.
  { intros ct a. split_and!; try reflexivity. eexists _, _.
    split_and!; [reflexivity | reflexivity |]. by repeat constructor. }
  assert (∃ r db', serializers.create_recipe 4 (serializers.boundary_attrs 30 10)
                     serializers.soup_store = (Ok r, db')) as (r & db' & Hcreate)
    by (eexists _, _; by vm_compute).
  split_and!.
  - apply (Hcooking_time 4 _ serializers.soup_store 1001); [reflexivity | lia].
  - eapply (Hamount 4 _ serializers.soup_store _ _ 0);
      [reflexivity | left | reflexivity | lia].
  - apply (Haccepted 4 _ _ _ r db' Hcreate (Hsame 1000 3000)). split.
    + eexists. split; [reflexivity|].
      unfold MIN_COOKING_TIME, MAX_COOKING_TIME. lia.
    + eexists. split; [reflexivity|]. apply Forall_singleton.
      eexists. split; [reflexivity|].
      unfold MIN_AMOUNT_INGREDIENT, MAX_AMOUNT_INGREDIENT. lia.
  - apply (Haccepted 4 _ _ _ r db' Hcreate (Hsame 1 1)). split.
    + eexists. split; [reflexivity|].
      unfold MIN_COOKING_TIME, MAX_COOKING_TIME. lia.
    + eexists. split; [reflexivity|]. apply Forall_singleton.
      eexists. split; [reflexivity|].
      unfold MIN_AMOUNT_INGREDIENT, MAX_AMOUNT_INGREDIENT. lia.
Defined.

(** * Further properties *)

(** ** [validate_unique_for_list] on a longer input *)

(** X1. What follows the first repeated element has no influence: when the
    validator raises on a sequence, it raises the same exception on every
    sequence that extends it; and when it accepts a sequence, it accepts
    every prefix of it. *)
Theorem validate_unique_for_list_extension
    {A : Type} `{Countable A} (name : string) (data more : list A) :
  (∀ e, validators.validate_unique_for_list name data = Raise e →
        validators.validate_unique_for_list name (data ++ more) = Raise e) ∧
  (validators.validate_unique_for_list name (data ++ more) = Ok tt →
   validators.validate_unique_for_list name data = Ok tt).
Proof.
  split.
  - intros [n x]. rewrite !validate_unique_for_list_Raise.
    intros [-> (pre & post & -> & Hnd & Hin)]. split; [done|].
    exists pre, (post ++ more). by rewrite <- app_assoc.
  - rewrite !validate_unique_for_list_Ok. by intros [? _]%NoDup_app.
Qed.

Lemma validate_unique_for_list_extension_witness :
  validators.validate_unique_for_list "Теги" ([3; 1; 1] ++ [7; 7])
  = Raise (validators.RepeatedElement "Теги" 1).
Proof.
  apply (proj1 (validate_unique_for_list_extension "Теги" [3; 1; 1] [7; 7])).
  by vm_compute.
Defined.

(** ** More on the shopping list *)

Section shopping_theory.
Import utils examples.

Lemma total_amount_cons (row : Row) (rows : list Row) :
  total_amount (row :: rows) = row.2 + total_amount rows.
Proof. reflexivity. Qed.

Lemma total_amount_add_to_group key a (groups : list Row) :
  total_amount (add_to_group key a groups) = total_amount groups + a.
Proof.
  induction groups as [|[k total] groups IH].
  - unfold total_amount. cbn. lia.
  - cbn [add_to_group]. case_decide; rewrite !total_amount_cons; cbn [snd]; lia.
Qed.

Lemma total_amount_foldl (rows groups : list Row) :
  total_amount (foldl (λ groups row, add_to_group row.1 row.2 groups) groups rows)
  = total_amount groups + total_amount rows.
Proof.
  revert groups. induction rows as [|row rows IH]; intros groups.
  - unfold total_amount. cbn. lia.
  - cbn [foldl]. rewrite IH, total_amount_add_to_group, total_amount_cons. lia.
Qed.

Lemma filter_recipe__buylist__user_own db u :
  filter_recipe__buylist__user db u
  = IngredientRecipe_objects db ≫= λ line,
      (λ _, line) <$>
        filter (λ b, rel_recipe b = recipe line)
               (filter (λ b, rel_user b = u) (BuyList_objects db)).
Proof.
  unfold filter_recipe__buylist__user.
  induction (IngredientRecipe_objects db) as [|line lines IH]; [done|].
  rewrite !bind_cons, IH. do 2 f_equal.
  rewrite list_filter_filter. apply list_filter_iff. naive_solver.
Qed.

Lemma bind_Permutation_ext {A B} (f g : A → list B) (l k : list A) :
  (∀ x, f x ≡ₚ g x) → l ≡ₚ k → l ≫= f ≡ₚ k ≫= g.
Proof.
  intros Hfg Hlk. rewrite <- Hlk. clear k Hlk.
  induction l as [|x l IH]; [done|]. by rewrite !bind_cons, Hfg, IH.
Qed.

(** The rows of a cart are the same, up to their order, in two stores that
    hold the same ingredients, ingredient lines and cart rows of the user,
    in whatever order. *)
Lemma cart_rows_Permutation db db' u :
  Ingredient_objects db' ≡ₚ Ingredient_objects db →
  IngredientRecipe_objects db' ≡ₚ IngredientRecipe_objects db →
  filter (λ b, rel_user b = u) (BuyList_objects db')
  ≡ₚ filter (λ b, rel_user b = u) (BuyList_objects db) →
  cart_rows db' u ≡ₚ cart_rows db u.
Proof.
  intros Hingr Hlines Hcart. unfold cart_rows, values.
  rewrite !filter_recipe__buylist__user_own.
  apply bind_Permutation_ext.
  - intros line. by rewrite Hingr.
  - apply bind_Permutation_ext; [|done]. intros line. by rewrite Hcart.
Qed.

Lemma Sum_amount_Permutation key (rows rows' : list Row) :
  rows ≡ₚ rows' → Sum_amount key rows = Sum_amount key rows'.
Proof.
  induction 1 as [|row rows rows' _ IH|row1 row2 rows|rows1 rows2 rows3 _ IH1 _ IH2].
  - done.
  - by rewrite !Sum_amount_cons, IH.
  - rewrite !Sum_amount_cons. lia.
  - congruence.
Qed.

Lemma elem_of_annotate_Sum key total (rows : list Row) :
  (key, total) ∈ annotate_Sum rows ↔
  key ∈ rows.*1 ∧ total = Sum_amount key rows.
Proof.
  destruct (annotate_Sum_spec rows) as (Hnd & Hkeys & Hsum). split.
  - intros Hin. split; [|by apply Hsum].
    apply Hkeys, list_elem_of_fmap. by exists (key, total).
  - intros [Hkey ->].
    apply Hkeys, list_elem_of_fmap in Hkey as ([key' total] & -> & Hin).
    cbn. by rewrite <- (Hsum _ _ Hin).
Qed.

(** The groups do not depend on the order of the rows, but for their own
    order. *)
Lemma annotate_Sum_Permutation (rows rows' : list Row) :
  rows ≡ₚ rows' → annotate_Sum rows ≡ₚ annotate_Sum rows'.
Proof.
  intros Hrows. apply NoDup_Permutation.
  - eapply NoDup_fmap_1, (annotate_Sum_spec rows).
  - eapply NoDup_fmap_1, (annotate_Sum_spec rows').
  - intros [key total]. rewrite !elem_of_annotate_Sum.
    by rewrite (Sum_amount_Permutation key _ _ Hrows), Hrows.
Qed.

Lemma shopping_lines_Permutation db db' u :
  cart_rows db' u ≡ₚ cart_rows db u →
  shopping_lines db' u ≡ₚ shopping_lines db u.
Proof.
  intros Hrows. unfold shopping_lines. by rewrite (annotate_Sum_Permutation _ _ Hrows).
Qed.

Lemma Sum_amount_bounds (lo hi : Z) (key : string * string) (rows : list Row) :
  0 ≤ hi → Forall (λ row, lo ≤ row.2 ≤ hi) rows →
  Sum_amount key rows ≤ hi * Z.of_nat (length rows) ∧
  (0 ≤ lo → 0 ≤ Sum_amount key rows) ∧
  (0 ≤ lo → key ∈ rows.*1 → lo ≤ Sum_amount key rows).
Proof.
  intros Hhi. induction 1 as [|row rows Hrow _ IH].
  - rewrite Sum_amount_nil. cbn. split_and!; [lia | lia |].
    by intros _ ?%elem_of_nil.
  - rewrite Sum_amount_cons, length_cons, fmap_cons.
    destruct IH as (IH1 & IH2 & IH3). split_and!.
    + case_decide; nia.
    + intros Hlo. specialize (IH2 Hlo). case_decide; lia.
    + intros Hlo [Hkey|Hin]%elem_of_cons.
      * specialize (IH2 Hlo). rewrite decide_True by done. lia.
      * specialize (IH3 Hlo Hin). case_decide; lia.
Qed.

Lemma cart_rows_amounts lo hi db u :
  amounts_in_bounds lo hi db →
  Forall (λ row : Row, lo ≤ row.2 ≤ hi) (cart_rows db u).
Proof.
  unfold amounts_in_bounds. rewrite !Forall_forall. intros Hall row.
  unfold cart_rows, values, filter_recipe__buylist__user.
  intros (line & (i & -> & _)%list_elem_of_fmap & Hline)%list_elem_of_bind.
  apply list_elem_of_bind in Hline as (line' & (b & -> & _)%list_elem_of_fmap & Hin).
  cbn. by apply Hall.
Qed.

End shopping_theory.

(** X2. Grouping loses nothing and invents nothing: the amounts of the
    groups of a shopping list add up to the amounts of the rows of the
    cart. *)
Theorem annotate_Sum_conserves_total (db : Store) (u : pk) :
  examples.total_amount (utils.annotate_Sum (utils.cart_rows db u))
  = examples.total_amount (utils.cart_rows db u).
Proof.
  unfold utils.annotate_Sum. rewrite total_amount_foldl.
  unfold examples.total_amount at 1. cbn. lia.
Qed.

(** X3. The shopping list of a user is computed from the ingredients, the
    ingredient lines and the cart rows of that user alone, and the order of
    the rows of these tables plays no part in its content: the text is the
    header followed by the lines of the groups, and two stores that hold
    the same ingredients, the same ingredient lines and the same cart rows
    of the user, in whatever order, give the same lines up to their order,
    whatever the carts of the other users, the favorites, the
    subscriptions and the recipes hold. *)
Theorem get_ingredients_for_download_own_cart_only (db db' : Store) (u : pk) :
  Ingredient_objects db' ≡ₚ Ingredient_objects db →
  IngredientRecipe_objects db' ≡ₚ IngredientRecipe_objects db →
  filter (λ b, rel_user b = u) (BuyList_objects db')
  ≡ₚ filter (λ b, rel_user b = u) (BuyList_objects db) →
  utils.get_ingredients_for_download db' u
  = String.concat utils.LF ("Список покупок:" :: examples.shopping_lines db' u) ∧
  examples.shopping_lines db' u ≡ₚ examples.shopping_lines db u.
Proof.
  intros Hingr Hlines Hcart. split; [done|].
  by apply shopping_lines_Permutation, cart_rows_Permutation.
Qed.

Lemma get_ingredients_for_download_own_cart_only_witness :
  examples.shopping_lines examples.salt_store_shuffled 7
  ≡ₚ examples.shopping_lines utils.salt_store 7.
Proof.
  apply (get_ingredients_for_download_own_cart_only
           utils.salt_store examples.salt_store_shuffled 7).
  - reflexivity.
  - apply Permutation_swap.
  - reflexivity.
Defined.

(** X4. When every stored amount lies between two bounds [lo] and [hi]
    that are not negative (the model validators of [amount] keep it between
    [MIN_AMOUNT_INGREDIENT] and [MAX_AMOUNT_INGREDIENT]), the amount of every
    group of a shopping list is at least [lo] and at most [hi] times the
    number of rows of the cart: no line of the list shows an amount below
    the least amount of a single ingredient line. *)
Theorem shopping_list_amounts_in_bounds
    (lo hi : Z) (db : Store) (u : pk) (key : string * string) (total : Z) :
  0 ≤ lo → 0 ≤ hi →
  examples.amounts_in_bounds lo hi db →
  (key, total) ∈ utils.annotate_Sum (utils.cart_rows db u) →
  lo ≤ total ≤ hi * Z.of_nat (length (utils.cart_rows db u)).
Proof.
  intros Hlo0 Hhi0 Hbounds Hgroup.
  destruct (annotate_Sum_spec (utils.cart_rows db u)) as (_ & Hkeys & Hsum).
  rewrite (Hsum key total Hgroup).
  assert (key ∈ (utils.cart_rows db u).*1) as Hkey.
  { apply Hkeys, list_elem_of_fmap. by exists (key, total). }
  destruct (Sum_amount_bounds lo hi key (utils.cart_rows db u))
    as (Hhi & _ & Hlo); [done | by apply cart_rows_amounts |].
  split; [by apply Hlo | done].
Qed.

Lemma shopping_list_amounts_in_bounds_witness :
  examples.amounts_in_bounds MIN_AMOUNT_INGREDIENT MAX_AMOUNT_INGREDIENT
    utils.salt_store ∧
  (("Salt", "g"), 15) ∈ utils.annotate_Sum (utils.cart_rows utils.salt_store 7) ∧
  MIN_AMOUNT_INGREDIENT ≤ 15 ≤
  MAX_AMOUNT_INGREDIENT * Z.of_nat (length (utils.cart_rows utils.salt_store 7)).
Proof.
  assert (examples.amounts_in_bounds MIN_AMOUNT_INGREDIENT MAX_AMOUNT_INGREDIENT
            utils.salt_store) as Hbounds
    by (repeat constructor; by vm_compute).
  assert ((("Salt", "g"), 15)
          ∈ utils.annotate_Sum (utils.cart_rows utils.salt_store 7)) as Hgroup
    by (vm_compute; left).
  split; [exact Hbounds | split; [exact Hgroup|]].
  refine (shopping_list_amounts_in_bounds MIN_AMOUNT_INGREDIENT
            MAX_AMOUNT_INGREDIENT utils.salt_store 7 _ _ _ _ Hbounds Hgroup);
    by vm_compute.
Defined.

(** ** More on favorites and carts *)

Section relation_more.
Import serializers examples.

Implicit Types (db : Store) (model : RelationModel) (u recipe_id : pk).

Lemma get_object_or_404_eq id db :
  get_object_or_404 id db
  = (match head (filter (λ r, models.recipe_id r = id) (Recipe_objects db)) with
     | Some r => Ok r
     | None => Raise Http404
     end, db).
Proof.
  unfold get_object_or_404. rewrite bind_unfold. cbn [query].
  by destruct (head _).
Qed.

Lemma recipe_known_head id db :
  recipe_known id db ↔
  is_Some (head (filter (λ r, models.recipe_id r = id) (Recipe_objects db))).
Proof.
  unfold recipe_known. rewrite Exists_exists. split.
  - intros (r & Hin & Hid).
    destruct (filter _ (Recipe_objects db)) as [|r0 rest] eqn:Hfilter; [|by eexists].
    assert (r ∈ filter (λ r, models.recipe_id r = id) (Recipe_objects db)) as Hr
      by by apply list_elem_of_filter.
    rewrite Hfilter in Hr. by apply elem_of_nil in Hr.
  - intros [r Hhead].
    destruct (filter _ (Recipe_objects db)) as [|r0 rest] eqn:Hfilter; [done|].
    injection Hhead as ->.
    assert (r ∈ filter (λ r, models.recipe_id r = id) (Recipe_objects db)) as Hr
      by (rewrite Hfilter; left).
    apply list_elem_of_filter in Hr as [? ?]. by exists r.
Qed.

(** [add_recipe] by cases on the store it reads. *)
Lemma add_recipe_eq model u recipe_id db :
  add_recipe model u recipe_id db
  = if decide (pair_stored model u recipe_id db)
    then (Raise (AlreadyAdded (verbose_name model)), db)
    else if decide (recipe_known recipe_id db)
    then (Ok {| rel_user := u; rel_recipe := recipe_id |},
          set_relation_objects model
            (relation_objects model db
             ++ [ {| rel_user := u; rel_recipe := recipe_id |} ]) db)
    else (Raise Http404, db).
Proof.
  unfold add_recipe, pair_stored.
  rewrite bind_unfold, BaseAddRecipeSerializer_validate_eq.
  case_decide as Hstored; [done|].
  unfold BaseAddRecipeSerializer_create. rewrite bind_unfold, get_object_or_404_eq.
  case_decide as Hknown.
  - pose proof Hknown as [r Hhead]%recipe_known_head. rewrite Hhead.
    assert (models.recipe_id r = recipe_id) as Hid.
    { destruct (filter _ (Recipe_objects db)) as [|r0 rest] eqn:Hfilter; [done|].
      injection Hhead as ->.
      assert (r ∈ filter (λ r, models.recipe_id r = recipe_id) (Recipe_objects db))
        as Hr by (rewrite Hfilter; left).
      by apply list_elem_of_filter in Hr as [? _]. }
    unfold relation_objects_create. rewrite !bind_unfold. cbn [query].
    rewrite Hid, decide_False by done.
    by rewrite !bind_unfold.
  - destruct (head _) as [r|] eqn:Hhead; [|done].
    exfalso. apply Hknown, recipe_known_head. by eexists.
Qed.

Lemma relation_objects_set_other model model' rows db :
  model ≠ model' →
  relation_objects model' (set_relation_objects model rows db)
  = relation_objects model' db.
Proof. by destruct model, model'. Qed.

Lemma add_recipe_tables model u recipe_id db :
  let db' := (add_recipe model u recipe_id db).2 in
  Ingredient_objects db' = Ingredient_objects db ∧
  Recipe_objects db' = Recipe_objects db ∧
  Recipe_tag db' = Recipe_tag db ∧
  IngredientRecipe_objects db' = IngredientRecipe_objects db ∧
  Subscription_objects db' = Subscription_objects db ∧
  Tag_objects db' = Tag_objects db ∧
  (∀ model', model ≠ model' →
             relation_objects model' db' = relation_objects model' db).
Proof.
  rewrite add_recipe_eq. repeat case_decide; cbn [snd]; try done.
  split_and!; try by destruct model.
  intros model' Hne. by apply relation_objects_set_other.
Qed.

End relation_more.

(** X5. Adding a recipe to the favorites or to the cart has three outcomes,
    decided by the store alone: the pair is already stored and the call
    raises the exception for a recipe already added; or it is not and no
    recipe has that primary key, and the call raises [Http404]; or the row
    is appended to the table of the model. A call that raises leaves the
    store as it was, and the unique constraint of the table is never what
    makes the call fail. *)
Theorem add_recipe_outcomes
    (model : RelationModel) (u recipe_id : pk) (db : Store) :
  (examples.pair_stored model u recipe_id db →
   serializers.add_recipe model u recipe_id db
   = (Raise (serializers.AlreadyAdded (verbose_name model)), db)) ∧
  (¬ examples.pair_stored model u recipe_id db →
   ¬ examples.recipe_known recipe_id db →
   serializers.add_recipe model u recipe_id db = (Raise serializers.Http404, db)) ∧
  (¬ examples.pair_stored model u recipe_id db →
   examples.recipe_known recipe_id db →
   ∃ db', serializers.add_recipe model u recipe_id db
          = (Ok {| rel_user := u; rel_recipe := recipe_id |}, db') ∧
          relation_objects model db'
          = relation_objects model db
            ++ [ {| rel_user := u; rel_recipe := recipe_id |} ]) ∧
  (∀ e db', serializers.add_recipe model u recipe_id db = (Raise e, db') →
            db' = db ∧ ∀ constraint, e ≠ serializers.IntegrityError constraint).
Proof.
  rewrite add_recipe_eq. split_and!.
  - intros Hstored. by rewrite decide_True.
  - intros Hstored Hknown. by rewrite !decide_False.
  - intros Hstored Hknown. rewrite decide_False, decide_True by done.
    eexists. split; [done|]. apply relation_objects_set.
  - intros e db'. repeat case_decide; intros [= <- <-]; by split.
Qed.

Lemma add_recipe_outcomes_witness :
  (¬ examples.pair_stored BuyList 7 5 serializers.soup_store ∧
   ¬ examples.recipe_known 5 serializers.soup_store ∧
   serializers.add_recipe BuyList 7 5 serializers.soup_store
   = (Raise serializers.Http404, serializers.soup_store)) ∧
  (examples.recipe_known 1 serializers.soup_store ∧
   ∃ db', serializers.add_recipe BuyList 7 1 serializers.soup_store
          = (Ok {| rel_user := 7; rel_recipe := 1 |}, db') ∧
          relation_objects BuyList db' = [ {| rel_user := 7; rel_recipe := 1 |} ]).
Proof.
  assert (∀ id, ¬ examples.pair_stored BuyList 7 id serializers.soup_store)
    as Hfree by (intros id Hex; inversion Hex).
  assert (¬ examples.recipe_known 5 serializers.soup_store) as Hunknown.
  { intros Hex. apply Exists_cons in Hex as [Hex|Hex]; [done | inversion Hex]. }
  assert (examples.recipe_known 1 serializers.soup_store) as Hknown
    by by apply Exists_cons_hd.
  split.
  - split_and!; [apply Hfree | exact Hunknown |].
    exact (proj1 (proj2 (add_recipe_outcomes BuyList 7 5 serializers.soup_store))
             (Hfree 5) Hunknown).
  - split; [exact Hknown|].
    exact (proj1 (proj2 (proj2 (add_recipe_outcomes BuyList 7 1
                                  serializers.soup_store)))
             (Hfree 1) Hknown).
Defined.

(** X6. Whatever its outcome, [add_recipe] keeps the unique constraint of
    the table it writes to (no (user, recipe) pair is stored twice), and it
    leaves the table of the other relation model, the recipes, their tags
    and lines, the ingredients, the subscriptions and the tags as they
    were. *)
Theorem add_recipe_keeps_tables
    (model : RelationModel) (u recipe_id : pk) (db : Store) :
  let db' := (serializers.add_recipe model u recipe_id db).2 in
  (serializers.unique_relation model db → serializers.unique_relation model db') ∧
  (∀ model', model ≠ model' →
             relation_objects model' db' = relation_objects model' db) ∧
  Recipe_objects db' = Recipe_objects db ∧
  Recipe_tag db' = Recipe_tag db ∧
  IngredientRecipe_objects db' = IngredientRecipe_objects db ∧
  Ingredient_objects db' = Ingredient_objects db ∧
  Subscription_objects db' = Subscription_objects db ∧
  Tag_objects db' = Tag_objects db.
Proof.
  intros db'.
  destruct (add_recipe_tables model u recipe_id db)
    as (? & ? & ? & ? & ? & ? & ?).
  split_and!; try done.
  subst db'. unfold serializers.unique_relation. rewrite add_recipe_eq.
  repeat case_decide; cbn [snd]; try done.
  intros Hnd. rewrite relation_objects_set. apply NoDup_app.
  split_and!; [done | | apply NoDup_singleton].
  intros row Hin ->%list_elem_of_singleton.
  match goal with H : ¬ examples.pair_stored _ _ _ _ |- _ => apply H end.
  apply Exists_exists. eexists. split; [exact Hin | done].
Qed.

Lemma add_recipe_keeps_tables_witness :
  serializers.unique_relation Favorite serializers.soup_store ∧
  serializers.unique_relation Favorite
    (serializers.add_recipe Favorite 7 1 serializers.soup_store).2.
Proof.
  assert (serializers.unique_relation Favorite serializers.soup_store) as Hnd
    by constructor.
  split; [exact Hnd|].
  exact (proj1 (add_recipe_keeps_tables Favorite 7 1 serializers.soup_store) Hnd).
Defined.

(** X7. Favoriting a recipe changes nobody's shopping list, and putting a
    recipe in one's cart changes nobody else's, whether the call succeeds
    or raises: the lines of the list are the same as before, up to their
    order. *)
Theorem add_recipe_leaves_other_shopping_lists
    (model : RelationModel) (u v recipe_id : pk) (db : Store) :
  model = Favorite ∨ u ≠ v →
  examples.shopping_lines (serializers.add_recipe model u recipe_id db).2 v
  ≡ₚ examples.shopping_lines db v.
Proof.
  intros Hother.
  destruct (add_recipe_tables model u recipe_id db)
    as (Hingr & _ & _ & Hlines & _ & _ & Hrel).
  apply shopping_lines_Permutation, cart_rows_Permutation;
    [by rewrite Hingr | by rewrite Hlines |].
  destruct (decide (model = BuyList)) as [->|Hmodel].
  - destruct Hother as [|Hne]; [done|]. rewrite add_recipe_eq.
    repeat case_decide; cbn [snd]; try done.
    cbn. rewrite filter_app, filter_cons, decide_False by done.
    by rewrite filter_nil, app_nil_r.
  - by rewrite (Hrel BuyList Hmodel : BuyList_objects _ = _).
Qed.

Lemma add_recipe_leaves_other_shopping_lists_witness :
  examples.shopping_lines
    (serializers.add_recipe BuyList 9 1 utils.salt_store).2 7
  ≡ₚ examples.shopping_lines utils.salt_store 7.
Proof.
  apply (add_recipe_leaves_other_shopping_lists BuyList 9 7 1 utils.salt_store).
  right. discriminate.
Defined.

(** X8. Once a recipe is added to the cart of a user, every ingredient line
    of that recipe whose ingredient is stored has its
    (name, measurement unit) among the groups of the user's shopping
    list. *)
Theorem added_recipe_is_on_shopping_list
    (u recipe_id : pk) (db : Store) (row : BaseUserRecipeRelation) (db' : Store)
    (line : IngredientRecipe) (i : Ingredient) :
  serializers.add_recipe BuyList u recipe_id db = (Ok row, db') →
  line ∈ IngredientRecipe_objects db → recipe line = recipe_id →
  i ∈ Ingredient_objects db → ingredient_id i = ingredient line →
  (ingredient_name i, measurement_unit i)
  ∈ (utils.annotate_Sum (utils.cart_rows db' u)).*1.
Proof.
  intros Hadd Hline Hrecipe Hi Hid.
  destruct (annotate_Sum_spec (utils.cart_rows db' u)) as (_ & Hkeys & _).
  apply Hkeys. rewrite add_recipe_eq in Hadd.
  repeat case_decide; try done. injection Hadd as <- <-.
  apply list_elem_of_fmap.
  exists (ingredient_name i, measurement_unit i, amount line). split; [done|].
  unfold utils.cart_rows, utils.values. apply list_elem_of_bind.
  exists line. split.
  - apply list_elem_of_fmap. exists i. split; [done|].
    by apply list_elem_of_filter.
  - unfold utils.filter_recipe__buylist__user. apply list_elem_of_bind.
    exists line. split; [|done]. apply list_elem_of_fmap.
    exists {| rel_user := u; rel_recipe := recipe_id |}. split; [done|].
    apply list_elem_of_filter. split; [done|]. cbn. set_solver.
Qed.

Lemma added_recipe_is_on_shopping_list_witness :
  ∃ row db',
    serializers.add_recipe BuyList 7 1 serializers.soup_store = (Ok row, db') ∧
    ("Salt", "g") ∈ (utils.annotate_Sum (utils.cart_rows db' 7)).*1.
Proof.
  eexists _, _. split; [by vm_compute|].
  refine (added_recipe_is_on_shopping_list 7 1 serializers.soup_store _ _
            {| ingredient := 1; recipe := 1; amount := 10 |}
            {| ingredient_id := 1; ingredient_name := "Salt";
               measurement_unit := "g" |} _ _ _ _ _).
  - by vm_compute.
  - left.
  - reflexivity.
  - left.
  - reflexivity.
Defined.

(** ** More on subscriptions *)

Section subscription_more.
Import serializers.

(** [subscribe] by cases on the store it reads. *)
Lemma subscribe_eq u author db :
  subscribe u author db
  = if decide (subscribed db u author)
    then (Raise (AlreadySubscribed author), db)
    else if decide (u = author) then (Raise SelfSubscription, db)
    else (Ok author,
          set_Subscription_objects
            (Subscription_objects db
             ++ [ {| sub_user := u; sub_author := author |} ]) db).
Proof.
  unfold subscribe. rewrite bind_unfold, SubscriptionSerializer_validate_eq.
  by repeat case_decide.
Qed.

End subscription_more.

(** X9. [subscribe] succeeds exactly when the user is not the author and
    the pair is not stored yet; it then appends the pair, after which the
    pair is stored and subscribing again raises the exception for an
    existing subscription. A call that raises leaves the store as it was. *)
Theorem subscribe_outcomes (u author : pk) (db : Store) :
  ((∃ r db', serializers.subscribe u author db = (Ok r, db')) ↔
   u ≠ author ∧ ¬ serializers.subscribed db u author) ∧
  (∀ r db', serializers.subscribe u author db = (Ok r, db') →
            r = author ∧
            Subscription_objects db'
            = Subscription_objects db ++ [ {| sub_user := u; sub_author := author |} ] ∧
            serializers.subscribed db' u author ∧
            serializers.subscribe u author db'
            = (Raise (serializers.AlreadySubscribed author), db')) ∧
  (∀ e db', serializers.subscribe u author db = (Raise e, db') → db' = db).
Proof.
  rewrite subscribe_eq. split_and!.
  - repeat case_decide; split; naive_solver.
  - intros r db'. repeat case_decide; try done. intros [= <- <-].
    assert (serializers.subscribed
              (set_Subscription_objects
                 (Subscription_objects db
                  ++ [ {| sub_user := u; sub_author := author |} ]) db)
              u author) as Hnow.
    { apply Exists_app. right. by apply Exists_cons_hd. }
    split_and!; [done | done | done |].
    by rewrite subscribe_eq, decide_True.
  - intros e db'. by repeat case_decide; intros [= <- <-].
Qed.

Lemma subscribe_outcomes_witness :
  ∃ db', serializers.subscribe 1 2 empty_store = (Ok 2, db') ∧
         serializers.subscribe 1 2 db'
         = (Raise (serializers.AlreadySubscribed 2), db').
Proof.
  eexists. split; [by vm_compute|].
  eapply (proj1 (proj2 (subscribe_outcomes 1 2 empty_store))).
  by vm_compute.
Defined.

(** X10. After a successful [subscribe] the read-only field
    [is_subscribed] is true for the new pair in both user serializers and
    keeps its value for every other pair; for an anonymous request user it
    is false whatever the store holds. *)
Theorem is_subscribed_after_subscribe
    (u author r : pk) (db db' : Store) :
  serializers.subscribe u author db = (Ok r, db') →
  (∀ superuser,
     serializers.CustomUserSerializer_get_is_subscribed
       (User u superuser) author db' = true) ∧
  serializers.SubscriptionSerializer_get_is_subscribed u author db' = true ∧
  (∀ v b, (v, b) ≠ (u, author) →
          serializers.SubscriptionSerializer_get_is_subscribed v b db'
          = serializers.SubscriptionSerializer_get_is_subscribed v b db) ∧
  (∀ b, serializers.CustomUserSerializer_get_is_subscribed AnonymousUser b db'
        = false).
Proof.
  rewrite subscribe_eq. repeat case_decide; try done. intros [= <- <-].
  unfold serializers.CustomUserSerializer_get_is_subscribed,
    serializers.SubscriptionSerializer_get_is_subscribed.
  assert (∀ v b,
    serializers.subscribed
      (set_Subscription_objects
         (Subscription_objects db ++ [ {| sub_user := u; sub_author := author |} ])
         db) v b
    ↔ serializers.subscribed db v b ∨ (v, b) = (u, author)) as Hsub.
  { intros v b. unfold serializers.subscribed at 1. cbn.
    rewrite Exists_app, Exists_cons, Exists_nil. cbn.
    unfold serializers.subscribed. naive_solver. }
  split_and!.
  - intros _. apply bool_decide_eq_true, Hsub. by right.
  - apply bool_decide_eq_true, Hsub. by right.
  - intros v b Hne. apply bool_decide_ext. rewrite Hsub. naive_solver.
  - done.
Qed.

Lemma is_subscribed_after_subscribe_witness :
  ∃ db', serializers.subscribe 1 2 empty_store = (Ok 2, db') ∧
         serializers.SubscriptionSerializer_get_is_subscribed 1 2 db' = true ∧
         serializers.SubscriptionSerializer_get_is_subscribed 2 1 db' = false.
Proof.
  eexists. split; [by vm_compute|].
  match goal with |- context [serializers.SubscriptionSerializer_get_is_subscribed
                                1 2 ?d] => set (db' := d) end.
  assert (serializers.subscribe 1 2 empty_store = (Ok 2, db')) as Hsub
    by by vm_compute.
  destruct (is_subscribed_after_subscribe 1 2 2 empty_store db' Hsub)
    as (_ & Hnew & Hother & _).
  split; [exact Hnew|].
  rewrite (Hother 2 1); [reflexivity | discriminate].
Defined.

(** X11. [subscribe] keeps invariant 6 of the data model, whatever its
    outcome: when no pair is stored twice and nobody is subscribed to
    themselves before the call, the same holds after it. *)
Theorem subscribe_keeps_subscriptions_consistent (u author : pk) (db : Store) :
  serializers.subscriptions_consistent db →
  serializers.subscriptions_consistent (serializers.subscribe u author db).2.
Proof.
  intros [Hnd Hself]. rewrite subscribe_eq.
  repeat case_decide; cbn [snd]; try done.
  split; cbn.
  - apply NoDup_app. split_and!; [done | | apply NoDup_singleton].
    intros row Hin ->%list_elem_of_singleton.
    match goal with H : ¬ serializers.subscribed _ _ _ |- _ => apply H end.
    apply Exists_exists. eexists. split; [exact Hin | done].
  - apply Forall_app. split; [done|]. by apply Forall_singleton.
Qed.

Lemma subscribe_keeps_subscriptions_consistent_witness :
  serializers.subscriptions_consistent empty_store ∧
  serializers.subscriptions_consistent (serializers.subscribe 1 2 empty_store).2.
Proof.
  assert (serializers.subscriptions_consistent empty_store) as Hok
    by (split; constructor).
  split; [exact Hok|].
  exact (subscribe_keeps_subscriptions_consistent 1 2 empty_store Hok).
Defined.

(** ** More on recipes *)

(** X12. A recipe cannot be created twice: after a successful
    [create_recipe], the same submission by the same author is refused with
    the exception for an existing recipe of that name, and nothing is
    written. *)
Theorem create_recipe_twice_conflicts
    (author : pk) (attrs : serializers.Attrs) (db : Store)
    (r : Recipe) (db' : Store) :
  serializers.create_recipe author attrs db = (Ok r, db') →
  serializers.create_recipe author attrs db'
  = (Raise serializers.RecipeAlreadyExists, db').
Proof.
  rewrite create_recipe_eq.
  destruct (serializers.run_validation author "POST" attrs db).1
    as [vd|e] eqn:Hrun; [|done].
  apply run_validation_Ok in Hrun
    as (-> & Hfield & name & tags & ingredients & ids & Hname & Htags & Hne & _
        & Hingr & Hne' & Hmap & _).
  intros Hcreate. pose proof (create_inv author attrs db) as Hinv.
  rewrite Hcreate in Hinv.
  destruct Hinv as (data & tags' & ct & lines & _ & Ht & _ & Hr & _
                    & Hrecipes & _ & Htagrows).
  rewrite Htags in Ht. injection Ht as <-.
  assert ((serializers.run_validation author "POST" attrs db').1
          = Raise serializers.RecipeAlreadyExists) as Hagain.
  { apply run_validation_conflict. split; [done|]. split.
    { rewrite <- Hfield.
      destruct (create_same_other_tables _ _ _ _ _ Hcreate)
        as (? & _ & _ & _ & ?).
      by apply field_errors_ext. }
    exists name, tags. split.
    - split_and!; try done. exists ingredients. by rewrite Hmap.
    - apply Exists_exists. exists r. split; [rewrite Hrecipes; set_solver|].
      subst r. rewrite Hname. split_and!; [done | done|].
      destruct tags as [|t tags]; [done|].
      apply Exists_exists. exists (serializers.next_pk (Recipe_objects db), t).
      split; [|split; [done | left]].
      apply Htagrows. rewrite decide_True by done. left. }
  by rewrite create_recipe_eq, Hagain.
Qed.

Lemma create_recipe_twice_conflicts_witness :
  ∃ r db',
    serializers.create_recipe 4 (serializers.boundary_attrs 30 10)
      serializers.soup_store = (Ok r, db') ∧
    serializers.create_recipe 4 (serializers.boundary_attrs 30 10) db'
    = (Raise serializers.RecipeAlreadyExists, db').
Proof.
  eexists _, _. split; [by vm_compute|].
  eapply (create_recipe_twice_conflicts 4 (serializers.boundary_attrs 30 10)
            serializers.soup_store).
  by vm_compute.
Defined.

(** X13. An update that carries no image can be replayed: after a
    successful [update_recipe] whose attributes have no [image] key,
    running the same update again (on the recipe as it was read before, or
    as it is now) succeeds, returns the same recipe and leaves the store
    exactly as the first run left it. (An image is an uploaded file, saved
    under a name the storage picks at each [save]; what a replay does to
    it is not said here.) *)
Theorem update_recipe_idempotent
    (request_user : pk) (instance : Recipe) (attrs : serializers.Attrs)
    (db : Store) (r : Recipe) (db' : Store) :
  serializers.attrs_image attrs = None →
  serializers.update_recipe request_user instance attrs db = (Ok r, db') →
  serializers.update_recipe request_user instance attrs db' = (Ok r, db') ∧
  serializers.update_recipe request_user r attrs db' = (Ok r, db').
Proof.
  intros Himage. rewrite !update_recipe_eq.
  destruct (serializers.run_validation request_user "PATCH" attrs db).1
    as [vd|e] eqn:Hrun; [|done].
  pose proof Hrun as Hvalid. apply run_validation_Ok in Hrun as (-> & _).
  intros (-> & lines & Hlines & Hbatch & ->)%update_Ok_iff.
  set (r := serializers.updated_instance instance attrs) in *.
  set (tags := default [] (serializers.attrs_tag attrs)) in *.
  destruct (updated_store_tables r tags lines db)
    as (_ & _ & Hrows & Hingr & _ & _ & _ & Htag).
  rewrite (run_validation_PATCH request_user attrs
             (examples.updated_store r tags lines db) db Hingr Htag), Hvalid.
  assert (serializers.updated_instance r attrs = r) as Hr.
  { unfold r, serializers.updated_instance. cbn. rewrite Himage.
    by destruct (serializers.attrs_name attrs), (serializers.attrs_text attrs),
      (serializers.attrs_cooking_time attrs). }
  pose proof (lines_of_data_recipe _ _ _ Hlines) as Hrecipe.
  assert (examples.accepted_batch
            (filter (λ line, recipe line ≠ recipe_id r)
               (IngredientRecipe_objects
                  (examples.updated_store r tags lines db)))
            lines) as Hbatch'.
  { rewrite Hrows, filter_app, (filter_none _ lines), app_nil_r.
    - rewrite filter_all; [done|].
      apply Forall_forall. by intros line [? _]%list_elem_of_filter.
    - eapply Forall_impl; [exact Hrecipe|]. naive_solver. }
  split; apply update_Ok_iff; cbn zeta; rewrite ?Hr; fold r; fold tags;
    (split; [done|]); exists lines; split_and!; try done;
    symmetry; by apply updated_store_idem.
Qed.

Lemma update_recipe_idempotent_witness :
  ∃ r db',
    serializers.update_recipe 3 serializers.soup serializers.rename_to_broth
      serializers.soup_store = (Ok r, db') ∧
    serializers.update_recipe 3 serializers.soup serializers.rename_to_broth db'
    = (Ok r, db').
Proof.
  eexists _, _. split; [by vm_compute|].
  eapply (proj1 (update_recipe_idempotent 3 serializers.soup
                   serializers.rename_to_broth serializers.soup_store _ _
                   eq_refl _)).
  Unshelve. by vm_compute.
Defined.

Section recipe_tables.
Import serializers examples.

Implicit Types (db : Store) (r : Recipe) (tags : list pk)
  (lines : list IngredientRecipe).

(** The rows of the tag table after [tag.set], for the recipe and for the
    others. *)
Lemma tag_rows_elem id tags (rows : list (pk * pk)) id' t :
  (id', t)
  ∈ filter (λ row, row.1 ≠ id ∨ row.2 ∈ tags) rows
    ++ ((λ t, (id, t)) <$>
        remove_dups (filter (λ t, t ∉ (filter (λ row, row.1 = id) rows).*2) tags))
  ↔ if decide (id' = id) then t ∈ tags else (id', t) ∈ rows.
Proof.
  rewrite elem_of_app, list_elem_of_filter, list_elem_of_fmap. cbn.
  setoid_rewrite elem_of_remove_dups. setoid_rewrite list_elem_of_filter.
  setoid_rewrite list_elem_of_fmap. setoid_rewrite list_elem_of_filter.
  case_decide as Hid; [subst id'|naive_solver].
  split; [naive_solver|]. intros Ht.
  destruct (decide ((id, t) ∈ rows)) as [Hin|Hnin]; [naive_solver|].
  right. exists t. split_and!; [done | | done].
  intros ([id'' t'] & -> & Heq & Hin). cbn in *. by subst.
Qed.

Lemma tag_rows_other id tags (rows : list (pk * pk)) id' :
  id' ≠ id →
  filter (λ row, row.1 = id')
    (filter (λ row, row.1 ≠ id ∨ row.2 ∈ tags) rows
     ++ ((λ t, (id, t)) <$>
         remove_dups (filter (λ t, t ∉ (filter (λ row, row.1 = id) rows).*2) tags)))
  = filter (λ row, row.1 = id') rows.
Proof.
  intros Hne. rewrite filter_app, list_filter_filter.
  rewrite (filter_none (λ row, row.1 = id') (_ <$> _)), app_nil_r.
  - apply list_filter_iff. naive_solver.
  - apply Forall_forall. intros row (t & -> & _)%list_elem_of_fmap. cbn. congruence.
Qed.

Lemma tag_rows_NoDup id tags (rows : list (pk * pk)) :
  NoDup rows →
  NoDup (filter (λ row, row.1 ≠ id ∨ row.2 ∈ tags) rows
         ++ ((λ t, (id, t)) <$>
             remove_dups
               (filter (λ t, t ∉ (filter (λ row, row.1 = id) rows).*2) tags))).
Proof.
  intros Hnd. apply NoDup_app. split_and!.
  - by apply NoDup_filter.
  - intros [id' t'] [_ Hin]%list_elem_of_filter (t & [= -> ->] & Ht)%list_elem_of_fmap.
    apply elem_of_remove_dups, list_elem_of_filter in Ht as [Hnew _].
    apply Hnew, list_elem_of_fmap. exists (id, t). split; [done|].
    by apply list_elem_of_filter.
  - apply NoDup_fmap_2; [|apply NoDup_remove_dups]. by intros t1 t2 [= ->].
Qed.

Lemma lines_NoDup (rows lines : list IngredientRecipe) (P : IngredientRecipe → Prop)
    `{∀ x, Decision (P x)} :
  NoDup (recipe_ingredient <$> rows) →
  accepted_batch (filter P rows) lines →
  NoDup (recipe_ingredient <$> (filter P rows ++ lines)).
Proof.
  intros Hnd [Hlines Hfresh]. rewrite fmap_app. apply NoDup_app. split_and!.
  - eapply sublist_NoDup; [exact Hnd|]. apply fmap_sublist, sublist_filter.
  - intros key Hold (line & -> & Hline)%list_elem_of_fmap.
    rewrite Forall_forall in Hfresh. by apply (Hfresh line).
  - done.
Qed.

End recipe_tables.

(** X14. An update replaces the tags and the ingredient lines of the recipe
    wholesale: after a successful [update_recipe] the stored lines of the
    recipe are the submitted entries, one line per entry and in their order,
    whatever lines the recipe had before, and its stored tags are the
    submitted tags. *)
Theorem update_recipe_replaces_tags_and_lines
    (request_user : pk) (instance : Recipe) (attrs : serializers.Attrs)
    (db : Store) (r : Recipe) (db' : Store) :
  serializers.update_recipe request_user instance attrs db = (Ok r, db') →
  ∃ tags data,
    serializers.attrs_tag attrs = Some tags ∧
    serializers.attrs_recipe_ingredients attrs = Some data ∧
    examples.lines_of_data (recipe_id instance) data
    = Some (serializers.lines_of db' (recipe_id instance)) ∧
    (∀ t, t ∈ serializers.tags_of db' (recipe_id instance) ↔ t ∈ tags).
Proof.
  rewrite update_recipe_eq.
  destruct (serializers.run_validation request_user "PATCH" attrs db).1
    as [vd|e] eqn:Hrun; [|done].
  apply run_validation_Ok in Hrun
    as (-> & _ & name & tags & data & ids & _ & Htags & _ & _ & Hdata & _).
  intros (-> & lines & Hlines & _ & ->)%update_Ok_iff.
  rewrite Htags, Hdata in *. cbn [default from_option id] in *.
  exists tags, data. split_and!; [done | done | |].
  - destruct (updated_store_tables (serializers.updated_instance instance attrs)
                tags lines db) as (_ & _ & Hrows & _).
    unfold serializers.lines_of. rewrite Hrows.
    change (recipe_id (serializers.updated_instance instance attrs))
      with (recipe_id instance) in *.
    rewrite filter_app, list_filter_filter.
    rewrite (filter_none (λ x, recipe x = recipe_id instance ∧ _)), app_nil_l.
    + rewrite filter_all; [done|]. by eapply lines_of_data_recipe.
    + apply Forall_forall. naive_solver.
  - intros t. rewrite elem_of_tags_of.
    destruct (updated_store_tables (serializers.updated_instance instance attrs)
                tags lines db) as (_ & -> & _).
    unfold serializers.tags_of. rewrite tag_rows_elem.
    by rewrite decide_True.
Qed.

Lemma update_recipe_replaces_tags_and_lines_witness :
  ∃ r db',
    serializers.update_recipe 3 serializers.soup serializers.rename_to_broth
      serializers.soup_store = (Ok r, db') ∧
    ∃ tags data,
      serializers.attrs_tag serializers.rename_to_broth = Some tags ∧
      serializers.attrs_recipe_ingredients serializers.rename_to_broth = Some data ∧
      examples.lines_of_data 1 data = Some (serializers.lines_of db' 1) ∧
      (∀ t, t ∈ serializers.tags_of db' 1 ↔ t ∈ tags).
Proof.
  eexists _, _. split; [by vm_compute|].
  eapply (update_recipe_replaces_tags_and_lines 3 serializers.soup
            serializers.rename_to_broth serializers.soup_store).
  by vm_compute.
Defined.

Section recipe_frames.
Import serializers examples.

Lemma same_other_tables_refl db : same_other_tables db db.
Proof. done. Qed.

(** What [update_recipe] leaves, in terms of the store of a successful
    [update] and of a failed one. *)
Lemma update_recipe_store request_user instance attrs db :
  (update_recipe request_user instance attrs db).2 = db ∨
  ∃ tags lines,
    lines_of_data (recipe_id instance)
      (default [] (attrs_recipe_ingredients attrs)) = Some lines ∧
    accepted_batch
      (filter (λ line, recipe line ≠ recipe_id instance)
              (IngredientRecipe_objects db)) lines ∧
    (update_recipe request_user instance attrs db).2
    = updated_store (updated_instance instance attrs) tags lines db.
Proof.
  destruct (update_recipe request_user instance attrs db) as [[r|e] db'] eqn:Hrun.
  - right. rewrite update_recipe_eq in Hrun.
    destruct (run_validation request_user "PATCH" attrs db).1
      as [vd|e] eqn:Hvalid; [|done].
    apply run_validation_Ok in Hvalid as (-> & _).
    apply update_Ok_iff in Hrun as (-> & lines & Hlines & Hbatch & ->).
    by exists (default [] (attrs_tag attrs)), lines.
  - left. by apply all_or_nothing_update_recipe in Hrun.
Qed.

Lemma create_recipe_store author attrs db :
  (create_recipe author attrs db).2 = db ∨
  ∃ r tags lines,
    recipe_id r = next_pk (Recipe_objects db) ∧
    lines_of_data (recipe_id r) (default [] (attrs_recipe_ingredients attrs))
    = Some lines ∧
    accepted_batch (IngredientRecipe_objects db) lines ∧
    create_recipe author attrs db = (Ok r, created_store r tags lines db).
Proof.
  destruct (create_recipe author attrs db) as [[r|e] db'] eqn:Hrun.
  - right. rewrite create_recipe_eq in Hrun.
    destruct (run_validation author "POST" attrs db).1
      as [vd|e] eqn:Hvalid; [|done].
    apply run_validation_Ok in Hvalid as (-> & _).
    apply create_Ok_iff in Hrun
      as (data & tags & ct & lines & Hdata & _ & _ & Hr & Hlines & Hbatch & ->).
    exists r, tags, lines. rewrite Hdata. split_and!; try done. by subst r.
  - left. by apply all_or_nothing_create_recipe in Hrun.
Qed.

End recipe_frames.

(** X15. [update_recipe] touches the recipe it is given and nothing else,
    whatever its outcome: the tags and the lines of every other recipe, the
    rows of the other recipes, the ingredients, the favorites, the carts and
    the subscriptions are as they were. *)
Theorem update_recipe_leaves_the_rest
    (request_user : pk) (instance : Recipe) (attrs : serializers.Attrs) (db : Store) :
  let db' := (serializers.update_recipe request_user instance attrs db).2 in
  serializers.same_other_tables db db' ∧
  (∀ id, id ≠ recipe_id instance →
         serializers.tags_of db' id = serializers.tags_of db id ∧
         serializers.lines_of db' id = serializers.lines_of db id) ∧
  (∀ r0, recipe_id r0 ≠ recipe_id instance →
         (r0 ∈ Recipe_objects db' ↔ r0 ∈ Recipe_objects db)).
Proof.
  intros db'. subst db'.
  destruct (update_recipe_store request_user instance attrs db)
    as [->|(tags & lines & Hlines & _ & ->)]; [done|].
  destruct (updated_store_tables (serializers.updated_instance instance attrs)
              tags lines db) as (Hrecipes & Htags & Hrows & Hother).
  change (recipe_id (serializers.updated_instance instance attrs))
    with (recipe_id instance) in *.
  split_and!; [done | |].
  - intros id Hid. unfold serializers.tags_of, serializers.lines_of.
    rewrite Htags, Hrows. split.
    + f_equal. by apply tag_rows_other.
    + rewrite filter_app, list_filter_filter.
      rewrite (filter_none _ lines), app_nil_r.
      * apply list_filter_iff. naive_solver.
      * eapply Forall_impl; [by eapply lines_of_data_recipe|]. naive_solver.
  - intros r0 Hid. rewrite Hrecipes. case_decide.
    + rewrite list_elem_of_fmap. split.
      * intros (r1 & -> & Hin). by case_decide.
      * intros Hin. exists r0. by rewrite decide_False.
    + rewrite elem_of_app, list_elem_of_singleton. naive_solver.
Qed.

(** X16. A successful [create_recipe] appends one recipe, owned by the
    author of the request and with a primary key no stored recipe had, and
    touches nothing else: the rows, the tags and the lines of the recipes
    stored before, the ingredients, the favorites, the carts and the
    subscriptions are as they were. *)
Theorem create_recipe_leaves_the_rest
    (author : pk) (attrs : serializers.Attrs) (db : Store)
    (r : Recipe) (db' : Store) :
  serializers.create_recipe author attrs db = (Ok r, db') →
  Recipe_objects db' = Recipe_objects db ++ [r] ∧
  models.author r = author ∧
  (recipe_id r ∉ recipe_id <$> Recipe_objects db) ∧
  serializers.same_other_tables db db' ∧
  (∀ id, id ≠ recipe_id r →
         serializers.tags_of db' id = serializers.tags_of db id ∧
         serializers.lines_of db' id = serializers.lines_of db id).
Proof.
  rewrite create_recipe_eq.
  destruct (serializers.run_validation author "POST" attrs db).1
    as [vd|e] eqn:Hvalid; [|done].
  apply run_validation_Ok in Hvalid as (-> & _).
  intros (data & tags & ct & lines & _ & _ & _ & Hr & Hlines & _ & ->)%create_Ok_iff.
  destruct (created_store_tables r tags lines db)
    as (Hrecipes & Htags & Hrows & Hother).
  split_and!; [done | by subst r | | done |].
  - intros (r0 & Heq & Hin)%list_elem_of_fmap.
    apply next_pk_fresh in Hin. subst r. cbn in Heq. lia.
  - intros id Hid. unfold serializers.tags_of, serializers.lines_of.
    rewrite Htags, Hrows. split.
    + f_equal. by apply tag_rows_other.
    + rewrite filter_app, (filter_none _ lines), app_nil_r; [done|].
      eapply Forall_impl; [by eapply lines_of_data_recipe|]. naive_solver.
Qed.

Lemma create_recipe_leaves_the_rest_witness :
  ∃ r db',
    serializers.create_recipe 4 (serializers.boundary_attrs 30 10)
      serializers.soup_store = (Ok r, db') ∧
    Recipe_objects db' = [serializers.soup; r] ∧
    models.author r = 4 ∧
    serializers.lines_of db' 1 = serializers.lines_of serializers.soup_store 1.
Proof.
  eexists _, _. split; [by vm_compute|].
  match goal with |- context [Recipe_objects ?d = [_; ?x]] =>
    set (db' := d); set (r := x) end.
  assert (serializers.create_recipe 4 (serializers.boundary_attrs 30 10)
            serializers.soup_store = (Ok r, db')) as Hcreate by by vm_compute.
  destruct (create_recipe_leaves_the_rest _ _ _ _ _ Hcreate)
    as (Hrecipes & Hauthor & _ & _ & Hrest).
  split_and!; [exact Hrecipes | exact Hauthor |].
  apply (Hrest 1). by vm_compute.
Defined.

Section recipe_invariants.
Import serializers examples.

Lemma updated_store_constraints r tags lines db :
  Forall (λ line, recipe line = recipe_id r) lines →
  accepted_batch
    (filter (λ line, recipe line ≠ recipe_id r) (IngredientRecipe_objects db))
    lines →
  let db' := updated_store r tags lines db in
  (unique_recipe_pk db → unique_recipe_pk db') ∧
  (unique_recipe_ingredient db → unique_recipe_ingredient db') ∧
  (unique_recipe_tag db → unique_recipe_tag db') ∧
  (recipe_foreign_keys db → recipe_foreign_keys db').
Proof.
  intros Hrecipe Hbatch db'. subst db'.
  destruct (updated_store_tables r tags lines db) as (Hrecipes & Htags & Hrows & _).
  destruct (save_rows_idem r (Recipe_objects db)) as (Hex & _ & Hids).
  unfold unique_recipe_pk, unique_recipe_ingredient, unique_recipe_tag,
    recipe_foreign_keys.
  rewrite Hrecipes, Htags, Hrows, Hids.
  assert (recipe_id r
          ∈ (if decide (Exists (λ r0, recipe_id r0 = recipe_id r) (Recipe_objects db))
             then recipe_id <$> Recipe_objects db
             else (recipe_id <$> Recipe_objects db) ++ [recipe_id r])) as Hmine.
  { case_decide as Hold; [|set_solver].
    apply Exists_exists in Hold as (r0 & Hin & Heq).
    apply list_elem_of_fmap. by exists r0. }
  assert (∀ id, id ∈ recipe_id <$> Recipe_objects db →
                id ∈ (if decide (Exists (λ r0, recipe_id r0 = recipe_id r)
                                        (Recipe_objects db))
                      then recipe_id <$> Recipe_objects db
                      else (recipe_id <$> Recipe_objects db) ++ [recipe_id r]))
    as Hkept by (intros id Hid; case_decide; set_solver).
  split_and!.
  - intros Hnd. case_decide as Hold; [done|]. apply NoDup_app.
    split_and!; [done | | apply NoDup_singleton].
    intros id (r0 & Heq & Hin)%list_elem_of_fmap Hid%list_elem_of_singleton.
    apply Hold, Exists_exists. exists r0. split; [done | congruence].
  - intros Hnd. by apply lines_NoDup.
  - apply tag_rows_NoDup.
  - intros [Hlines Htagrows]. split.
    + apply Forall_app. split.
      * apply Forall_forall. intros line [_ Hin]%list_elem_of_filter.
        rewrite Forall_forall in Hlines. by apply Hkept, Hlines.
      * eapply Forall_impl; [exact Hrecipe|]. by intros line ->.
    + apply Forall_forall. intros [id t] Hin.
      apply tag_rows_elem in Hin. case_decide as Hid; [by subst id|].
      rewrite Forall_forall in Htagrows. by apply Hkept, (Htagrows (id, t)).
Qed.

Lemma created_store_constraints r tags lines db :
  recipe_id r = next_pk (Recipe_objects db) →
  Forall (λ line, recipe line = recipe_id r) lines →
  accepted_batch (IngredientRecipe_objects db) lines →
  let db' := created_store r tags lines db in
  (unique_recipe_pk db → unique_recipe_pk db') ∧
  (unique_recipe_ingredient db → unique_recipe_ingredient db') ∧
  (unique_recipe_tag db → unique_recipe_tag db') ∧
  (recipe_foreign_keys db → recipe_foreign_keys db').
Proof.
  intros Hpk Hrecipe [Hlines Hfresh] db'. subst db'.
  destruct (created_store_tables r tags lines db) as (Hrecipes & Htags & Hrows & _).
  unfold unique_recipe_pk, unique_recipe_ingredient, unique_recipe_tag,
    recipe_foreign_keys.
  rewrite Hrecipes, Htags, Hrows, !fmap_app. cbn [fmap list_fmap].
  split_and!.
  - intros Hnd. apply NoDup_app. split_and!; [done | | apply NoDup_singleton].
    intros id (r0 & Heq & Hin)%list_elem_of_fmap Hid%list_elem_of_singleton.
    apply next_pk_fresh in Hin. lia.
  - intros Hnd. apply NoDup_app. split_and!; [done | | done].
    intros key Hold (line & -> & Hline)%list_elem_of_fmap.
    rewrite Forall_forall in Hfresh. by apply (Hfresh line).
  - apply tag_rows_NoDup.
  - intros [Hold Htagrows]. split.
    + apply Forall_app. split.
      * eapply Forall_impl; [exact Hold|]. set_solver.
      * eapply Forall_impl; [exact Hrecipe|]. intros line ->. set_solver.
    + apply Forall_forall. intros [id t] Hin.
      apply tag_rows_elem in Hin. case_decide as Hid; [subst id; set_solver|].
      rewrite Forall_forall in Htagrows. specialize (Htagrows (id, t) Hin).
      set_solver.
Qed.

End recipe_invariants.

(** X17. [update_recipe] keeps the constraints of the database, whatever
    its outcome: the primary keys of the recipes stay unique, no recipe has
    two lines for one ingredient, no recipe has a tag twice, and every line
    and every tag row still belongs to a stored recipe. *)
Theorem update_recipe_keeps_constraints
    (request_user : pk) (instance : Recipe) (attrs : serializers.Attrs) (db : Store) :
  let db' := (serializers.update_recipe request_user instance attrs db).2 in
  (serializers.unique_recipe_pk db → serializers.unique_recipe_pk db') ∧
  (serializers.unique_recipe_ingredient db → serializers.unique_recipe_ingredient db') ∧
  (examples.unique_recipe_tag db → examples.unique_recipe_tag db') ∧
  (serializers.recipe_foreign_keys db → serializers.recipe_foreign_keys db').
Proof.
  intros db'. subst db'.
  destruct (update_recipe_store request_user instance attrs db)
    as [->|(tags & lines & Hlines & Hbatch & ->)]; [done|].
  apply updated_store_constraints; [|done].
  by eapply lines_of_data_recipe.
Qed.

Lemma update_recipe_keeps_constraints_witness :
  serializers.unique_recipe_ingredient serializers.soup_store ∧
  serializers.unique_recipe_ingredient
    (serializers.update_recipe 3 serializers.soup serializers.rename_to_broth
       serializers.soup_store).2.
Proof.
  assert (serializers.unique_recipe_ingredient serializers.soup_store) as Hnd
    by (unfold serializers.unique_recipe_ingredient; cbn; apply NoDup_singleton).
  split; [exact Hnd|].
  exact (proj1 (proj2 (update_recipe_keeps_constraints 3 serializers.soup
                         serializers.rename_to_broth serializers.soup_store)) Hnd).
Defined.

(** X18. [create_recipe] keeps the constraints of the database, whatever
    its outcome: the primary keys of the recipes stay unique, no recipe has
    two lines for one ingredient, no recipe has a tag twice, and every line
    and every tag row still belongs to a stored recipe. *)
Theorem create_recipe_keeps_constraints
    (author : pk) (attrs : serializers.Attrs) (db : Store) :
  let db' := (serializers.create_recipe author attrs db).2 in
  (serializers.unique_recipe_pk db → serializers.unique_recipe_pk db') ∧
  (serializers.unique_recipe_ingredient db → serializers.unique_recipe_ingredient db') ∧
  (examples.unique_recipe_tag db → examples.unique_recipe_tag db') ∧
  (serializers.recipe_foreign_keys db → serializers.recipe_foreign_keys db').
Proof.
  intros db'. subst db'.
  destruct (create_recipe_store author attrs db)
    as [->|(r & tags & lines & Hpk & Hlines & Hbatch & ->)]; [done|].
  cbn [snd]. apply created_store_constraints; [done | | done].
  by eapply lines_of_data_recipe.
Qed.

Lemma create_recipe_keeps_constraints_witness :
  serializers.unique_recipe_pk serializers.soup_store ∧
  serializers.unique_recipe_pk
    (serializers.create_recipe 4 (serializers.boundary_attrs 30 10)
       serializers.soup_store).2.
Proof.
  assert (serializers.unique_recipe_pk serializers.soup_store) as Hnd
    by (unfold serializers.unique_recipe_pk; cbn; apply NoDup_singleton).
  split; [exact Hnd|].
  exact (proj1 (create_recipe_keeps_constraints 4 (serializers.boundary_attrs 30 10)
                  serializers.soup_store) Hnd).
Defined.

(** X19. When every stored line belongs to a stored recipe, the recipe a
    successful [create_recipe] returns has exactly the submitted entries as
    its stored lines, one line per entry and in their order, and exactly
    the submitted tags as its stored tags. *)
Theorem create_recipe_stores_the_submission
    (author : pk) (attrs : serializers.Attrs) (db : Store)
    (r : Recipe) (db' : Store) :
  serializers.recipe_foreign_keys db →
  serializers.create_recipe author attrs db = (Ok r, db') →
  ∃ tags data,
    serializers.attrs_tag attrs = Some tags ∧
    serializers.attrs_recipe_ingredients attrs = Some data ∧
    examples.lines_of_data (recipe_id r) data
    = Some (serializers.lines_of db' (recipe_id r)) ∧
    (∀ t, t ∈ serializers.tags_of db' (recipe_id r) ↔ t ∈ tags).
Proof.
  intros [Hfk _]. rewrite create_recipe_eq.
  destruct (serializers.run_validation author "POST" attrs db).1
    as [vd|e] eqn:Hvalid; [|done].
  apply run_validation_Ok in Hvalid as (-> & _).
  intros (data & tags & ct & lines & Hdata & Htags & _ & Hr & Hlines & _ & ->)
    %create_Ok_iff.
  exists tags, data. split_and!; [done | done | |].
  - destruct (created_store_tables r tags lines db) as (_ & _ & Hrows & _).
    unfold serializers.lines_of. rewrite Hrows, filter_app.
    rewrite (filter_none _ (IngredientRecipe_objects db)), app_nil_l.
    + rewrite filter_all; [done|]. by eapply lines_of_data_recipe.
    + eapply Forall_impl; [exact Hfk|]. cbn.
      intros line (r0 & Heq & Hin)%list_elem_of_fmap Hmine.
      apply next_pk_fresh in Hin. subst r. cbn in Hmine. lia.
  - intros t. rewrite elem_of_tags_of.
    destruct (created_store_tables r tags lines db) as (_ & -> & _).
    unfold serializers.tags_of. rewrite tag_rows_elem. by rewrite decide_True.
Qed.

Lemma create_recipe_stores_the_submission_witness :
  ∃ r db',
    serializers.create_recipe 4 (serializers.boundary_attrs 30 10)
      serializers.soup_store = (Ok r, db') ∧
    ∃ tags data,
      serializers.attrs_tag (serializers.boundary_attrs 30 10) = Some tags ∧
      serializers.attrs_recipe_ingredients (serializers.boundary_attrs 30 10)
      = Some data ∧
      examples.lines_of_data (recipe_id r) data
      = Some (serializers.lines_of db' (recipe_id r)) ∧
      (∀ t, t ∈ serializers.tags_of db' (recipe_id r) ↔ t ∈ tags).
Proof.
  eexists _, _. split; [by vm_compute|].
  eapply (create_recipe_stores_the_submission 4 (serializers.boundary_attrs 30 10)
            serializers.soup_store).
  - split; repeat constructor.
  - by vm_compute.
Defined.

(** ** The recipes of an author, with a limit *)

Section get_recipes_theory.
Import serializers.

Lemma elem_of_recipes_all obj db r :
  r ∈ recipes_all obj db ↔ author r = obj ∧ r ∈ Recipe_objects db.
Proof. unfold recipes_all. by rewrite elem_of_reverse, list_elem_of_filter. Qed.

End get_recipes_theory.

(** X20. [get_recipes] fails for one kind of query parameter alone, an
    integer of 2^63 or more, which the database refuses as a [LIMIT]. With
    no parameter, with a text that is not an integer or with a negative
    integer it returns all the recipes of the author; with an integer
    [limit] from 0 to 2^63 - 1 it returns the first [limit] of them, or all
    of them when there are fewer. What it returns are stored recipes of that
    author, a prefix of the list of all of them, never more than
    [get_recipes_count] reports. *)
Theorem get_recipes_respects_limit
    (int : string → option Z) (recipes_limit : option string)
    (obj : pk) (db : Store) :
  let outcome := serializers.get_recipes int recipes_limit obj db in
  (recipes_limit = None ∨
   (∃ text, recipes_limit = Some text ∧
            (int text = None ∨ ∃ limit, int text = Some limit ∧ limit < 0)) →
   outcome = Ok (serializers.recipes_all obj db)) ∧
  (∀ text limit, recipes_limit = Some text → int text = Some limit →
     (0 ≤ limit < 2 ^ 63 →
      outcome = Ok (take (Z.to_nat limit) (serializers.recipes_all obj db))) ∧
     (2 ^ 63 ≤ limit → outcome = Raise (serializers.LimitOutOfRange limit))) ∧
  (∀ recipes, outcome = Ok recipes →
     recipes `prefix_of` serializers.recipes_all obj db ∧
     (∀ r, r ∈ recipes → author r = obj ∧ r ∈ Recipe_objects db) ∧
     (length recipes ≤ serializers.get_recipes_count obj db)%nat ∧
     (∀ text limit, recipes_limit = Some text → int text = Some limit →
        0 ≤ limit →
        Z.of_nat (length recipes)
        = limit `min` Z.of_nat (serializers.get_recipes_count obj db))).
Proof.
  intros outcome. subst outcome.
  unfold serializers.get_recipes, serializers.get_recipes_count,
    serializers.recipes_limit_of.
  split_and!.
  - intros [->|(text & -> & [->|(limit & -> & Hneg)])]; try done.
    by rewrite decide_True.
  - intros text limit -> ->. split; intros Hlimit.
    + by rewrite decide_False, decide_True by lia.
    + by rewrite decide_False, decide_False by lia.
  - intros recipes Hok.
    assert (recipes = serializers.recipes_all obj db ∧
            (∀ text limit, recipes_limit = Some text → int text = Some limit →
                           limit < 0) ∨
            ∃ text limit, recipes_limit = Some text ∧ int text = Some limit ∧
                          0 ≤ limit ∧
                          recipes = take (Z.to_nat limit)
                                      (serializers.recipes_all obj db))
      as [[-> Hneg]|(text & limit & -> & Hint & Hlimit & ->)].
    { destruct recipes_limit as [text|]; [|left; by simplify_eq].
      destruct (int text) as [limit|] eqn:Hint.
      - repeat case_decide; simplify_eq.
        + left. split; [done|]. intros ?? [= <-] Hint'.
          rewrite Hint in Hint'. by injection Hint' as <-.
        + right. exists text, limit. split_and!; try done. lia.
      - left. split; [by simplify_eq|]. intros ?? [= <-] Hint'.
        by rewrite Hint in Hint'. }
    + split_and!; [done | | done |].
      * intros r. apply elem_of_recipes_all.
      * intros text limit Htext Hint Hlimit. specialize (Hneg _ _ Htext Hint). lia.
    + split_and!.
      * apply prefix_take.
      * intros r Hin. apply elem_of_recipes_all. by eapply subseteq_take.
      * rewrite length_take. lia.
      * intros text' limit' [= <-] Hint' _. rewrite Hint in Hint'.
        injection Hint' as <-. rewrite length_take. lia.
Qed.

Lemma get_recipes_respects_limit_witness :
  serializers.get_recipes (λ _, Some 1) (Some "1") 3 serializers.soup_store
  = Ok (take 1 (serializers.recipes_all 3 serializers.soup_store)) ∧
  serializers.get_recipes (λ _, Some (2 ^ 63)) (Some "9223372036854775808") 3
    serializers.soup_store
  = Raise (serializers.LimitOutOfRange (2 ^ 63)) ∧
  serializers.get_recipes (λ _, Some (-1)) (Some "-1") 3 serializers.soup_store
  = Ok (serializers.recipes_all 3 serializers.soup_store).
Proof.
  split_and!.
  - refine (proj1 (proj1 (proj2 (get_recipes_respects_limit
              (λ _, Some 1) (Some "1") 3 serializers.soup_store)) "1" 1 _ _) _);
      [reflexivity | reflexivity | lia].
  - refine (proj2 (proj1 (proj2 (get_recipes_respects_limit
              (λ _, Some (2 ^ 63)) (Some "9223372036854775808") 3
              serializers.soup_store))
              "9223372036854775808" (2 ^ 63) _ _) _);
      [reflexivity | reflexivity | lia].
  - apply (proj1 (get_recipes_respects_limit
              (λ _, Some (-1)) (Some "-1") 3 serializers.soup_store)).
    right. exists "-1". split; [reflexivity|]. right. exists (-1).
    split; [reflexivity | lia].
Defined.

(** ** Permissions *)

Section permissions_theory.
Import permissions.

Lemma any3 (a b c : bool) : any [a; b; c] = a || b || c.
Proof. by destruct a, b, c. Qed.

Lemma PUT_not_safe : "PUT" ∉ SAFE_METHODS.
Proof. unfold SAFE_METHODS. set_solver. Qed.

Lemma user_eq_true (u : RequestUser) (other : pk) :
  user_eq u other = true ↔ ∃ superuser, u = User other superuser.
Proof.
  destruct u as [|id su]; cbn; [naive_solver|].
  rewrite bool_decide_eq_true. naive_solver.
Qed.

End permissions_theory.

(** X21. What [IsAuthorOrReadOnly] lets through. A request with a safe
    method (GET, HEAD, OPTIONS) passes both checks whoever sends it. A
    request with another method passes both exactly when the method is not
    PUT and the user is authenticated and is the author of the recipe or a
    superuser; a PUT raises [MethodNotAllowed] for every user, superusers
    and the author included. *)
Theorem IsAuthorOrReadOnly_write_access
    (request : permissions.Request) (obj : Recipe) :
  (permissions.method request ∈ permissions.SAFE_METHODS →
   permissions.IsAuthorOrReadOnly_allows request obj) ∧
  (permissions.method request ∉ permissions.SAFE_METHODS →
   (permissions.IsAuthorOrReadOnly_allows request obj ↔
    permissions.method request ≠ "PUT" ∧
    ∃ id superuser,
      permissions.user request = User id superuser ∧
      (id = author obj ∨ superuser = true))) ∧
  (permissions.method request = "PUT" →
   permissions.IsAuthorOrReadOnly_has_permission request
   = Raise (permissions.MethodNotAllowed "PUT")).
Proof.
  unfold permissions.IsAuthorOrReadOnly_allows,
    permissions.IsAuthorOrReadOnly_has_permission,
    permissions.IsAuthorOrReadOnly_has_object_permission,
    permissions.IsAuthenticatedOrReadOnly_has_permission.
  rewrite any3. destruct request as [method user]. cbn.
  split_and!.
  - intros Hsafe. rewrite decide_False.
    + by rewrite (bool_decide_eq_true_2 _ Hsafe).
    + intros ->. by apply PUT_not_safe.
  - intros Hunsafe. rewrite (bool_decide_eq_false_2 _ Hunsafe). cbn.
    case_decide as Hput.
    + split; [by intros [? _] | by intros [? _]].
    + destruct user as [|id superuser]; cbn.
      * split; [by intros [? _] | naive_solver].
      * rewrite orb_true_iff, bool_decide_eq_true. naive_solver.
  - intros ->. by rewrite decide_True.
Qed.

Lemma IsAuthorOrReadOnly_write_access_witness :
  permissions.IsAuthorOrReadOnly_allows
    {| permissions.method := "PATCH"; permissions.user := User 3 false |}
    serializers.soup ∧
  permissions.IsAuthorOrReadOnly_has_permission
    {| permissions.method := "PUT"; permissions.user := User 3 true |}
  = Raise (permissions.MethodNotAllowed "PUT").
Proof.
  split.
  - apply (proj1 (proj2 (IsAuthorOrReadOnly_write_access
                           {| permissions.method := "PATCH";
                              permissions.user := User 3 false |}
                           serializers.soup))).
    + unfold permissions.SAFE_METHODS. set_solver.
    + split; [done|]. exists 3, false. split; [done | by left].
  - apply (proj2 (proj2 (IsAuthorOrReadOnly_write_access
                           {| permissions.method := "PUT";
                              permissions.user := User 3 true |}
                           serializers.soup))).
    reflexivity.
Defined.

(** X22. The user endpoints are read-only: [CustomUserPermission] never
    returns for a method that is not safe, it raises [MethodNotAllowed] in
    both checks whoever the user is. For a safe method it refuses only the
    action "me": to an anonymous user in [has_permission], and for another
    user's record in [has_object_permission]. *)
Theorem CustomUserPermission_read_only
    (request : permissions.Request) (action : string) (obj : pk) :
  (permissions.method request ∉ permissions.SAFE_METHODS →
   permissions.CustomUserPermission_has_permission request action
   = Raise (permissions.MethodNotAllowed (permissions.method request)) ∧
   permissions.CustomUserPermission_has_object_permission request action obj
   = Raise (permissions.MethodNotAllowed (permissions.method request))) ∧
  (permissions.method request ∈ permissions.SAFE_METHODS →
   (∃ granted,
      permissions.CustomUserPermission_has_permission request action = Ok granted ∧
      (granted = true ↔
       (action = "me" → permissions.user request ≠ AnonymousUser))) ∧
   (∃ granted,
      permissions.CustomUserPermission_has_object_permission request action obj
      = Ok granted ∧
      (granted = true ↔
       (action = "me" →
        ∃ superuser, permissions.user request = User obj superuser)))).
Proof.
  unfold permissions.CustomUserPermission_has_permission,
    permissions.CustomUserPermission_has_object_permission.
  split.
  - intros Hunsafe. by rewrite (bool_decide_eq_false_2 _ Hunsafe).
  - intros Hsafe. rewrite (bool_decide_eq_true_2 _ Hsafe). cbn.
    case_decide as Hme.
    + split; eexists; (split; [done|]).
      * destruct (permissions.user request); cbn; naive_solver.
      * rewrite user_eq_true. naive_solver.
    + split; eexists; (split; [done|]); naive_solver.
Qed.

Lemma CustomUserPermission_read_only_witness :
  permissions.CustomUserPermission_has_permission
    {| permissions.method := "POST"; permissions.user := User 1 true |} "me"
  = Raise (permissions.MethodNotAllowed "POST").
Proof.
  apply (proj1 (CustomUserPermission_read_only
                  {| permissions.method := "POST"; permissions.user := User 1 true |}
                  "me" 1)).
  unfold permissions.SAFE_METHODS. set_solver.
Defined.

(** ** Loading the ingredients *)

Section parse_json_theory.
Import serializers parse_json.

Implicit Types (data : list Item) (pairs : list (string * string)) (db : Store).

Lemma with_pks_name_unit next pairs : name_unit <$> with_pks next pairs = pairs.
Proof.
  revert next. induction pairs as [|[name unit] pairs IH]; intros next; [done|].
  cbn. by rewrite IH.
Qed.

Lemma with_pks_ids next pairs :
  Forall (λ i, next ≤ ingredient_id i) (with_pks next pairs) ∧
  NoDup (ingredient_id <$> with_pks next pairs).
Proof.
  revert next. induction pairs as [|[name unit] pairs IH]; intros next.
  - split; constructor.
  - destruct (IH (next + 1)) as [Hge Hnd]. cbn. split.
    + constructor; [cbn; lia|]. eapply Forall_impl; [exact Hge|]. cbn. lia.
    + apply NoDup_cons. split; [|done].
      intros (i & Heq & Hin)%list_elem_of_fmap.
      rewrite Forall_forall in Hge. specialize (Hge i Hin). lia.
Qed.

Lemma next_ingredient_pk_fresh (rows : list Ingredient) i :
  i ∈ rows → ingredient_id i < next_ingredient_pk rows.
Proof.
  unfold next_ingredient_pk. induction 1 as [i rows|i i' rows _ IH]; cbn; lia.
Qed.

(** The comprehension of [handle] on the parsed file. *)
Lemma handle_comprehension data db :
  let body := λ item : Item,
    (name ← getitem "name" (item_name item);
     measurement_unit ← getitem "measurement_unit" (item_measurement_unit item);
     ret (name, measurement_unit) : M (string * string)) in
  match pairs_of data with
  | Some pairs => comprehension body data db = (Ok pairs, db)
  | None => ∃ key, comprehension body data db = (Raise (KeyError key), db)
  end.
Proof.
  intros body.
  assert (∀ item, body item db =
    match item_name item, item_measurement_unit item with
    | Some name, Some unit => (Ok (name, unit), db)
    | None, _ => (Raise (KeyError "name"), db)
    | Some _, None => (Raise (KeyError "measurement_unit"), db)
    end) as Hbody.
  { intros item. unfold body. rewrite bind_unfold.
    destruct (item_name item); [|done]. cbn [getitem ret]. rewrite bind_unfold.
    by destruct (item_measurement_unit item). }
  unfold pairs_of. induction data as [|item data IH]; [done|].
  cbn [comprehension mapM]. rewrite bind_unfold, Hbody.
  destruct (item_name item) as [name|]; cbn; [|by eexists].
  destruct (item_measurement_unit item) as [unit|]; cbn; [|by eexists].
  rewrite bind_unfold.
  destruct (mapM _ data) as [pairs|]; cbn.
  - by rewrite IH.
  - destruct IH as [key ->]. by eexists.
Qed.

(** [handle] by cases on the file and on the store. *)
Lemma handle_eq data db :
  match pairs_of data with
  | Some pairs =>
      handle data db
      = if decide (NoDup pairs ∧
                   Forall (λ o, o ∉ name_unit <$> Ingredient_objects db) pairs)
        then (Ok tt,
              set_Ingredient_objects
                (Ingredient_objects db
                 ++ with_pks (next_ingredient_pk (Ingredient_objects db)) pairs) db)
        else (Raise (IntegrityError "unique_ingredient_measurement_units"), db)
  | None => ∃ key, handle data db = (Raise (KeyError key), db)
  end.
Proof.
  pose proof (handle_comprehension data db) as Hcomp. cbn zeta in Hcomp.
  unfold handle. destruct (pairs_of data) as [pairs|].
  - rewrite bind_unfold, Hcomp. unfold Ingredient_bulk_create.
    rewrite bind_unfold. cbn [query]. by case_decide.
  - destruct Hcomp as [key Hcomp]. exists key. by rewrite bind_unfold, Hcomp.
Qed.

End parse_json_theory.

(** X23. The command loads a file as a whole or not at all. It raises
    [KeyError] when an object of the file lacks "name" or
    "measurement_unit", and the integrity error of
    [unique_ingredient_measurement_units] when a (name, unit) pair occurs
    twice in the file or is already stored; in every case where it raises,
    no ingredient has been added. *)
Theorem handle_all_or_nothing (data : list parse_json.Item) (db : Store) :
  (parse_json.pairs_of data = None →
   ∃ key, parse_json.handle data db = (Raise (serializers.KeyError key), db)) ∧
  (∀ pairs, parse_json.pairs_of data = Some pairs →
     ¬ NoDup pairs ∨
     Exists (λ o, o ∈ parse_json.name_unit <$> Ingredient_objects db) pairs →
     parse_json.handle data db
     = (Raise (serializers.IntegrityError "unique_ingredient_measurement_units"),
        db)) ∧
  (∀ e db', parse_json.handle data db = (Raise e, db') → db' = db).
Proof.
  pose proof (handle_eq data db) as Heq. split_and!.
  - intros Hnone. by rewrite Hnone in Heq.
  - intros pairs Hpairs Hbad. rewrite Hpairs in Heq. rewrite Heq.
    rewrite decide_False; [done|]. intros [Hnd Hfresh].
    destruct Hbad as [Hdup|Hstored]; [done|].
    apply Exists_exists in Hstored as (o & Hin & Hold).
    rewrite Forall_forall in Hfresh. by apply (Hfresh o).
  - intros e db'. destruct (parse_json.pairs_of data) as [pairs|].
    + rewrite Heq. by case_decide; intros [= <- <-].
    + destruct Heq as [key ->]. by intros [= <- <-].
Qed.

Lemma handle_all_or_nothing_witness :
  parse_json.handle
    [ {| parse_json.item_name := Some "Salt";
         parse_json.item_measurement_unit := None |} ] empty_store
  = (Raise (serializers.KeyError "measurement_unit"), empty_store) ∧
  parse_json.handle
    (parse_json.two_ingredients ++ parse_json.two_ingredients) empty_store
  = (Raise (serializers.IntegrityError "unique_ingredient_measurement_units"),
     empty_store).
Proof.
  split; [by vm_compute|].
  eapply (proj1 (proj2 (handle_all_or_nothing
                          (parse_json.two_ingredients ++ parse_json.two_ingredients)
                          empty_store))).
  - by vm_compute.
  - left. intros Hnd. apply NoDup_cons in Hnd as [Hnin _]. apply Hnin.
    right. left.
Defined.

(** X24. When the command succeeds, the table holds the ingredients it held
    before followed by one ingredient per object of the file, with the
    names and units of the file in the order of the file; the unique
    constraint on (name, unit) and the uniqueness of the primary keys are
    kept, and no other table is touched. *)
Theorem handle_appends_the_file
    (data : list parse_json.Item) (db db' : Store) :
  parse_json.handle data db = (Ok tt, db') →
  ∃ pairs new,
    parse_json.pairs_of data = Some pairs ∧
    Ingredient_objects db' = Ingredient_objects db ++ new ∧
    parse_json.name_unit <$> new = pairs ∧
    (parse_json.unique_ingredients db → parse_json.unique_ingredients db') ∧
    Recipe_objects db' = Recipe_objects db ∧
    Recipe_tag db' = Recipe_tag db ∧
    IngredientRecipe_objects db' = IngredientRecipe_objects db ∧
    Favorite_objects db' = Favorite_objects db ∧
    BuyList_objects db' = BuyList_objects db ∧
    Subscription_objects db' = Subscription_objects db ∧
    Tag_objects db' = Tag_objects db.
Proof.
  pose proof (handle_eq data db) as Heq.
  destruct (parse_json.pairs_of data) as [pairs|]; [|by destruct Heq as [key ->]].
  rewrite Heq. case_decide as Hok; [|done]. intros [= <-].
  destruct Hok as [Hnd Hfresh].
  exists pairs,
    (parse_json.with_pks
       (parse_json.next_ingredient_pk (Ingredient_objects db)) pairs).
  split_and!; try done; [apply with_pks_name_unit|].
  intros [Hpairs Hids]. unfold parse_json.unique_ingredients. cbn.
  rewrite !fmap_app, with_pks_name_unit.
  destruct (with_pks_ids (parse_json.next_ingredient_pk (Ingredient_objects db))
              pairs) as [Hge Hnew].
  split; apply NoDup_app; split_and!; try done.
  - intros o Hold Hin. rewrite Forall_forall in Hfresh. by apply (Hfresh o).
  - intros id (i & -> & Hi)%list_elem_of_fmap (j & Heq' & Hj)%list_elem_of_fmap.
    apply next_ingredient_pk_fresh in Hi.
    rewrite Forall_forall in Hge. specialize (Hge j Hj). lia.
Qed.

Lemma handle_appends_the_file_witness :
  ∃ db', parse_json.handle parse_json.two_ingredients empty_store = (Ok tt, db') ∧
         ∃ pairs new,
           parse_json.pairs_of parse_json.two_ingredients = Some pairs ∧
           Ingredient_objects db' = Ingredient_objects empty_store ++ new ∧
           parse_json.name_unit <$> new = pairs.
Proof.
  eexists. split; [by vm_compute|].
  match goal with |- context [Ingredient_objects ?d = _] => set (db' := d) end.
  assert (parse_json.handle parse_json.two_ingredients empty_store = (Ok tt, db'))
    as Hload by by vm_compute.
  destruct (handle_appends_the_file _ _ _ Hload)
    as (pairs & new & Hpairs & Hrows & Hnew & _).
  exists pairs, new. split_and!; [exact Hpairs | exact Hrows | exact Hnew].
Defined.

(** X25. The command is not repeatable: after it has loaded a file that is
    not empty, loading the same file again raises the integrity error of
    [unique_ingredient_measurement_units] and adds nothing. *)
Theorem handle_twice_fails (data : list parse_json.Item) (db db' : Store) :
  data ≠ [] →
  parse_json.handle data db = (Ok tt, db') →
  parse_json.handle data db'
  = (Raise (serializers.IntegrityError "unique_ingredient_measurement_units"),
     db').
Proof.
  intros Hne Hfirst.
  pose proof (handle_eq data db) as Heq.
  destruct (parse_json.pairs_of data) as [pairs|] eqn:Hpairs;
    [|destruct Heq as [key Heq]; by rewrite Heq in Hfirst].
  rewrite Heq in Hfirst. clear Heq. case_decide; [|done]. injection Hfirst as <-.
  pose proof (handle_eq data
    (set_Ingredient_objects
       (Ingredient_objects db
        ++ parse_json.with_pks
             (parse_json.next_ingredient_pk (Ingredient_objects db)) pairs) db))
    as Heq'.
  rewrite Hpairs in Heq'. rewrite Heq'. clear Heq'.
  rewrite decide_False; [done|]. intros [_ Hfresh].
  destruct pairs as [|o pairs].
  - apply length_mapM in Hpairs. by destruct data.
  - apply Forall_cons in Hfresh as [Hfresh _]. apply Hfresh.
    cbn [Ingredient_objects set_Ingredient_objects].
    rewrite fmap_app, with_pks_name_unit. set_solver.
Qed.

Lemma handle_twice_fails_witness :
  ∃ db', parse_json.handle parse_json.two_ingredients empty_store = (Ok tt, db') ∧
         parse_json.handle parse_json.two_ingredients db'
         = (Raise (serializers.IntegrityError "unique_ingredient_measurement_units"),
            db').
Proof.
  eexists. split; [by vm_compute|].
  apply (handle_twice_fails parse_json.two_ingredients empty_store);
    [discriminate | by vm_compute].
Defined.

(** ** The image field *)

Section fields_theory.
Import fields.

Implicit Types (sep piece text before after : string) (c : ascii).

Lemma append_nil_l text : EmptyString +:+ text = text.
Proof. reflexivity. Qed.

Lemma append_cons c text text' :
  String c text +:+ text' = String c (text +:+ text').
Proof. reflexivity. Qed.

Lemma append_nil_r text : text +:+ EmptyString = text.
Proof.
  induction text as [|c text IH]; [done|]. by rewrite append_cons, IH.
Qed.

Lemma append_assoc text1 text2 text3 :
  (text1 +:+ text2) +:+ text3 = text1 +:+ (text2 +:+ text3).
Proof.
  induction text1 as [|c text1 IH]; [done|]. by rewrite !append_cons, IH.
Qed.

Lemma append_snoc piece c text :
  (piece +:+ String c EmptyString) +:+ text = piece +:+ String c text.
Proof. by rewrite append_assoc. Qed.

Lemma occurs_append c text text' :
  occurs c (text +:+ text') ↔ occurs c text ∨ occurs c text'.
Proof.
  induction text as [|c' text IH]; [naive_solver|].
  rewrite append_cons. cbn. rewrite IH. naive_solver.
Qed.

Lemma prefix_cons_ne c c' sep text :
  c ≠ c' → String.prefix (String c sep) (String c' text) = false.
Proof. intros Hne. cbn. by destruct (ascii_dec c c'). Qed.

Lemma prefix_append sep text : String.prefix sep (sep +:+ text) = true.
Proof.
  induction sep as [|c sep IH]; [by destruct text|]. rewrite append_cons. cbn.
  destruct (ascii_dec c c); [apply IH | done].
Qed.

Lemma prefix_true sep text :
  String.prefix sep text = true → ∃ after, text = sep +:+ after.
Proof.
  revert text. induction sep as [|c sep IH]; intros text; [by exists text|].
  destruct text as [|c' text]; [done|]. cbn.
  destruct (ascii_dec c c') as [<-|]; [|done].
  intros (after & ->)%IH. by exists after.
Qed.

Lemma split_from_skip sep piece before text :
  split_from sep (String.length before) piece (before +:+ text)
  = split_from sep 0 piece text.
Proof.
  induction before as [|c before IH]; [done|]. by rewrite append_cons.
Qed.

(** Where the separator does not occur, the text is one piece. *)
Lemma split_from_one sep piece text :
  (∀ before suffix, text = before +:+ suffix → String.prefix sep suffix = false) →
  split_from sep 0 piece text = [piece +:+ text].
Proof.
  revert piece. induction text as [|c text IH]; intros piece Hnone.
  - by rewrite append_nil_r.
  - cbn [split_from]. rewrite (Hnone EmptyString (String c text)) by done.
    rewrite IH; [by rewrite append_snoc|].
    intros before suffix ->. by apply (Hnone (String c before)).
Qed.

Lemma split_from_no_first_char c sep piece text :
  ¬ occurs c text →
  split_from (String c sep) 0 piece text = [piece +:+ text].
Proof.
  intros Hnone. apply split_from_one. intros before suffix ->.
  destruct suffix as [|c' suffix]; [done|]. apply prefix_cons_ne.
  intros ->. apply Hnone, occurs_append. right. by left.
Qed.

(** One occurrence, and the first character of the separator nowhere else:
    two pieces. *)
Lemma split_once c sep before after :
  ¬ occurs c before → ¬ occurs c after →
  split (String c sep) (before +:+ String c sep +:+ after) = [before; after].
Proof.
  intros Hbefore Hafter. unfold split.
  assert (∀ piece,
    split_from (String c sep) 0 piece (before +:+ String c sep +:+ after)
    = [piece +:+ before; after]) as Hgo; [|apply Hgo].
  induction before as [|c' before IH]; intros piece.
  - rewrite append_nil_l, append_nil_r, append_cons. cbn [split_from].
    rewrite <- append_cons, prefix_append. f_equal. cbn [String.length].
    replace (S (String.length sep) - 1)%nat with (String.length sep) by lia.
    rewrite split_from_skip.
    by apply split_from_no_first_char.
  - rewrite append_cons. cbn [split_from].
    rewrite prefix_cons_ne by (intros ->; apply Hbefore; by left).
    rewrite IH by (intros ?; apply Hbefore; by right).
    by rewrite append_snoc.
Qed.

Lemma last_cons {A} (x : A) (l : list A) d :
  l ≠ [] → List.last (x :: l) d = List.last l d.
Proof. by destruct l. Qed.

Lemma split_from_nonempty sep skip piece text : split_from sep skip piece text ≠ [].
Proof.
  revert skip piece. induction text as [|c text IH]; intros skip piece; [done|].
  cbn [split_from]. destruct skip; [|done]. by case_match.
Qed.

(** The last piece of a split at a single character holds no such
    character. *)
Lemma split_from_last c piece text skip :
  ¬ occurs c piece →
  ¬ occurs c (List.last (split_from (String c EmptyString) skip piece text)
                        EmptyString).
Proof.
  revert piece skip. induction text as [|c' text IH]; intros piece skip Hpiece;
    [done|].
  cbn [split_from]. destruct skip as [|skip]; [|by apply IH].
  destruct (String.prefix _ _) eqn:Hprefix.
  - rewrite last_cons by apply split_from_nonempty. apply IH. intros [].
  - apply IH. rewrite occurs_append. intros [?|[->|[]]]; [done|].
    cbn in Hprefix. destruct (ascii_dec _ _); [by destruct text | done].
Qed.

End fields_theory.

(** X26. What [Base64ImageField] hands to the image field. A file, or a
    text that does not start with "data:image", is handed on as it is. A
    text that starts with "data:image" is either refused with 'Invalid
    base64 format' or replaced by a file named "image." followed by an
    extension in which no "/" occurs. *)
Theorem to_internal_value_file_name
    (b64decode : string → option string)
    (ImageField_to_internal_value :
       fields.Data → result fields.ValidationError fields.Data) :
  let to_internal_value :=
    fields.to_internal_value b64decode ImageField_to_internal_value in
  (∀ content name,
     to_internal_value (fields.File content name)
     = ImageField_to_internal_value (fields.File content name)) ∧
  (∀ text, String.prefix "data:image" text = false →
     to_internal_value (fields.Str text)
     = ImageField_to_internal_value (fields.Str text)) ∧
  (∀ text, String.prefix "data:image" text = true →
     to_internal_value (fields.Str text) = Raise fields.Invalid_base64_format ∨
     ∃ decoded_image image_extension,
       ¬ fields.occurs "/" image_extension ∧
       to_internal_value (fields.Str text)
       = ImageField_to_internal_value
           (fields.File decoded_image ("image." +:+ image_extension))).
Proof.
  cbn zeta. unfold fields.to_internal_value. split_and!.
  - done.
  - by intros text ->.
  - intros text ->.
    destruct (fields.split ";base64," text) as [|image_type [|image_data [|]]];
      try by left.
    destruct (b64decode image_data) as [decoded|]; [|by left].
    right. eexists _, _. split; [|done].
    apply split_from_last. intros [].
Qed.

Lemma to_internal_value_file_name_witness :
  fields.to_internal_value (λ text, Some text) (λ data, Ok data)
    (fields.Str "data:image/../../etc/png;base64,AAAA")
  = Raise fields.Invalid_base64_format ∨
  ∃ decoded_image image_extension,
    ¬ fields.occurs "/" image_extension ∧
    fields.to_internal_value (λ text, Some text) (λ data, Ok data)
      (fields.Str "data:image/../../etc/png;base64,AAAA")
    = Ok (fields.File decoded_image ("image." +:+ image_extension)).
Proof.
  apply (proj2 (proj2 (to_internal_value_file_name
                         (λ text, Some text) (λ data, Ok data)))).
  reflexivity.
Defined.

(** X27. A data URI of the expected shape is decoded: for the text
    "data:image/" + extension + ";base64," + payload, where neither ";"
    nor "/" occurs in the extension and ";" does not occur in the payload,
    the image field receives the file whose content is the decoded payload
    and whose name is "image." + extension; when the payload does not
    decode, the text is refused with 'Invalid base64 format'. *)
Theorem to_internal_value_data_uri
    (b64decode : string → option string)
    (ImageField_to_internal_value :
       fields.Data → result fields.ValidationError fields.Data)
    (image_extension payload : string) :
  ¬ fields.occurs ";" image_extension →
  ¬ fields.occurs "/" image_extension →
  ¬ fields.occurs ";" payload →
  fields.to_internal_value b64decode ImageField_to_internal_value
    (fields.Str ("data:image/" +:+ image_extension +:+ ";base64," +:+ payload))
  = match b64decode payload with
    | Some decoded_image =>
        ImageField_to_internal_value
          (fields.File decoded_image ("image." +:+ image_extension))
    | None => Raise fields.Invalid_base64_format
    end.
Proof.
  intros Hsemi Hslash Hpayload. unfold fields.to_internal_value.
  change ("data:image/" +:+ image_extension +:+ ";base64," +:+ payload)
    with ("data:image" +:+ ("/" +:+ image_extension +:+ ";base64," +:+ payload))
    at 1.
  rewrite prefix_append.
  rewrite <- (append_assoc "data:image/" image_extension).
  rewrite (split_once ";" "base64," ("data:image/" +:+ image_extension) payload).
  - change ("data:image/" +:+ image_extension)
      with ("data:image" +:+ "/" +:+ image_extension).
    rewrite (split_once "/" EmptyString "data:image" image_extension); [done | |done].
    cbn. naive_solver.
  - rewrite occurs_append. intros [Hin|Hin]; [|done].
    cbn in Hin. naive_solver.
  - done.
Qed.

Lemma to_internal_value_data_uri_witness :
  fields.to_internal_value (λ text, Some text) (λ data, Ok data)
    (fields.Str ("data:image/" +:+ "png" +:+ ";base64," +:+ "iVBORw0KGgo="))
  = Ok (fields.File "iVBORw0KGgo=" ("image." +:+ "png")).
Proof.
  apply (to_internal_value_data_uri (λ text, Some text) (λ data, Ok data)
           "png" "iVBORw0KGgo=");
    cbn; intros Hin; repeat (destruct Hin as [Hin|Hin]; [discriminate|]); done.
Defined.

(** X28. A text that starts with "data:image" and does not hold the marker
    ";base64," is refused with 'Invalid base64 format'; it never reaches
    the image field or the decoder. *)
Theorem to_internal_value_without_marker
    (b64decode : string → option string)
    (ImageField_to_internal_value :
       fields.Data → result fields.ValidationError fields.Data)
    (text : string) :
  String.prefix "data:image" text = true →
  ¬ fields.contains ";base64," text →
  fields.to_internal_value b64decode ImageField_to_internal_value (fields.Str text)
  = Raise fields.Invalid_base64_format.
Proof.
  intros Hprefix Hnone. unfold fields.to_internal_value, fields.split.
  rewrite Hprefix, split_from_one; [done|].
  intros before suffix ->.
  destruct (String.prefix ";base64," suffix) eqn:Hmarker; [|done].
  apply prefix_true in Hmarker as [after ->]. exfalso. apply Hnone.
  by exists before, after.
Qed.

Lemma to_internal_value_without_marker_witness :
  fields.to_internal_value (λ text, Some text) (λ data, Ok data)
    (fields.Str "data:image/png,AAAA")
  = Raise fields.Invalid_base64_format.
Proof.
  apply (to_internal_value_without_marker (λ text, Some text) (λ data, Ok data)
           "data:image/png,AAAA"); [reflexivity|].
  intros (before & after & Heq).
  repeat (destruct before as [|? before]; [discriminate Heq|];
          injection Heq as _ Heq).
  destruct before; discriminate Heq.
Defined.

(** ** The rows a recipe refers to *)

Section reference_theory.
Import serializers examples.

Implicit Types (db : Store) (attrs : Attrs) (r instance : Recipe)
  (lines : list IngredientRecipe) (data : list IngredientData).

Lemma does_not_exist_nil (pks : list pk) (pk_value : pk) :
  does_not_exist pks pk_value = [] ↔ pk_value ∈ pks.
Proof. unfold does_not_exist. by case_decide. Qed.

(** The lines made of entries the fields accept refer to stored
    ingredients. *)
Lemma lines_of_data_stored partial db id data lines :
  Forall (λ d, ingredient_errors partial db d = []) data →
  lines_of_data id data = Some lines →
  Forall (λ line, ingredient line ∈ ingredient_id <$> Ingredient_objects db)
         lines.
Proof.
  intros Hdata Hlines%lines_of_data_Some.
  induction Hlines as [|d line data lines (Hd & _ & _) _ IH]; [constructor|].
  apply Forall_cons in Hdata as [Hentry Hdata].
  constructor; [|by apply IH].
  unfold ingredient_errors in Hentry. rewrite Hd in Hentry.
  apply app_nil in Hentry as [Hentry _]. by apply does_not_exist_nil.
Qed.

(** What the fields have accepted once [run_validation] returns. *)
Lemma run_validation_stored author method attrs db validated_data :
  (run_validation author method attrs db).1 = Ok validated_data →
  ∃ tags data,
    attrs_tag attrs = Some tags ∧ attrs_recipe_ingredients attrs = Some data ∧
    Forall (λ t, t ∈ tag_id <$> Tag_objects db) tags ∧
    Forall (λ d, ingredient_errors (partial method) db d = []) data.
Proof.
  intros (_ & Hfield & name & tags & data & ids & _ & Htags & _ & _ & Hdata & _)
    %run_validation_Ok.
  apply field_errors_nil in Hfield as (Hstored & Hentries & _).
  rewrite Htags in Hstored. rewrite Hdata in Hentries. by exists tags, data.
Qed.

End reference_theory.

(** X29. A recipe only refers to what is stored: when every stored
    ingredient line refers to a stored ingredient and every stored tag row
    to a stored tag, the same holds after [create_recipe] and after
    [update_recipe], whatever their outcome. The fields refuse a tag or an
    ingredient that is not stored before anything is written. *)
Theorem recipe_write_refers_to_stored_rows
    (author : pk) (instance : Recipe) (attrs : serializers.Attrs) (db : Store) :
  serializers.references_stored db →
  serializers.references_stored (serializers.create_recipe author attrs db).2 ∧
  serializers.references_stored
    (serializers.update_recipe author instance attrs db).2.
Proof.
  intros [Hlines Htags]. split.
  - destruct (serializers.create_recipe author attrs db) as [[r|e] db'] eqn:Hrun;
      [|by apply all_or_nothing_create_recipe in Hrun as ->].
    rewrite create_recipe_eq in Hrun.
    destruct (serializers.run_validation author "POST" attrs db).1
      as [vd|e] eqn:Hvalid; [|done].
    pose proof (run_validation_stored _ _ _ _ _ Hvalid)
      as (tags & data & Htag & Hdata & Hstored & Hentries).
    apply run_validation_Ok in Hvalid as (-> & _).
    apply create_Ok_iff in Hrun
      as (data' & tags' & ct & lines & Hdata' & Htag' & _ & _ & Hmade & _ & ->).
    rewrite Hdata in Hdata'. rewrite Htag in Htag'.
    injection Hdata' as <-. injection Htag' as <-. cbn [snd].
    destruct (created_store_tables r tags lines db)
      as (_ & Htagrows & Hrows & Hingr & _ & _ & _ & Htagtable).
    unfold serializers.references_stored.
    rewrite Htagrows, Hrows, Hingr, Htagtable. split.
    + apply Forall_app. split; [done|]. by eapply lines_of_data_stored.
    + apply Forall_forall. intros [id t] Hin. cbn.
      apply tag_rows_elem in Hin. case_decide.
      * rewrite Forall_forall in Hstored. by apply Hstored.
      * rewrite Forall_forall in Htags. by apply (Htags (id, t)).
  - destruct (serializers.update_recipe author instance attrs db)
      as [[r|e] db'] eqn:Hrun;
      [|by apply all_or_nothing_update_recipe in Hrun as ->].
    rewrite update_recipe_eq in Hrun.
    destruct (serializers.run_validation author "PATCH" attrs db).1
      as [vd|e] eqn:Hvalid; [|done].
    pose proof (run_validation_stored _ _ _ _ _ Hvalid)
      as (tags & data & Htag & Hdata & Hstored & Hentries).
    apply run_validation_Ok in Hvalid as (-> & _).
    apply update_Ok_iff in Hrun as (-> & lines & Hmade & _ & ->).
    rewrite Htag, Hdata in *. cbn [default from_option id] in *. cbn [snd].
    destruct (updated_store_tables (serializers.updated_instance instance attrs)
                tags lines db)
      as (_ & Htagrows & Hrows & Hingr & _ & _ & _ & Htagtable).
    unfold serializers.references_stored.
    rewrite Htagrows, Hrows, Hingr, Htagtable. split.
    + apply Forall_app. split; [|by eapply lines_of_data_stored].
      apply Forall_forall. intros line [_ Hin]%list_elem_of_filter.
      rewrite Forall_forall in Hlines. by apply Hlines.
    + apply Forall_forall. intros [id t] Hin. cbn.
      apply tag_rows_elem in Hin. case_decide.
      * rewrite Forall_forall in Hstored. by apply Hstored.
      * rewrite Forall_forall in Htags. by apply (Htags (id, t)).
Qed.

Lemma recipe_write_refers_to_stored_rows_witness :
  serializers.references_stored serializers.soup_store ∧
  serializers.references_stored
    (serializers.create_recipe 4 (serializers.boundary_attrs 30 10)
       serializers.soup_store).2 ∧
  serializers.references_stored
    (serializers.update_recipe 3 serializers.soup serializers.rename_to_broth
       serializers.soup_store).2.
Proof.
  assert (serializers.references_stored serializers.soup_store) as Hok.
  { split; apply Forall_singleton; cbn; set_solver. }
  split; [exact Hok|]. split.
  - exact (proj1 (recipe_write_refers_to_stored_rows 4 serializers.soup
                    (serializers.boundary_attrs 30 10) serializers.soup_store
                    Hok)).
  - exact (proj2 (recipe_write_refers_to_stored_rows 3 serializers.soup
                    serializers.rename_to_broth serializers.soup_store Hok)).
Defined.
